(** * Sortify: the traversal/filter engine and the move planner of
      [app/sorter.py], embedded in Rocq.

    The program works on a file system through [pathlib], [os.walk] and
    [shutil.move].  The embedding keeps that shape:

    - a path is the list of its components below the file-system root;
      there are no symbolic links, so [Path.resolve] is lexical
      normalisation, and [SortConfig.root] is taken as absolute;
    - the file system is a finite tree of regular files and directories;
      a directory lists its entries in [os.scandir] order;
    - the functions of [sorter.py] that touch the file system or print
      run in a small state-and-exception monad over a [world]: the tree
      and the lines printed so far.  An exception leaves the world as it
      was when it was raised.

    [Path.suffix] and [Path.stem] follow CPython 3.4 to 3.13 (the last dot
    of the name counts only when it is neither the first nor the last
    character); [str.lower] is modelled on ASCII letters. *)

From Stdlib Require Import List String Ascii Bool Arith PeanoNat Lia.
From Stdlib Require Import DecimalString DecimalNat.
From Stdlib Require Import Sorting.Permutation Sorting.Sorted.
Import ListNotations.

Local Open Scope string_scope.
Local Open Scope list_scope.

(* ================================================================== *)
(** ** Python strings *)

Module PyStr.

(** [str.lower], on the ASCII range. *)
Definition lower_char (c : ascii) : ascii :=
  let n := nat_of_ascii c in
  if ((65 <=? n) && (n <=? 90))%nat then ascii_of_nat (n + 32) else c.

Fixpoint lower (s : string) : string :=
  match s with
  | EmptyString => EmptyString
  | String c s' => String (lower_char c) (lower s')
  end.

(** [s.startswith(".")] *)
Definition startswith_dot (s : string) : bool :=
  match s with
  | String c _ => Ascii.eqb c "."
  | EmptyString => false
  end.

(** [s.lstrip(".")] *)
Fixpoint lstrip_dot (s : string) : string :=
  match s with
  | String c s' => if Ascii.eqb c "." then lstrip_dot s' else s
  | EmptyString => EmptyString
  end.

(** [s.rfind(".")]; [None] stands for Python's [-1]. *)
Fixpoint rfind_dot (s : string) : option nat :=
  match s with
  | EmptyString => None
  | String c s' =>
      match rfind_dot s' with
      | Some i => Some (S i)
      | None => if Ascii.eqb c "." then Some 0 else None
      end
  end.

(** [str(n)] for a non-negative integer. *)
Definition str_of_nat (n : nat) : string :=
  NilEmpty.string_of_uint (Nat.to_uint n).

(** [x in xs] for strings. *)
Definition mem (x : string) (xs : list string) : bool :=
  existsb (String.eqb x) xs.

(** ["." in s] *)
Fixpoint has_dot (s : string) : bool :=
  match s with
  | EmptyString => false
  | String c s' => Ascii.eqb c "." || has_dot s'
  end.

End PyStr.

(* ================================================================== *)
(** ** Paths ([pathlib.Path]) *)

Definition path := list string.

Fixpoint path_eqb (p q : path) : bool :=
  match p, q with
  | [], [] => true
  | a :: p', b :: q' => String.eqb a b && path_eqb p' q'
  | _, _ => false
  end.

(** [p / c] for a single component [c]. *)
Definition joinpath (p : path) (c : string) : path := p ++ [c].

Notation "p // c" := (joinpath p c) (at level 40, left associativity).

(** [p.name] *)
Definition path_name (p : path) : string := last p "".

(** [p.parent] *)
Definition path_parent (p : path) : path := removelast p.

(** A name that can be a directory entry. *)
Definition valid_name (s : string) : bool :=
  negb (s =? "") && negb (s =? ".") && negb (s =? "..").

Definition canonical (p : path) : bool := forallb valid_name p.

(** [p.resolve()] without symbolic links: empty and [.] components are
    dropped, [..] goes up and stays at the root. *)
Definition resolve_step (acc : path) (c : string) : path :=
  if (c =? "") || (c =? ".") then acc
  else if c =? ".." then removelast acc
  else acc ++ [c].

Definition resolve (p : path) : path := fold_left resolve_step p [].

(** [PurePath.suffix] of a name. *)
Definition name_suffix (nm : string) : string :=
  match PyStr.rfind_dot nm with
  | Some i =>
      if ((0 <? i) && (i <? String.length nm - 1))%nat
      then substring i (String.length nm - i) nm
      else ""
  | None => ""
  end.

(** [PurePath.stem] of a name. *)
Definition name_stem (nm : string) : string :=
  match PyStr.rfind_dot nm with
  | Some i =>
      if ((0 <? i) && (i <? String.length nm - 1))%nat
      then substring 0 i nm
      else nm
  | None => nm
  end.

Definition suffix (p : path) : string := name_suffix (path_name p).
Definition stem (p : path) : string := name_stem (path_name p).

(** [is_relative_to_path(candidate, other)]: [candidate.relative_to(other)]
    raises [ValueError] unless the components of [other] start those of
    [candidate]. *)
Fixpoint is_relative_to_path (candidate other : path) {struct other} : bool :=
  match other, candidate with
  | [], _ => true
  | o :: other', c :: candidate' =>
      String.eqb o c && is_relative_to_path candidate' other'
  | _ :: _, [] => false
  end.

(** The expression [p.suffix.lower().lstrip(".") or "no_ext"], which
    [iter_files], [move_file] and [summarize_extensions] all use. *)
Definition ext_of_name (nm : string) : string :=
  let e := PyStr.lstrip_dot (PyStr.lower (name_suffix nm)) in
  if e =? "" then "no_ext" else e.

Definition ext_key (p : path) : string := ext_of_name (path_name p).

Definition DEFAULT_CODE_EXTENSIONS : list string :=
  [ ".py"; ".ipynb"; ".pyc"; ".pyo";
    ".html"; ".css"; ".js"; ".jsx"; ".ts"; ".tsx";
    ".java"; ".c"; ".cpp"; ".h"; ".hpp"; ".cs";
    ".sh"; ".bash"; ".ps1"; ".bat";
    ".json"; ".yaml"; ".yml"; ".xml";
    ".go"; ".rs"; ".rb"; ".php"; ".swift"; ".kt"; ".kts" ].

(* ================================================================== *)
(** ** The file system *)

Definition content := nat.

#[local] Unset Elimination Schemes.
Inductive node : Type :=
| File (c : content)
| Dir (entries : list (string * node)).
#[local] Set Elimination Schemes.

Definition entries := list (string * node).

Definition node_is_dir (n : node) : bool :=
  match n with Dir _ => true | File _ => false end.

Fixpoint assoc (k : string) (es : entries) : option node :=
  match es with
  | [] => None
  | (k', v) :: es' => if String.eqb k k' then Some v else assoc k es'
  end.

(** Replace the entry called [k]. *)
Fixpoint set_entry (k : string) (v : node) (es : entries) : entries :=
  match es with
  | [] => []
  | (k', v') :: es' =>
      if String.eqb k k' then (k', v) :: es' else (k', v') :: set_entry k v es'
  end.

Definition del_entry (k : string) (es : entries) : entries :=
  filter (fun e => negb (String.eqb k (fst e))) es.

Fixpoint lookup (n : node) (p : path) {struct p} : option node :=
  match p with
  | [] => Some n
  | c :: p' =>
      match n with
      | Dir es =>
          match assoc c es with
          | Some child => lookup child p'
          | None => None
          end
      | File _ => None
      end
  end.

Inductive kind : Type :=
| KFile (c : content)
| KDir.

Definition kind_of (n : node) : kind :=
  match n with File c => KFile c | Dir _ => KDir end.

Definition kind_at (t : node) (p : path) : option kind :=
  option_map kind_of (lookup t p).

(** [p.exists()], [p.is_file()], [p.is_dir()] *)
Definition path_exists (t : node) (p : path) : bool :=
  match kind_at t p with Some _ => true | None => false end.

Definition path_is_file (t : node) (p : path) : bool :=
  match kind_at t p with Some (KFile _) => true | _ => false end.

Definition path_is_dir (t : node) (p : path) : bool :=
  match kind_at t p with Some KDir => true | _ => false end.

(** Names of the sub-directories and of the other entries of a directory,
    in listing order, as [os.walk] splits them. *)
Definition dirnames (es : entries) : list string :=
  map fst (filter (fun e => node_is_dir (snd e)) es).

Definition filenames (es : entries) : list string :=
  map fst (filter (fun e => negb (node_is_dir (snd e))) es).

Fixpoint nodupb (l : list string) : bool :=
  match l with
  | [] => true
  | x :: l' => negb (PyStr.mem x l') && nodupb l'
  end.

(** A well-formed tree: in every directory the entries have valid and
    pairwise different names. *)
Fixpoint wf (n : node) : bool :=
  match n with
  | File _ => true
  | Dir es =>
      nodupb (map fst es)
      && forallb valid_name (map fst es)
      && forallb (fun e => wf (snd e)) es
  end.

(** A chain of fresh directories. *)
Fixpoint mk_dirs (p : path) : node :=
  match p with
  | [] => Dir []
  | c :: p' => Dir [(c, mk_dirs p')]
  end.

Inductive exn : Type :=
| SystemExit (root : path)
| FileExistsError (p : path)
| NotADirectoryError (p : path)
| FileNotFoundError (p : path)
| ShutilError (p : path)
| LoopFuelExhausted.

(** [os.walk(top)] with [topdown=True], as [iter_files] drives it: the
    loop body may filter the list of sub-directory names in place before
    the walk descends; [keep dirpath d] says whether [d] stays in the
    list.  Each triple is [(dirpath, dirnames, filenames)] with the list
    of directory names as the loop body left it. *)
Fixpoint os_walk (keep : path -> string -> bool) (top : path) (n : node)
  {struct n} : list (path * list string * list string) :=
  match n with
  | File _ => []
  | Dir es =>
      (top, filter (keep top) (dirnames es), filenames es)
      :: flat_map
           (fun e =>
              if node_is_dir (snd e) && keep top (fst e)
              then os_walk keep (top // fst e) (snd e)
              else [])
           es
  end.

(* ================================================================== *)
(** ** File-system primitives *)

(** [Path.mkdir(parents=True, exist_ok=True)] on the tree: missing
    directories along [p] are created; a file met on the way makes
    [os.mkdir] fail ([FileExistsError] at the last component,
    [NotADirectoryError] before it), and nothing is created then. *)
Fixpoint mkdir_p (here p : path) (n : node) {struct p} : exn + node :=
  match n with
  | File _ =>
      match p with
      | [] => inl (FileExistsError here)
      | _ :: _ => inl (NotADirectoryError here)
      end
  | Dir es =>
      match p with
      | [] => inr n
      | c :: p' =>
          match assoc c es with
          | Some child =>
              match mkdir_p (here // c) p' child with
              | inr child' => inr (Dir (set_entry c child' es))
              | inl e => inl e
              end
          | None => inr (Dir (es ++ [(c, mk_dirs p')]))
          end
      end
  end.

(** Detach whatever is at [p] (the source side of [os.rename]). *)
Fixpoint remove (p : path) (n : node) {struct p} : node :=
  match p, n with
  | [], _ => n
  | _ :: _, File _ => n
  | c :: p', Dir es =>
      match p' with
      | [] => Dir (del_entry c es)
      | _ :: _ =>
          match assoc c es with
          | Some child => Dir (set_entry c (remove p' child) es)
          | None => n
          end
      end
  end.

(** Attach [new] at [p] (the target side of [os.rename]): the parent of
    [p] has to be an existing directory; an entry already at [p] is
    replaced. *)
Fixpoint graft (p : path) (new : node) (n : node) {struct p} : option node :=
  match p with
  | [] => Some new
  | c :: p' =>
      match n with
      | File _ => None
      | Dir es =>
          match assoc c es with
          | Some child =>
              match graft p' new child with
              | Some child' => Some (Dir (set_entry c child' es))
              | None => None
              end
          | None =>
              match p' with
              | [] => Some (Dir (es ++ [(c, new)]))
              | _ :: _ => None
              end
          end
      end
  end.

(* ================================================================== *)
(** ** The monad of [sorter.py]: file system, printed lines, exceptions *)

Inductive line : Type :=
| Skipping (src : path)                (* "Skipping (already grouped): src" *)
| DryRun (src dest : path)             (* "DRY-RUN: src -> dest" *)
| Moving (src dest : path)             (* "Moving: src -> dest" *)
| NoFiles                              (* "No files to process ..." *)
| AboutToMove (n : nat)                (* "About to move n file(s). ..." *)
| Done (dry : bool)                    (* "Done." / "Done. (dry-run)" *)
| DestinationIs (dest_root : path).    (* "Destination: dest_root" *)

Record world : Type := World { tree : node; out : list line }.

Inductive result (A : Type) : Type :=
| Ok (a : A)
| Raise (e : exn).

Arguments Ok {A} a.
Arguments Raise {A} e.


Definition M (A : Type) : Type := world -> result A * world.

Definition ret {A} (a : A) : M A := fun w => (Ok a, w).

Definition raise {A} (e : exn) : M A := fun w => (Raise e, w).

Definition bind {A B} (m : M A) (k : A -> M B) : M B :=
  fun w =>
    match m w with
    | (Ok a, w') => k a w'
    | (Raise e, w') => (Raise e, w')
    end.

Notation "x <- m ;; k" := (bind m (fun x => k))
  (at level 61, m at next level, right associativity).
Notation "m ;;; k" := (bind m (fun _ => k))
  (at level 61, right associativity).

Definition print (l : line) : M unit :=
  fun w => (Ok tt, World (tree w) (out w ++ [l])).

(** Read the file system. *)
Definition gets {A} (f : node -> A) : M A := fun w => (Ok (f (tree w)), w).

(** [for x in xs: body(x)] *)
Fixpoint for_each {A} (xs : list A) (body : A -> M unit) : M unit :=
  match xs with
  | [] => ret tt
  | x :: xs' => body x ;;; for_each xs' body
  end.

(** [p.mkdir(parents=True, exist_ok=True)] *)
Definition mkdir_parents_exist_ok (p : path) : M unit :=
  fun w =>
    match mkdir_p [] p (tree w) with
    | inr t' => (Ok tt, World t' (out w))
    | inl e => (Raise e, w)
    end.

(** [shutil.move(src, dst)].  An existing directory [dst] receives the
    source under its own name, unless that name is taken; otherwise
    [os.rename] detaches the source and attaches it at [dst], replacing a
    file that is there.  A missing source, or a missing parent of the
    target, is [FileNotFoundError] (from [os.rename] and again from the
    copy that [shutil] falls back to).

    The tree has neither permissions nor devices, so [os.rename] fails
    for no other reason and every failure below comes before any change.
    On a real file system the fall-back (copy, then unlink) can also fail
    half-way and leave a copy at the target; that has no counterpart
    here, and nothing below is stated about it. *)
Definition shutil_move (src dst : path) : M path :=
  fun w =>
    let t := tree w in
    let real_dst := if path_is_dir t dst then dst // path_name src else dst in
    if path_is_dir t dst && path_exists t real_dst
    then (Raise (ShutilError real_dst), w)
    else
      match lookup t src with
      | None => (Raise (FileNotFoundError src), w)
      | Some n =>
          if node_is_dir n && is_relative_to_path real_dst src
          then (Raise (ShutilError real_dst), w)
          else if node_is_dir n && path_exists t real_dst
          then (Raise (FileExistsError real_dst), w)
          else
            match graft real_dst n (remove src t) with
            | Some t' => (Ok real_dst, World t' (out w))
            | None => (Raise (FileNotFoundError real_dst), w)
            end
      end.

(* ================================================================== *)
(** ** [sorter.py] *)

Record PurePath : Type := { is_absolute : bool; parts : list string }.

(** [SortConfig]; [root] is an absolute path. *)
Record SortConfig : Type := {
  root : path;
  dest_dir : PurePath;
  include_dotfiles : bool;
  include_code : bool;
  dry_run : bool;
  interactive : bool
}.

Definition root_path (config : SortConfig) : path := resolve (root config).

Definition destination_root (config : SortConfig) : path :=
  let dest_path := dest_dir config in
  if is_absolute dest_path then resolve (parts dest_path)
  else resolve (root_path config ++ parts dest_path).

(** The list comprehension that prunes [dirnames] in place. *)
Definition keep_dir (dest_is_root : bool) (dest_root current_dir : path)
  (d : string) : bool :=
  if negb dest_is_root
  then negb (is_relative_to_path (resolve (current_dir // d)) dest_root)
       && negb (path_eqb (resolve (current_dir // d)) dest_root)
  else true.

(** The body of [for name in filenames]: [true] when the path is
    yielded, [false] on each [continue]. *)
Definition yields (t : node) (root dest_root : path) (dest_is_root : bool)
  (include_dotfiles include_code : bool) (code_extensions : list string)
  (current_dir : path) (name : string) : bool :=
  let path := current_dir // name in
  if negb include_dotfiles && PyStr.startswith_dot (path_name path) then false
  else if negb include_code
          && PyStr.mem (PyStr.lower (suffix path)) code_extensions then false
  else if path_eqb (resolve (path_parent path)) root
          && (PyStr.lower (path_name path) =? "readme.md") then false
  else if negb dest_is_root && is_relative_to_path (resolve path) dest_root
  then false
  else if dest_is_root
          && path_eqb (resolve (path_parent path))
                      (resolve (dest_root // ext_key path))
  then false
  else path_is_file t path.

(** [code_extensions or DEFAULT_CODE_EXTENSIONS] *)
Definition or_default (code_extensions : option (list string)) : list string :=
  match code_extensions with
  | Some (x :: l) => x :: l
  | _ => DEFAULT_CODE_EXTENSIONS
  end.

(** The triples [os.walk(root)] hands to the loop of [iter_files]. *)
Definition walk_from (t : node) (keep : path -> string -> bool) (root : path)
  : list (path * list string * list string) :=
  match lookup t root with
  | Some top => os_walk keep root top
  | None => []
  end.

Definition iter_files (t : node) (root dest_root : path)
  (include_dotfiles include_code : bool)
  (code_extensions : option (list string)) : list path :=
  let root := resolve root in
  let dest_root := resolve dest_root in
  let code_extensions := or_default code_extensions in
  let dest_is_root := path_eqb dest_root root in
  flat_map
    (fun '(current_dir, _, filenames) =>
       map (joinpath current_dir)
         (filter
            (yields t root dest_root dest_is_root include_dotfiles
               include_code code_extensions current_dir)
            filenames))
    (walk_from t (keep_dir dest_is_root dest_root) root).

(** The name tried at round [counter]: [f"{stem} ({counter}){suffix}"]. *)
Definition bumped_name (filename : string) (counter : nat) : string :=
  (name_stem filename ++ " (" ++ PyStr.str_of_nat counter ++ ")"
   ++ name_suffix filename)%string.

(** The [while True] loop of [safe_destination], with a bound on the
    number of rounds. *)
Fixpoint bump_loop (t : node) (dest_dir : path) (filename : string)
  (fuel counter : nat) : option path :=
  match fuel with
  | 0 => None
  | S fuel' =>
      let bumped := dest_dir // bumped_name filename counter in
      if negb (path_exists t bumped) then Some bumped
      else bump_loop t dest_dir filename fuel' (S counter)
  end.

(** Number of entries of the directory at [p]. *)
Definition entry_count (t : node) (p : path) : nat :=
  match lookup t p with
  | Some (Dir es) => List.length es
  | _ => 0
  end.

(** [safe_destination]; the loop gets one round more than the bucket has
    entries, which is always enough ([safe_destination_total]). *)
Definition safe_destination (t : node) (dest_dir : path) (filename : string)
  : option path :=
  let candidate := dest_dir // filename in
  if negb (path_exists t candidate) then Some candidate
  else bump_loop t dest_dir filename (S (entry_count t dest_dir)) 1.

Definition move_file (src dest_root : path) (dry_run : bool) : M path :=
  let ext := ext_key src in
  let dest_dir := dest_root // ext in
  mkdir_parents_exist_ok dest_dir ;;;
  if path_eqb (resolve (path_parent src)) (resolve dest_dir)
  then print (Skipping src) ;;; ret src
  else
    found <- gets (fun t => safe_destination t dest_dir (path_name src)) ;;
    match found with
    | None => raise LoopFuelExhausted
    | Some dest =>
        if dry_run
        then print (DryRun src dest) ;;; ret dest
        else print (Moving src dest) ;;; shutil_move src dest ;;; ret dest
    end.

(** The loop [for path in files: move_file(path, dest_root, dry_run)]. *)
Definition move_all (files : list path) (dest_root : path) (dry_run : bool)
  : M unit :=
  for_each files (fun path => move_file path dest_root dry_run ;;; ret tt).

Definition sort_files (config : SortConfig) : M (list path) :=
  let root := root_path config in
  let dest_root := destination_root config in
  bad_root <- gets (fun t => negb (path_exists t root)
                             || negb (path_is_dir t root)) ;;
  if bad_root then raise (SystemExit root)
  else
    mkdir_parents_exist_ok dest_root ;;;
    files <- gets (fun t =>
               iter_files t root dest_root (include_dotfiles config)
                 (include_code config) None) ;;
    match files with
    | [] => print NoFiles ;;; ret []
    | _ :: _ =>
        (if negb (dry_run config) && negb (interactive config)
         then print (AboutToMove (List.length files))
         else ret tt) ;;;
        move_all files dest_root (dry_run config) ;;;
        print (Done (dry_run config)) ;;;
        print (DestinationIs dest_root) ;;;
        ret files
    end.


(* ================================================================== *)
(** ** Specification vocabulary *)

(** The result [safe_destination] must produce: the plain name when it is
    free, else the first free numbered name. *)
Definition is_first_free (t : node) (dest_dir : path) (filename : string)
  (p : path) : Prop :=
  path_exists t p = false
  /\ ((path_exists t (dest_dir // filename) = false
       /\ p = dest_dir // filename)
      \/ (path_exists t (dest_dir // filename) = true
          /\ exists n, 1 <= n
               /\ p = dest_dir // bumped_name filename n
               /\ forall m, 1 <= m < n ->
                    path_exists t (dest_dir // bumped_name filename m) = true)).

Definition dirpath (x : path * list string * list string) : path :=
  fst (fst x).

(** Every directory on the way from [top] down [rel] stayed in the list of
    its parent. *)
Definition all_kept (keep : path -> string -> bool) (top rel : path) : Prop :=
  forall rel1 c rel2, rel = rel1 ++ c :: rel2 -> keep (top ++ rel1) c = true.

(** What a bucket holds, as far as the planner can tell. *)
Definition same_bucket_contents (dest_root : path) (t t' : node) : Prop :=
  forall e nm,
    kind_at t' (dest_root // e // nm) = kind_at t (dest_root // e // nm).

(** The bucket of a file, in the specification's words and without any
    of the functions above.  A name has an extension when it reads
    [stem.e] with [stem] and [e] not empty and no dot in [e]; its bucket
    is then [e] with the letters [A] to [Z] in lower case, and the bucket
    of a name without extension is [no_ext]. *)
Definition lower_letter (c : ascii) : ascii :=
  match c with
  | "A" => "a" | "B" => "b" | "C" => "c" | "D" => "d" | "E" => "e"
  | "F" => "f" | "G" => "g" | "H" => "h" | "I" => "i" | "J" => "j"
  | "K" => "k" | "L" => "l" | "M" => "m" | "N" => "n" | "O" => "o"
  | "P" => "p" | "Q" => "q" | "R" => "r" | "S" => "s" | "T" => "t"
  | "U" => "u" | "V" => "v" | "W" => "w" | "X" => "x" | "Y" => "y"
  | "Z" => "z"
  | _ => c
  end%char.

Fixpoint lowercased (s : string) : string :=
  match s with
  | EmptyString => EmptyString
  | String c s' => String (lower_letter c) (lowercased s')
  end.

Fixpoint dotless (s : string) : Prop :=
  match s with
  | EmptyString => True
  | String c s' => c <> "."%char /\ dotless s'
  end.

Inductive bucket_name (name : string) : string -> Prop :=
| bucket_of_extension (stem e : string) :
    name = (stem ++ String "." e)%string ->
    stem <> "" -> e <> "" -> dotless e ->
    bucket_name name (lowercased e)
| bucket_no_ext :
    (forall stem e, name = (stem ++ String "." e)%string -> dotless e ->
                    stem = "" \/ e = "") ->
    bucket_name name "no_ext".


(* ================================================================== *)
(** ** Sample trees and configurations *)

Module Ex.

Definition config (root : path) (dest : list string)
  (dotfiles code dry : bool) : SortConfig :=
  {| root := root;
     dest_dir := {| is_absolute := false; parts := dest |};
     include_dotfiles := dotfiles;
     include_code := code;
     dry_run := dry;
     interactive := false |}.

(** [python -m app /r] and its variants. *)
Definition cfg_default : SortConfig :=
  config ["r"] ["sorted_by_extension"] false false false.
Definition cfg_dry : SortConfig :=
  config ["r"] ["sorted_by_extension"] false false true.
Definition cfg_in_place : SortConfig :=
  config ["r"] [] false false false.
Definition cfg_everything : SortConfig :=
  config ["r"] ["sorted_by_extension"] true true false.
Definition cfg_missing : SortConfig :=
  config ["nowhere"] ["sorted_by_extension"] false false false.

Definition dest : path := ["r"; "sorted_by_extension"].

(** The tree of the specification's example, with a second [x.txt] in a
    sub-directory and a sibling whose name starts like the
    destination's. *)
Definition home : node :=
  Dir [("r",
        Dir [("a.txt", File 1); ("b.TXT", File 2); (".secret", File 3);
             ("notes.py", File 4); ("README.md", File 5);
             ("x.txt", File 6);
             ("sub", Dir [("x.txt", File 7); ("todo", File 8)]);
             ("sorted_by_extension_old", Dir [("old.txt", File 9)])])].

(** Two files called [a.] (a legal POSIX name) in different
    directories. *)
Definition dots : node :=
  Dir [("r", Dir [("a.", File 1); ("d", Dir [("a.", File 2)])])].

(** [a.txt] was listed and has since disappeared; [b.txt] is still
    there. *)
Definition after_vanish : node := Dir [("r", Dir [("b.txt", File 2)])].
Definition listed : list path := [["r"; "a.txt"]; ["r"; "b.txt"]].

(** A destination that already holds files, next to a directory whose
    name merely starts like the destination's. *)
Definition nested : node :=
  Dir [("r",
        Dir [("sorted_by_extension",
              Dir [("txt", Dir [("a.txt", File 1)])]);
             ("sorted_by_extension_old", Dir [("old.txt", File 9)]);
             ("b.txt", File 2)])].

(** The world a run leaves behind, and a fresh run on its tree. *)
Definition after (config : SortConfig) (t : node) : world :=
  snd (sort_files config (World t [])).

Definition second_pass (config : SortConfig) (t : node)
  : result (list path) * world :=
  sort_files config (World (tree (after config t)) []).

End Ex.

(* ================================================================== *)
(** ** Vocabulary of the further properties *)

(** The line a planned move prints: the target lies in the bucket. *)
Definition reports (dest_root : path) (dry : bool) (p : path) (l : line)
  : Prop :=
  exists d, l = (if dry then DryRun p d else Moving p d)
            /\ path_parent d = dest_root // ext_key p.

(** [s.endswith(".")] *)
Fixpoint endswith_dot (s : string) : bool :=
  match s with
  | EmptyString => false
  | String c EmptyString => Ascii.eqb c "."
  | String _ s' => endswith_dot s'
  end.

(* ================================================================== *)
(** ** [interactive.py]: the summary of extensions *)

(** A [dict[str, int]], in insertion order. *)
Definition counts_dict := list (string * nat).

(** [counts.get(k)] *)
Fixpoint dict_get (k : string) (counts : counts_dict) : option nat :=
  match counts with
  | [] => None
  | (k', v) :: counts' => if String.eqb k k' then Some v else dict_get k counts'
  end.

(** [counts[k] = counts.get(k, 0) + 1]: a known key keeps its place, a
    new one goes to the end. *)
Fixpoint dict_incr (k : string) (counts : counts_dict) : counts_dict :=
  match counts with
  | [] => [(k, 0 + 1)]
  | (k', v) :: counts' =>
      if String.eqb k k' then (k', v + 1) :: counts'
      else (k', v) :: dict_incr k counts'
  end.

(** The sort key [(-kv[1], kv[0])], compared as Python compares tuples:
    the larger count first, equal counts by the string order of the
    keys. *)
Definition item_le (a b : string * nat) : bool :=
  (snd b <? snd a)%nat || ((snd a =? snd b)%nat && String.leb (fst a) (fst b)).

(** [sorted], a stable sort, as insertion from the right. *)
Fixpoint insert_item (x : string * nat) (l : counts_dict) : counts_dict :=
  match l with
  | [] => [x]
  | y :: l' => if item_le x y then x :: l else y :: insert_item x l'
  end.

Fixpoint sorted_items (l : counts_dict) : counts_dict :=
  match l with
  | [] => []
  | x :: l' => insert_item x (sorted_items l')
  end.

(** The loop [for path in files: counts[ext] = counts.get(ext, 0) + 1]. *)
Definition count_extensions (files : list path) : counts_dict :=
  fold_left (fun counts path => dict_incr (ext_key path) counts) files [].

Definition summarize_extensions (files : list path) : counts_dict :=
  let counts := count_extensions files in
  sorted_items counts.

(** [counts.get(k, 0)] *)
Definition dict_total (k : string) (counts : counts_dict) : nat :=
  match dict_get k counts with Some v => v | None => 0 end.

(** Number of files whose extension key is [k]. *)
Definition files_with_key (k : string) (files : list path) : nat :=
  List.length (filter (fun p => String.eqb (ext_key p) k) files).

(* ================================================================== *)
(** ** [interactive.py]: the prompts *)

(** [c.isspace()] on the ASCII range. *)
Definition is_space (c : ascii) : bool :=
  let n := nat_of_ascii c in
  ((9 <=? n) && (n <=? 13) || (28 <=? n) && (n <=? 32))%nat.

Fixpoint lstrip_space (s : string) : string :=
  match s with
  | String c s' => if is_space c then lstrip_space s' else s
  | EmptyString => EmptyString
  end.

Fixpoint rstrip_space (s : string) : string :=
  match s with
  | EmptyString => EmptyString
  | String c s' =>
      let r := rstrip_space s' in
      if is_space c && (r =? "") then EmptyString else String c r
  end.

(** [s.strip()] *)
Definition strip (s : string) : string := rstrip_space (lstrip_space s).

(** What the terminal shows.  Colours and the layout of the banner, the
    rules and the table are left out; a line keeps the data it prints. *)
Inductive shown_line : Type :=
| Banner (default_root : path)
| SectionTitle (title : string)
| AskedYesNo (prompt suffix : string)
| AskedPath (prompt : string) (default : PurePath)
| AskedText (prompt default : string)
| PleaseAnswer
| Found (total : nat)
| SummaryTable (summary : counts_dict) (total : nat)
| MoreGroups (remaining : nat)
| NoneDetected.

(** The terminal: the lines still to be typed and the lines shown. *)
Record console : Type := Console { stdin : list string; shown : list shown_line }.

(** How a step at the terminal ends: with a value, with [EOFError] from
    [input], or with the [SystemExit] of a cancelled session. *)
Inductive outcome (A : Type) : Type :=
| Got (a : A)
| EOFError
| Cancelled.

Arguments Got {A} a.
Arguments EOFError {A}.
Arguments Cancelled {A}.

Definition IO (A : Type) : Type := console -> outcome A * console.

Definition io_ret {A} (a : A) : IO A := fun c => (Got a, c).

Definition io_bind {A B} (m : IO A) (k : A -> IO B) : IO B :=
  fun c =>
    match m c with
    | (Got a, c') => k a c'
    | (EOFError, c') => (EOFError, c')
    | (Cancelled, c') => (Cancelled, c')
    end.

Notation "x <~ m ;; k" := (io_bind m (fun x => k))
  (at level 61, m at next level, right associativity).
Notation "m ~;; k" := (io_bind m (fun _ => k))
  (at level 61, right associativity).

Definition show (l : shown_line) : IO unit :=
  fun c => (Got tt, Console (stdin c) (shown c ++ [l])).

(** [input(prompt)], the prompt being shown as [asked]. *)
Definition input (asked : shown_line) : IO string :=
  fun c =>
    match stdin c with
    | [] => (EOFError, Console [] (shown c ++ [asked]))
    | l :: rest => (Got l, Console rest (shown c ++ [asked]))
    end.

Definition yes_no_suffix (default : option bool) : string :=
  match default with
  | None => " [y/n]"
  | Some true => " [Y/n]"
  | Some false => " [y/N]"
  end.

(** The [while True] loop of [prompt_yes_no]; every round reads a line,
    so the lines still to be typed bound it. *)
Fixpoint prompt_yes_no_loop (prompt : string) (default : option bool)
  (lines : list string) (shown : list shown_line)
  : outcome bool * console :=
  let shown := shown ++ [AskedYesNo prompt (yes_no_suffix default)] in
  match lines with
  | [] => (EOFError, Console [] shown)
  | l :: rest =>
      let response := PyStr.lower (strip l) in
      match (response =? ""), default with
      | true, Some d => (Got d, Console rest shown)
      | _, _ =>
          if PyStr.mem response ["y"; "yes"] then (Got true, Console rest shown)
          else if PyStr.mem response ["n"; "no"]
          then (Got false, Console rest shown)
          else prompt_yes_no_loop prompt default rest (shown ++ [PleaseAnswer])
      end
  end.

Definition prompt_yes_no (prompt : string) (default : option bool) : IO bool :=
  fun c => prompt_yes_no_loop prompt default (stdin c) (shown c).

(** The answer one typed line gives, if any. *)
Definition answer_of (default : option bool) (l : string) : option bool :=
  let response := PyStr.lower (strip l) in
  if response =? "" then default
  else if PyStr.mem response ["y"; "yes"] then Some true
  else if PyStr.mem response ["n"; "no"] then Some false
  else None.

(** What is shown while [lines] are refused one after the other. *)
Definition refusals (prompt : string) (default : option bool)
  (lines : list string) : list shown_line :=
  flat_map
    (fun _ => [AskedYesNo prompt (yes_no_suffix default); PleaseAnswer]) lines.

(* ================================================================== *)
(** ** [interactive.py] and [cli.py]: the guided session and [main] *)

(** What the process gets from outside: its working directory and the
    way [pathlib] reads a string as a path ([Path(s)]). *)
Record process_env : Type := {
  cwd : path;
  Path_of_str : string -> PurePath
}.

(** [p / q] *)
Definition pure_join (p q : PurePath) : PurePath :=
  if is_absolute q then q
  else {| is_absolute := is_absolute p; parts := parts p ++ parts q |}.

(** The components of [p] below the file-system root, a relative path
    counting from the working directory. *)
Definition absolute (env : process_env) (p : PurePath) : path :=
  if is_absolute p then parts p else cwd env ++ parts p.

(** [p.resolve()] as a [Path] again. *)
Definition resolved (env : process_env) (p : PurePath) : PurePath :=
  {| is_absolute := true; parts := resolve (absolute env p) |}.

(** The [argparse.Namespace] that [parse_args] and [run_interactive]
    return. *)
Record Namespace : Type := {
  ns_root : PurePath;
  ns_dest_dir : string;
  ns_dry_run : bool;
  ns_include_dotfiles : bool;
  ns_include_code : bool;
  ns_interactive : bool
}.

Definition print_banner (env : process_env) (default_root : PurePath)
  : IO unit :=
  show (Banner (parts (resolved env default_root))).

Definition print_section (title : string) : IO unit :=
  show (SectionTitle title).

Definition prompt_path (env : process_env) (prompt : string)
  (default : PurePath) : IO PurePath :=
  line <~ input (AskedPath prompt default) ;;
  let raw_value := strip line in
  io_ret (if raw_value =? "" then default else Path_of_str env raw_value).

Definition prompt_text (prompt default : string) : IO string :=
  line <~ input (AskedText prompt default) ;;
  let raw_value := strip line in
  io_ret (if raw_value =? "" then default else raw_value).

(** [run_interactive]; it reads the tree [t] for the preview and changes
    nothing. *)
Definition run_interactive (env : process_env) (t : node)
  (default_root : PurePath) : IO Namespace :=
  print_banner env default_root ~;;
  print_section "Source & Destination" ~;;
  root <~ prompt_path env "Start directory" (resolved env default_root) ;;
  dest_dir <~ prompt_text
                "Destination folder ('.' keeps files beside their source root)"
                "." ;;
  print_section "Filters" ~;;
  include_dotfiles <~ prompt_yes_no "Include hidden files (dotfiles)?"
                        (Some false) ;;
  include_code <~ prompt_yes_no "Include code files (.py, .ipynb, etc.)?"
                    (Some false) ;;
  print_section "Preview" ~;;
  let dest_root_preview :=
    resolve (absolute env (pure_join root (Path_of_str env dest_dir))) in
  let files := iter_files t (absolute env root) dest_root_preview
                 include_dotfiles include_code None in
  let total := List.length files in
  show (Found total) ~;;
  (if (0 <? total)%nat
   then
     let summary := summarize_extensions files in
     let preview_slice := firstn 20 summary in
     show (SummaryTable preview_slice total) ~;;
     if (20 <? List.length summary)%nat
     then show (MoreGroups (List.length summary - 20))
     else io_ret tt
   else show NoneDetected) ~;;
  print_section "Safety Checks" ~;;
  dry_run <~ prompt_yes_no "Do a dry run first (no changes)?" (Some true) ;;
  proceed <~ prompt_yes_no "Proceed with the operation?"
               (Some (0 <? total)%nat) ;;
  if negb proceed then (fun c => (Cancelled, c))
  else
    io_ret {| ns_root := root;
              ns_dest_dir := dest_dir;
              ns_dry_run := dry_run;
              ns_include_dotfiles := include_dotfiles;
              ns_include_code := include_code;
              ns_interactive := true |}.

(** [build_config]; the root is kept in absolute form, the destination
    as [Path(dest_dir)]. *)
Definition build_config (env : process_env) (args : Namespace) : SortConfig :=
  {| root := absolute env (ns_root args);
     dest_dir := Path_of_str env (ns_dest_dir args);
     include_dotfiles := ns_include_dotfiles args;
     include_code := ns_include_code args;
     dry_run := ns_dry_run args;
     interactive := ns_interactive args |}.

(** How [main] ends. *)
Inductive main_outcome : Type :=
| Returned (code : nat)
| Raised (e : exn)
| InputEnded
| UserCancelled.

(** [main], from the arguments [parse_args] returned on: the terminal
    [c], the tree [t], nothing printed yet. *)
Definition main (env : process_env) (args : Namespace) (c : console)
  (t : node) : main_outcome * console * world :=
  let run (args : Namespace) (c : console) :=
    let config := build_config env args in
    match sort_files config (World t []) with
    | (Ok _, w) => (Returned 0, c, w)
    | (Raise e, w) => (Raised e, c, w)
    end in
  if ns_interactive args
  then
    match run_interactive env t (ns_root args) c with
    | (Got args', c') => run args' c'
    | (EOFError, c') => (InputEnded, c', World t [])
    | (Cancelled, c') => (UserCancelled, c', World t [])
    end
  else run args c.

(** A line that is empty once stripped: Enter, perhaps after blanks. *)
Definition blank (l : string) : bool := strip l =? "".

(** A line that says no, whatever the default. *)
Definition says_no (l : string) : bool :=
  PyStr.mem (PyStr.lower (strip l)) ["n"; "no"].

(** A sample process: working directory [/r], a string read as a
    relative path of one component, [.] as the empty one. *)
Module Ex2.

Definition env : process_env :=
  {| cwd := ["r"];
     Path_of_str := fun s =>
       {| is_absolute := false;
          parts := if s =? "." then [] else [s] |} |}.

Definition args_interactive : Namespace :=
  {| ns_root := {| is_absolute := true; parts := ["r"] |};
     ns_dest_dir := "sorted_by_extension";
     ns_dry_run := false;
     ns_include_dotfiles := false;
     ns_include_code := false;
     ns_interactive := true |}.

(** Enter, six times. *)
Definition enter_only : console := Console [""; ""; ""; ""; ""; ""] [].

(** All defaults but a live run, and then "no" to the last question. *)
Definition declined : console := Console [""; ""; ""; ""; "n"; " No "; "x"] [].

End Ex2.

(* ================================================================== *)
(** * Properties *)

(** ** Paths *)

Lemma path_eqb_spec (p q : path) : reflect (p = q) (path_eqb p q).
Proof.
  revert q; induction p as [|a p IH]; intros [|b q]; simpl;
    try (constructor; congruence).
  destruct (String.eqb_spec a b) as [->|Hab]; simpl.
  - destruct (IH q) as [->|Hpq]; constructor; congruence.
  - constructor; congruence.
Qed.

Lemma path_eqb_eq (p q : path) : path_eqb p q = true <-> p = q.
Proof. destruct (path_eqb_spec p q); split; congruence. Qed.

Lemma path_eqb_refl (p : path) : path_eqb p p = true.
Proof. now apply path_eqb_eq. Qed.

Lemma path_eqb_neq (p q : path) : path_eqb p q = false <-> p <> q.
Proof. destruct (path_eqb_spec p q); split; congruence. Qed.

Lemma path_name_join (p : path) (c : string) : path_name (p // c) = c.
Proof. unfold path_name, joinpath. apply last_last. Qed.

Lemma path_parent_join (p : path) (c : string) : path_parent (p // c) = p.
Proof. unfold path_parent, joinpath. apply removelast_last. Qed.

Lemma joinpath_inj (p q : path) (c d : string) :
  p // c = q // d -> p = q /\ c = d.
Proof. unfold joinpath. intros H. now apply app_inj_tail in H. Qed.

Lemma is_relative_to_path_spec (candidate other : path) :
  is_relative_to_path candidate other = true
  <-> exists rel, candidate = other ++ rel.
Proof.
  revert candidate; induction other as [|o other IH]; intros candidate; simpl.
  - split; [intros _; now exists candidate | reflexivity].
  - destruct candidate as [|c candidate].
    + split; [discriminate | intros [rel H]; discriminate].
    + rewrite andb_true_iff, IH. split.
      * intros [Hoc [rel ->]]. apply String.eqb_eq in Hoc as ->. now exists rel.
      * intros [rel H]. injection H as -> ->. split; [apply String.eqb_refl | eauto].
Qed.

Lemma is_relative_to_path_refl (p : path) : is_relative_to_path p p = true.
Proof. apply is_relative_to_path_spec. exists []. now rewrite app_nil_r. Qed.

Lemma is_relative_to_path_app (p rel : path) :
  is_relative_to_path (p ++ rel) p = true.
Proof. apply is_relative_to_path_spec. now exists rel. Qed.

Lemma is_relative_to_path_trans (p q r : path) :
  is_relative_to_path p q = true -> is_relative_to_path q r = true ->
  is_relative_to_path p r = true.
Proof.
  rewrite !is_relative_to_path_spec. intros [a ->] [b ->].
  exists (b ++ a). now rewrite app_assoc.
Qed.

Lemma is_relative_to_path_length (p q : path) :
  is_relative_to_path p q = true -> List.length q <= List.length p.
Proof.
  rewrite is_relative_to_path_spec. intros [rel ->]. rewrite length_app. lia.
Qed.

(** Lexical normalisation keeps a canonical path and always produces one. *)

Lemma resolve_app (p q : path) :
  resolve (p ++ q) = fold_left resolve_step q (resolve p).
Proof. unfold resolve. apply fold_left_app. Qed.

Lemma resolve_step_valid (acc : path) (c : string) :
  valid_name c = true -> resolve_step acc c = acc ++ [c].
Proof.
  unfold valid_name, resolve_step. rewrite !andb_true_iff, !negb_true_iff.
  intros [[H1 H2] H3]. now rewrite H1, H2, H3.
Qed.

Lemma canonical_app (p q : path) :
  canonical (p ++ q) = canonical p && canonical q.
Proof. unfold canonical. apply forallb_app. Qed.

Lemma canonical_join (p : path) (c : string) :
  canonical (p // c) = canonical p && valid_name c.
Proof.
  unfold joinpath. rewrite canonical_app. simpl. now rewrite andb_true_r.
Qed.

Lemma resolve_canonical (p : path) : canonical p = true -> resolve p = p.
Proof.
  induction p as [|c p IH] using rev_ind; [reflexivity|].
  rewrite canonical_app, andb_true_iff. simpl. rewrite andb_true_r.
  intros [Hp Hc]. rewrite resolve_app, IH by assumption. simpl.
  now apply resolve_step_valid.
Qed.

Lemma canonical_removelast (p : path) :
  canonical p = true -> canonical (removelast p) = true.
Proof.
  induction p as [|c p IH] using rev_ind; [reflexivity|].
  rewrite removelast_last, canonical_app, andb_true_iff. tauto.
Qed.

Lemma resolve_step_canonical (acc : path) (c : string) :
  canonical acc = true -> canonical (resolve_step acc c) = true.
Proof.
  intros Hacc. unfold resolve_step.
  destruct (c =? "") eqn:E1; [assumption|].
  destruct (c =? ".") eqn:E2; [assumption|]. simpl.
  destruct (c =? "..") eqn:E3; [now apply canonical_removelast|].
  rewrite canonical_app, Hacc. simpl. unfold valid_name.
  now rewrite E1, E2, E3.
Qed.

Lemma canonical_resolve (p : path) : canonical (resolve p) = true.
Proof.
  induction p as [|c p IH] using rev_ind; [reflexivity|].
  rewrite resolve_app. simpl. now apply resolve_step_canonical.
Qed.

Lemma resolve_idem (p : path) : resolve (resolve p) = resolve p.
Proof. apply resolve_canonical, canonical_resolve. Qed.

Lemma root_path_canonical (config : SortConfig) :
  canonical (root_path config) = true.
Proof. apply canonical_resolve. Qed.

Lemma destination_root_canonical (config : SortConfig) :
  canonical (destination_root config) = true.
Proof.
  unfold destination_root. destruct (is_absolute _); apply canonical_resolve.
Qed.

(** ** Extension keys *)

Lemma lstrip_dot_head (s : string) (c : ascii) (s' : string) :
  PyStr.lstrip_dot s = String c s' -> c <> "."%char.
Proof.
  induction s as [|a s IH]; simpl; [discriminate|].
  destruct (Ascii.eqb_spec a "."); [assumption|].
  intros H. injection H as -> _. assumption.
Qed.

Lemma valid_name_ext (nm : string) : valid_name (ext_of_name nm) = true.
Proof.
  unfold ext_of_name.
  destruct (PyStr.lstrip_dot (PyStr.lower (name_suffix nm))) as [|c s] eqn:E;
    [reflexivity|].
  apply lstrip_dot_head in E. simpl.
  unfold valid_name. simpl.
  destruct (Ascii.eqb_spec c "."); [contradiction|reflexivity].
Qed.

Lemma has_dot_rfind (s : string) :
  PyStr.has_dot s = false -> PyStr.rfind_dot s = None.
Proof.
  induction s as [|c s IH]; simpl; [reflexivity|].
  rewrite orb_false_iff. intros [Hc Hs]. now rewrite IH, Hc.
Qed.

Lemma dotfile_suffix (rest : string) :
  PyStr.has_dot rest = false -> name_suffix (String "." rest) = "".
Proof.
  intros H. unfold name_suffix. simpl. now rewrite (has_dot_rfind _ H).
Qed.

Lemma dotfile_ext (rest : string) :
  PyStr.has_dot rest = false -> ext_of_name (String "." rest) = "no_ext".
Proof. intros H. unfold ext_of_name. now rewrite (dotfile_suffix _ H). Qed.

(** ** Directory entries and lookups *)

Lemma assoc_set_entry (k k' : string) (v : node) (es : entries) :
  assoc k (set_entry k' v es)
  = if String.eqb k k'
    then match assoc k es with Some _ => Some v | None => None end
    else assoc k es.
Proof.
  induction es as [|[k0 v0] es IH]; simpl.
  - now destruct (String.eqb k k').
  - destruct (String.eqb_spec k' k0) as [->|Hk'0]; simpl.
    + destruct (String.eqb_spec k k0) as [->|Hk0]; [reflexivity|].
      reflexivity.
    + destruct (String.eqb_spec k k0) as [->|Hk0].
      * destruct (String.eqb_spec k0 k'); [congruence|reflexivity].
      * exact IH.
Qed.

Lemma assoc_app (k : string) (es es' : entries) :
  assoc k (es ++ es')
  = match assoc k es with Some v => Some v | None => assoc k es' end.
Proof.
  induction es as [|[k0 v0] es IH]; simpl; [reflexivity|].
  now destruct (String.eqb k k0).
Qed.

Lemma assoc_del_entry (k k' : string) (es : entries) :
  assoc k (del_entry k' es) = if String.eqb k' k then None else assoc k es.
Proof.
  unfold del_entry.
  induction es as [|[k0 v0] es IH]; simpl.
  - now destruct (String.eqb k' k).
  - destruct (String.eqb_spec k' k0) as [->|Hk'0]; simpl.
    + rewrite IH. destruct (String.eqb_spec k0 k) as [->|H0k].
      * reflexivity.
      * destruct (String.eqb_spec k k0); [congruence|reflexivity].
    + rewrite IH. destruct (String.eqb_spec k k0) as [->|Hk0].
      * destruct (String.eqb_spec k' k0); [congruence|reflexivity].
      * reflexivity.
Qed.

Lemma assoc_In (k : string) (v : node) (es : entries) :
  assoc k es = Some v -> In (k, v) es.
Proof.
  induction es as [|[k0 v0] es IH]; simpl; [discriminate|].
  destruct (String.eqb_spec k k0) as [->|Hk].
  - intros H. injection H as ->. now left.
  - intros H. right. now apply IH.
Qed.

Lemma assoc_None (k : string) (es : entries) :
  assoc k es = None <-> ~ In k (map fst es).
Proof.
  induction es as [|[k0 v0] es IH]; simpl; [tauto|].
  destruct (String.eqb_spec k k0) as [->|Hk].
  - split; [discriminate | intros H; exfalso; apply H; now left].
  - rewrite IH. split; [intros H [E|E]; congruence | tauto].
Qed.

Lemma lookup_app (t : node) (p q : path) :
  lookup t (p ++ q)
  = match lookup t p with Some n => lookup n q | None => None end.
Proof.
  revert t; induction p as [|c p IH]; intros t; simpl; [reflexivity|].
  destruct t as [|es]; [reflexivity|].
  destruct (assoc c es); [apply IH | reflexivity].
Qed.

Lemma kind_at_cons (c : string) (q : path) (es : entries) :
  kind_at (Dir es) (c :: q)
  = match assoc c es with Some child => kind_at child q | None => None end.
Proof. unfold kind_at. simpl. now destruct (assoc c es). Qed.

Lemma kind_at_file (c : content) (q : path) :
  kind_at (File c) q = match q with [] => Some (KFile c) | _ :: _ => None end.
Proof. now destruct q. Qed.

Lemma kind_at_file_prefix (t : node) (p rel : path) (c : content) :
  kind_at t p = Some (KFile c) -> rel <> [] -> kind_at t (p ++ rel) = None.
Proof.
  unfold kind_at. rewrite lookup_app.
  destruct (lookup t p) as [[c'|es]|]; simpl; try discriminate.
  intros _ H. now destruct rel.
Qed.

(** ** What the primitives change *)

Lemma kind_at_mk_dirs (p q : path) :
  kind_at (mk_dirs p) q = if is_relative_to_path p q then Some KDir else None.
Proof.
  revert p; induction q as [|c' q IH]; intros p.
  - now destruct p.
  - destruct p as [|c p]; simpl; [reflexivity|].
    rewrite kind_at_cons. simpl.
    destruct (String.eqb_spec c' c) as [->|Hc]; simpl; [apply IH | reflexivity].
Qed.

Lemma kind_at_mkdir_p (p : path) :
  forall (here : path) (t t' : node) (q : path),
    mkdir_p here p t = inr t' ->
    kind_at t' q = if is_relative_to_path p q then Some KDir else kind_at t q.
Proof.
  induction p as [|c p IH]; intros here t t' q H.
  - destruct t as [|es]; simpl in H; [discriminate|].
    injection H as <-. now destruct q.
  - destruct t as [|es]; simpl in H; [discriminate|].
    destruct (assoc c es) as [child|] eqn:Ec.
    + destruct (mkdir_p (here // c) p child) as [e|child'] eqn:Em;
        [discriminate|].
      injection H as <-.
      destruct q as [|c' q]; [reflexivity|].
      rewrite !kind_at_cons, assoc_set_entry. simpl.
      destruct (String.eqb_spec c' c) as [->|Hc]; simpl.
      * rewrite Ec. now apply IH with (here := here // c).
      * reflexivity.
    + injection H as <-.
      destruct q as [|c' q]; [reflexivity|].
      rewrite !kind_at_cons, assoc_app. simpl.
      destruct (String.eqb_spec c' c) as [->|Hc]; simpl.
      * rewrite Ec. apply kind_at_mk_dirs.
      * now destruct (assoc c' es).
Qed.

Lemma remove_last (c : string) (es : entries) :
  remove [c] (Dir es) = Dir (del_entry c es).
Proof. reflexivity. Qed.

Lemma remove_cons (c c2 : string) (p : path) (es : entries) :
  remove (c :: c2 :: p) (Dir es)
  = match assoc c es with
    | Some child => Dir (set_entry c (remove (c2 :: p) child) es)
    | None => Dir es
    end.
Proof. reflexivity. Qed.

Lemma is_relative_to_path_cons (c' c : string) (q p : path) :
  is_relative_to_path (c' :: q) (c :: p)
  = String.eqb c c' && is_relative_to_path q p.
Proof. reflexivity. Qed.

Lemma kind_at_remove (p : path) :
  forall (t : node) (q : path),
    p <> [] ->
    kind_at (remove p t) q
    = if is_relative_to_path q p then None else kind_at t q.
Proof.
  induction p as [|c p IH]; intros t q Hp; [congruence|].
  destruct t as [c0|es].
  - simpl. rewrite kind_at_file. destruct q as [|c' q]; [reflexivity|].
    simpl. now destruct (String.eqb c c' && is_relative_to_path q p).
  - destruct q as [|c' q].
    + simpl. now destruct p; [|destruct (assoc c es)].
    + rewrite is_relative_to_path_cons. destruct p as [|c2 p].
      * rewrite remove_last, !kind_at_cons, assoc_del_entry. simpl.
        destruct (String.eqb c c'); reflexivity.
      * rewrite remove_cons.
        destruct (assoc c es) as [child|] eqn:Ec.
        -- rewrite !kind_at_cons, assoc_set_entry.
           destruct (String.eqb_spec c' c) as [->|Hc].
           ++ rewrite Ec, String.eqb_refl. cbn [andb].
              apply IH. discriminate.
           ++ destruct (String.eqb_spec c c'); [congruence|reflexivity].
        -- rewrite !kind_at_cons.
           destruct (String.eqb_spec c c') as [->|Hc]; cbn [andb];
             [|reflexivity].
           rewrite Ec.
           now destruct (is_relative_to_path q (c2 :: p)).
Qed.

Lemma kind_at_graft_file (p : path) :
  forall (t t' : node) (c : content) (q : path),
    graft p (File c) t = Some t' ->
    kind_at t' q
    = if path_eqb q p then Some (KFile c)
      else if is_relative_to_path q p then None
      else kind_at t q.
Proof.
  induction p as [|k p IH]; intros t t' c q H.
  - simpl in H. injection H as <-. rewrite kind_at_file.
    now destruct q.
  - destruct t as [c0|es]; simpl in H; [discriminate|].
    destruct (assoc k es) as [child|] eqn:Ek.
    + destruct (graft p (File c) child) as [child'|] eqn:Eg; [|discriminate].
      injection H as <-.
      destruct q as [|k' q]; [reflexivity|].
      rewrite !kind_at_cons, assoc_set_entry. simpl.
      rewrite (String.eqb_sym k k').
      destruct (String.eqb_spec k' k) as [->|Hk]; simpl; [|reflexivity].
      rewrite Ek. now apply IH.
    + destruct p as [|k2 p]; [|discriminate].
      injection H as <-.
      destruct q as [|k' q]; [reflexivity|].
      rewrite !kind_at_cons, assoc_app. simpl.
      rewrite (String.eqb_sym k k').
      destruct (String.eqb_spec k' k) as [->|Hk]; simpl.
      * rewrite Ek, kind_at_file. now destruct q.
      * now destruct (assoc k' es).
Qed.

(** ** Numbered names are pairwise different *)

Lemma str_of_nat_inj (n m : nat) :
  PyStr.str_of_nat n = PyStr.str_of_nat m -> n = m.
Proof.
  unfold PyStr.str_of_nat. intros H.
  apply (f_equal NilEmpty.uint_of_string) in H.
  rewrite !NilEmpty.usu in H. injection H as H.
  apply (f_equal Nat.of_uint) in H.
  now rewrite !DecimalNat.Unsigned.of_to in H.
Qed.

Lemma append_length (a b : string) :
  String.length (a ++ b)%string = String.length a + String.length b.
Proof. induction a as [|c a IH]; simpl; [reflexivity | now rewrite IH]. Qed.

Lemma append_inv_head (a x y : string) :
  (a ++ x)%string = (a ++ y)%string -> x = y.
Proof.
  induction a as [|c a IH]; simpl; [trivial|].
  intros H. injection H as H. now apply IH.
Qed.

Lemma append_inv_tail (b x y : string) :
  (x ++ b)%string = (y ++ b)%string -> x = y.
Proof.
  revert y; induction x as [|c x IH]; intros [|d y] H; simpl in H.
  - reflexivity.
  - apply (f_equal String.length) in H. simpl in H.
    rewrite append_length in H. lia.
  - apply (f_equal String.length) in H. simpl in H.
    rewrite append_length in H. lia.
  - injection H as -> H. f_equal. now apply IH.
Qed.

Lemma bumped_name_inj (filename : string) (n m : nat) :
  bumped_name filename n = bumped_name filename m -> n = m.
Proof.
  unfold bumped_name. intros H.
  apply append_inv_head in H. apply (append_inv_head " (") in H.
  apply append_inv_tail in H. now apply str_of_nat_inj.
Qed.

Lemma NoDup_map_inj {A B} (f : A -> B) (l : list A) :
  (forall x y, f x = f y -> x = y) -> NoDup l -> NoDup (map f l).
Proof.
  intros Hinj. induction 1 as [|x l Hx Hl IH]; simpl; constructor; auto.
  rewrite in_map_iff. intros [y [Hy Hin]]. apply Hinj in Hy. congruence.
Qed.

(** ** [safe_destination] *)

Lemma path_exists_entry (t : node) (d : path) (nm : string) :
  path_exists t (d // nm) = true ->
  exists es, lookup t d = Some (Dir es) /\ In nm (map fst es).
Proof.
  unfold path_exists, kind_at, joinpath. rewrite lookup_app.
  destruct (lookup t d) as [[c|es]|]; simpl; try discriminate.
  destruct (assoc nm es) as [child|] eqn:E; [|discriminate].
  intros _. exists es. split; [reflexivity|].
  apply assoc_In in E. now apply (in_map fst) in E.
Qed.

(** The bucket cannot hold more numbered names than it has entries. *)
Lemma bucket_has_room (t : node) (d : path) (filename : string)
  (counter : nat) :
  ~ (forall m, counter <= m < counter + S (entry_count t d) ->
               path_exists t (d // bumped_name filename m) = true).
Proof.
  intros Hall.
  assert (H0 : path_exists t (d // bumped_name filename counter) = true)
    by (apply Hall; lia).
  destruct (path_exists_entry _ _ _ H0) as [es [Hd _]].
  unfold entry_count in Hall. rewrite Hd in Hall.
  set (names := map (bumped_name filename) (seq counter (S (List.length es)))).
  assert (Hnd : NoDup names).
  { apply NoDup_map_inj; [apply bumped_name_inj | apply seq_NoDup]. }
  assert (Hincl : incl names (map fst es)).
  { intros nm Hin. apply in_map_iff in Hin as [m [<- Hm]].
    apply in_seq in Hm.
    destruct (path_exists_entry t d (bumped_name filename m)) as [es' [Hd' Hin]];
      [apply Hall; lia|].
    congruence. }
  pose proof (NoDup_incl_length Hnd Hincl) as Hlen.
  unfold names in Hlen. rewrite !length_map, length_seq in Hlen. lia.
Qed.

Lemma bump_loop_some (t : node) (d : path) (filename : string) (fuel : nat) :
  forall (counter : nat) (p : path),
    bump_loop t d filename fuel counter = Some p ->
    exists n, counter <= n < counter + fuel
              /\ p = d // bumped_name filename n
              /\ path_exists t p = false
              /\ forall m, counter <= m < n ->
                           path_exists t (d // bumped_name filename m) = true.
Proof.
  induction fuel as [|fuel IH]; intros counter p H; simpl in H; [discriminate|].
  destruct (path_exists t (d // bumped_name filename counter)) eqn:E;
    simpl in H.
  - apply IH in H as [n [Hn [-> [Hfree Hbelow]]]].
    exists n. split; [lia|]. split; [reflexivity|]. split; [assumption|].
    intros m Hm. destruct (Nat.eq_dec m counter) as [->|Hne]; [assumption|].
    apply Hbelow. lia.
  - injection H as <-. exists counter.
    split; [lia|]. split; [reflexivity|]. split; [assumption|].
    intros m Hm. lia.
Qed.

Lemma bump_loop_none (t : node) (d : path) (filename : string) (fuel : nat) :
  forall (counter : nat),
    bump_loop t d filename fuel counter = None ->
    forall m, counter <= m < counter + fuel ->
              path_exists t (d // bumped_name filename m) = true.
Proof.
  induction fuel as [|fuel IH]; intros counter H m Hm; [lia|].
  simpl in H.
  destruct (path_exists t (d // bumped_name filename counter)) eqn:E;
    simpl in H; [|discriminate].
  destruct (Nat.eq_dec m counter) as [->|Hne]; [assumption|].
  apply (IH (S counter)); [assumption | lia].
Qed.

Lemma safe_destination_total (t : node) (dest_dir : path) (filename : string) :
  exists p, safe_destination t dest_dir filename = Some p.
Proof.
  unfold safe_destination.
  destruct (path_exists t (dest_dir // filename)); cbn [negb]; [|eauto].
  destruct (bump_loop t dest_dir filename (S (entry_count t dest_dir)) 1)
    as [p|] eqn:E; [eauto|].
  exfalso. apply (bucket_has_room t dest_dir filename 1).
  now apply bump_loop_none.
Qed.

Lemma safe_destination_first_free (t : node) (dest_dir : path)
  (filename : string) (p : path) :
  safe_destination t dest_dir filename = Some p ->
  is_first_free t dest_dir filename p.
Proof.
  unfold safe_destination, is_first_free.
  destruct (path_exists t (dest_dir // filename)) eqn:E; cbn [negb].
  - intros H. apply bump_loop_some in H as [n [Hn [-> [Hfree Hbelow]]]].
    split; [assumption|]. right. split; [reflexivity|].
    exists n. split; [lia|]. split; [reflexivity | assumption].
  - intros H. injection H as <-. split; [assumption|]. now left.
Qed.

Lemma is_first_free_unique (t : node) (dest_dir : path) (filename : string)
  (p q : path) :
  is_first_free t dest_dir filename p ->
  is_first_free t dest_dir filename q -> p = q.
Proof.
  intros [Hp [[Ep ->]|[Ep [n [Hn [-> Hbn]]]]]] [Hq [[Eq ->]|[Eq [m [Hm [-> Hbm]]]]]];
    try congruence.
  destruct (Nat.lt_trichotomy n m) as [Hlt|[->|Hgt]]; [|reflexivity|].
  - rewrite Hbm in Hp by lia. discriminate.
  - rewrite Hbn in Hq by lia. discriminate.
Qed.

(** Only the names present in the bucket matter. *)
Lemma is_first_free_ext (t t' : node) (dest_dir : path) (filename : string)
  (p : path) :
  (forall nm, path_exists t' (dest_dir // nm) = path_exists t (dest_dir // nm)) ->
  is_first_free t dest_dir filename p -> is_first_free t' dest_dir filename p.
Proof.
  intros Hsame [Hp Hcases]. unfold is_first_free.
  destruct Hcases as [[E ->]|[E [n [Hn [-> Hb]]]]].
  - rewrite Hsame. split; [assumption|]. now left.
  - rewrite !Hsame. split; [assumption|]. right. split; [assumption|].
    exists n. split; [assumption|]. split; [reflexivity|].
    intros m Hm. rewrite Hsame. now apply Hb.
Qed.

Lemma safe_destination_ext (t t' : node) (dest_dir : path) (filename : string) :
  (forall nm, path_exists t' (dest_dir // nm) = path_exists t (dest_dir // nm)) ->
  safe_destination t' dest_dir filename = safe_destination t dest_dir filename.
Proof.
  intros Hsame.
  destruct (safe_destination_total t dest_dir filename) as [p Hp].
  destruct (safe_destination_total t' dest_dir filename) as [q Hq].
  rewrite Hp, Hq. f_equal.
  apply (is_first_free_unique t dest_dir filename).
  - apply is_first_free_ext with (t := t').
    + intros nm. symmetry. apply Hsame.
    + now apply safe_destination_first_free.
  - now apply safe_destination_first_free.
Qed.

(** ** One step of the planner *)

Lemma kind_at_prefix_exists (t : node) (p rel : path) :
  kind_at t (p ++ rel) <> None -> kind_at t p <> None.
Proof.
  unfold kind_at. rewrite lookup_app. now destruct (lookup t p).
Qed.

Lemma path_exists_false (t : node) (p : path) :
  path_exists t p = false <-> kind_at t p = None.
Proof. unfold path_exists. destruct (kind_at t p); split; congruence. Qed.

Lemma path_is_file_true (t : node) (p : path) :
  path_is_file t p = true <-> exists c, kind_at t p = Some (KFile c).
Proof.
  unfold path_is_file. destruct (kind_at t p) as [[c|]|]; split;
    try congruence; eauto; intros [c H]; congruence.
Qed.

Lemma lookup_file (t : node) (p : path) (c : content) :
  kind_at t p = Some (KFile c) <-> lookup t p = Some (File c).
Proof.
  unfold kind_at. destruct (lookup t p) as [[c'|es]|]; simpl; split; congruence.
Qed.

(** [shutil.move] to a path that does not exist is a plain rename. *)
Lemma shutil_move_fresh (src dst : path) (w : world) :
  path_exists (tree w) dst = false ->
  shutil_move src dst w
  = match lookup (tree w) src with
    | None => (Raise (FileNotFoundError src), w)
    | Some n =>
        if node_is_dir n && is_relative_to_path dst src
        then (Raise (ShutilError dst), w)
        else
          match graft dst n (remove src (tree w)) with
          | Some t' => (Ok dst, World t' (out w))
          | None => (Raise (FileNotFoundError dst), w)
          end
    end.
Proof.
  intros Hfree. unfold shutil_move.
  assert (Hd : path_is_dir (tree w) dst = false).
  { apply path_exists_false in Hfree. unfold path_is_dir. now rewrite Hfree. }
  rewrite Hd, Hfree. cbn [andb].
  destruct (lookup (tree w) src) as [n|]; [|reflexivity].
  now rewrite andb_false_r.
Qed.

Lemma move_file_unfold (src dest_root : path) (dry : bool) (w : world) :
  move_file src dest_root dry w
  = let dest_dir := dest_root // ext_key src in
    match mkdir_p [] dest_dir (tree w) with
    | inl e => (Raise e, w)
    | inr t1 =>
        if path_eqb (resolve (path_parent src)) (resolve dest_dir)
        then (Ok src, World t1 (out w ++ [Skipping src]))
        else
          match safe_destination t1 dest_dir (path_name src) with
          | None => (Raise LoopFuelExhausted, World t1 (out w))
          | Some dest =>
              if dry then (Ok dest, World t1 (out w ++ [DryRun src dest]))
              else
                match shutil_move src dest
                        (World t1 (out w ++ [Moving src dest])) with
                | (Ok _, w2) => (Ok dest, w2)
                | (Raise e, w2) => (Raise e, w2)
                end
          end
    end.
Proof.
  unfold move_file, bind, mkdir_parents_exist_ok, gets, print, ret, raise.
  cbv zeta.
  destruct (mkdir_p [] (dest_root // ext_key src) (tree w)) as [e|t1];
    [reflexivity|].
  destruct (path_eqb _ _); [reflexivity|]. cbn [tree out].
  destruct (safe_destination t1 _ _) as [dest|]; [|reflexivity].
  destruct dry; [reflexivity|]. cbn [tree out].
  now destruct (shutil_move src dest _) as [[d|e] w2].
Qed.

Lemma move_all_nil (dest_root : path) (dry : bool) (w : world) :
  move_all [] dest_root dry w = (Ok tt, w).
Proof. reflexivity. Qed.

Lemma move_all_cons (p : path) (files : list path) (dest_root : path)
  (dry : bool) (w : world) :
  move_all (p :: files) dest_root dry w
  = match move_file p dest_root dry w with
    | (Ok _, w1) => move_all files dest_root dry w1
    | (Raise e, w1) => (Raise e, w1)
    end.
Proof.
  unfold move_all. simpl. unfold bind, ret.
  now destruct (move_file p dest_root dry w) as [[d|e] w1].
Qed.

Lemma sort_files_unfold (config : SortConfig) (w : world) :
  sort_files config w
  = let root := root_path config in
    let dest_root := destination_root config in
    if negb (path_exists (tree w) root) || negb (path_is_dir (tree w) root)
    then (Raise (SystemExit root), w)
    else
      match mkdir_p [] dest_root (tree w) with
      | inl e => (Raise e, w)
      | inr t1 =>
          let files := iter_files t1 root dest_root (include_dotfiles config)
                         (include_code config) None in
          match files with
          | [] => (Ok [], World t1 (out w ++ [NoFiles]))
          | _ :: _ =>
              let w2 :=
                World t1
                  (out w ++
                   if negb (dry_run config) && negb (interactive config)
                   then [AboutToMove (List.length files)] else []) in
              match move_all files dest_root (dry_run config) w2 with
              | (Ok _, w3) =>
                  (Ok files,
                   World (tree w3)
                     (out w3 ++ [Done (dry_run config);
                                 DestinationIs dest_root]))
              | (Raise e, w3) => (Raise e, w3)
              end
          end
      end.
Proof.
  unfold sort_files, bind, gets, raise, mkdir_parents_exist_ok. cbv zeta.
  destruct (negb _ || negb _); [reflexivity|].
  destruct (mkdir_p [] (destination_root config) (tree w)) as [e|t1];
    [reflexivity|]. cbn [tree out].
  destruct (iter_files t1 _ _ _ _ None) as [|p files] eqn:Ef; [reflexivity|].
  assert (Hw2 : (if negb (dry_run config) && negb (interactive config)
                 then print (AboutToMove (List.length (p :: files)))
                 else ret tt) (World t1 (out w))
                = (Ok tt,
                   World t1
                     (out w ++
                      if negb (dry_run config) && negb (interactive config)
                      then [AboutToMove (List.length (p :: files))] else []))).
  { destruct (negb _ && negb _); unfold print, ret; cbn [tree out];
      [reflexivity | now rewrite app_nil_r]. }
  rewrite Hw2.
  destruct (move_all (p :: files) _ _ _) as [[u|e] w3]; [|reflexivity].
  unfold print, ret. cbn [tree out]. now rewrite <- app_assoc.
Qed.

Lemma mkdir_p_keeps (p : path) :
  forall (here : path) (t t' : node) (q : path),
    mkdir_p here p t = inr t' ->
    kind_at t q <> None -> kind_at t' q = kind_at t q.
Proof.
  induction p as [|c p IH]; intros here t t' q H Hq.
  - destruct t as [|es]; simpl in H; [discriminate|]. now injection H as <-.
  - destruct t as [|es]; simpl in H; [discriminate|].
    destruct (assoc c es) as [child|] eqn:Ec.
    + destruct (mkdir_p (here // c) p child) as [e|child'] eqn:Em;
        [discriminate|].
      injection H as <-.
      destruct q as [|c' q]; [reflexivity|].
      rewrite !kind_at_cons, assoc_set_entry in *.
      destruct (String.eqb_spec c' c) as [->|Hc]; [|reflexivity].
      rewrite Ec in *. now apply IH with (here := here // c).
    + injection H as <-.
      destruct q as [|c' q]; [reflexivity|].
      rewrite !kind_at_cons, assoc_app in *.
      destruct (assoc c' es); [reflexivity | contradiction].
Qed.

Lemma mkdir_p_keeps_file (here p : path) (t t' : node) (q : path)
  (c : content) :
  mkdir_p here p t = inr t' ->
  kind_at t q = Some (KFile c) -> kind_at t' q = Some (KFile c).
Proof.
  intros H Hq. rewrite (mkdir_p_keeps _ _ _ _ _ H); [assumption | congruence].
Qed.

Lemma mkdir_p_makes_dir (here p : path) (t t' : node) :
  mkdir_p here p t = inr t' -> kind_at t' p = Some KDir.
Proof.
  intros H. rewrite (kind_at_mkdir_p _ _ _ _ p H).
  now rewrite is_relative_to_path_refl.
Qed.

(** A path that is absent after [mkdir_p] was absent before. *)
Lemma mkdir_p_absent (here p : path) (t t' : node) (q : path) :
  mkdir_p here p t = inr t' -> kind_at t' q = None -> kind_at t q = None.
Proof.
  intros H Hq. rewrite (kind_at_mkdir_p _ _ _ _ q H) in Hq.
  now destruct (is_relative_to_path p q).
Qed.

Lemma safe_destination_in_bucket (t : node) (dest_dir : path)
  (filename : string) (p : path) :
  safe_destination t dest_dir filename = Some p ->
  kind_at t p = None /\ exists nm, p = dest_dir // nm.
Proof.
  intros H. apply safe_destination_first_free in H as [Hfree Hcases].
  split; [now apply path_exists_false|].
  destruct Hcases as [[_ ->]|[_ [n [_ [-> _]]]]]; eauto.
Qed.

(** The file system after [os.rename] of a regular file to a free path. *)
Lemma kind_at_rename_file (t t' : node) (src dst : path) (c : content)
  (q : path) :
  kind_at t src = Some (KFile c) ->
  kind_at t dst = None ->
  graft dst (File c) (remove src t) = Some t' ->
  kind_at t' q
  = if path_eqb q dst then Some (KFile c)
    else if path_eqb q src then None
    else kind_at t q.
Proof.
  intros Hsrc Hdst Hg.
  assert (Hne : src <> []).
  { intros ->. destruct t as [c0|es]; [|discriminate].
    destruct dst; [discriminate | discriminate]. }
  rewrite (kind_at_graft_file _ _ _ _ q Hg).
  destruct (path_eqb_spec q dst) as [->|Hqd]; [reflexivity|].
  rewrite kind_at_remove by assumption.
  destruct (is_relative_to_path q dst) eqn:Erd.
  - apply is_relative_to_path_spec in Erd as [rel ->].
    destruct (path_eqb_spec (dst ++ rel) src) as [E|E]; [reflexivity|].
    destruct (kind_at t (dst ++ rel)) eqn:Ek; [|reflexivity].
    exfalso. apply (kind_at_prefix_exists t dst rel); congruence.
  - destruct (path_eqb_spec q src) as [->|Hqs].
    + now rewrite is_relative_to_path_refl.
    + destruct (is_relative_to_path q src) eqn:Ers; [|reflexivity].
      apply is_relative_to_path_spec in Ers as [rel ->].
      symmetry. apply kind_at_file_prefix with (c := c); [assumption|].
      intros ->. now rewrite app_nil_r in Hqs.
Qed.

(** Whatever [move_file] does to a path that is not a directory, every
    other regular file stays where it is. *)
Lemma move_file_frame (src dest_root : path) (dry : bool) (w w' : world)
  (r : result path) :
  kind_at (tree w) src <> Some KDir ->
  move_file src dest_root dry w = (r, w') ->
  forall q c, kind_at (tree w) q = Some (KFile c) -> q <> src ->
              kind_at (tree w') q = Some (KFile c).
Proof.
  intros Hsrc H q c Hq Hne. rewrite move_file_unfold in H. cbv zeta in H.
  destruct (mkdir_p [] (dest_root // ext_key src) (tree w)) as [e|t1] eqn:Em.
  { now injection H as _ <-. }
  pose proof (mkdir_p_keeps_file _ _ _ _ _ _ Em Hq) as Hq1.
  destruct (path_eqb _ _); [now injection H as _ <-|].
  destruct (safe_destination t1 _ _) as [dest|] eqn:Es;
    [|now injection H as _ <-].
  destruct dry; [now injection H as _ <-|].
  apply safe_destination_in_bucket in Es as [Hfree [nm ->]].
  rewrite shutil_move_fresh in H by now apply path_exists_false.
  cbn [tree out] in H.
  destruct (lookup t1 src) as [n|] eqn:El; [|now injection H as _ <-].
  destruct n as [c0|es]; cbn [node_is_dir andb] in H.
  - destruct (graft _ _ _) as [t2|] eqn:Eg; [|now injection H as _ <-].
    injection H as _ <-. cbn [tree].
    rewrite (kind_at_rename_file t1 t2 src (dest_root // ext_key src // nm)
               c0 q); try assumption.
    + destruct (path_eqb_spec q (dest_root // ext_key src // nm)) as [->|_];
        [congruence|].
      destruct (path_eqb_spec q src); [contradiction | assumption].
    + now apply lookup_file.
  - assert (Hrel : is_relative_to_path (dest_root // ext_key src) src = true).
    { pose proof (kind_at_mkdir_p _ _ _ _ src Em) as Hk.
      destruct (is_relative_to_path (dest_root // ext_key src) src);
        [reflexivity|].
      exfalso. apply Hsrc. rewrite <- Hk. unfold kind_at. now rewrite El. }
    assert (Hrel' : is_relative_to_path (dest_root // ext_key src // nm) src
                    = true).
    { eapply is_relative_to_path_trans; [|exact Hrel].
      apply is_relative_to_path_app. }
    rewrite Hrel' in H. now injection H as _ <-.
Qed.


Lemma mkdir_p_exn (p : path) :
  forall (here : path) (t : node) (e : exn),
    mkdir_p here p t = inl e ->
    exists q, e = FileExistsError q \/ e = NotADirectoryError q.
Proof.
  induction p as [|c p IH]; intros here t e H.
  - destruct t as [c0|es]; simpl in H; [|discriminate].
    injection H as <-. eauto.
  - destruct t as [c0|es]; simpl in H; [injection H as <-; eauto|].
    destruct (assoc c es) as [child|]; [|discriminate].
    destruct (mkdir_p (here // c) p child) as [e'|child'] eqn:Em;
      [|discriminate].
    injection H as <-. now apply (IH (here // c) child).
Qed.

(** The bound on the loop of [safe_destination] is never reached. *)
Lemma move_file_loop_ends (src dest_root : path) (dry : bool) (w : world) :
  fst (move_file src dest_root dry w) <> Raise LoopFuelExhausted.
Proof.
  rewrite move_file_unfold. cbv zeta.
  destruct (mkdir_p [] (dest_root // ext_key src) (tree w)) as [e|t1] eqn:Em.
  { apply mkdir_p_exn in Em as [q [-> | ->]]; discriminate. }
  destruct (path_eqb _ _); [discriminate|].
  destruct (safe_destination_total t1 (dest_root // ext_key src)
              (path_name src)) as [dest Es].
  rewrite Es. destruct dry; [discriminate|].
  apply safe_destination_in_bucket in Es as [Hfree _].
  rewrite shutil_move_fresh by now apply path_exists_false.
  cbn [tree out].
  destruct (lookup t1 src) as [n|]; [|discriminate].
  destruct (node_is_dir n && is_relative_to_path dest src); [discriminate|].
  destruct (graft dest n (remove src t1)); discriminate.
Qed.

(** ** What gets printed *)

Lemma shutil_move_out (src dst : path) (w w' : world) (r : result path) :
  shutil_move src dst w = (r, w') -> out w' = out w.
Proof.
  unfold shutil_move.
  destruct (path_is_dir (tree w) dst && _); [now intros [= _ <-]|].
  destruct (lookup (tree w) src) as [n|]; [|now intros [= _ <-]].
  destruct (node_is_dir n && is_relative_to_path _ src);
    [now intros [= _ <-]|].
  destruct (node_is_dir n && path_exists _ _); [now intros [= _ <-]|].
  destruct (graft _ n _); now intros [= _ <-].
Qed.

Lemma move_file_lines (src dest_root : path) (dry : bool) (w w' : world)
  (r : result path) :
  move_file src dest_root dry w = (r, w') ->
  exists lines,
    out w' = out w ++ lines
    /\ forall l, In l lines ->
         l = Skipping src
         \/ exists d, l = (if dry then DryRun src d else Moving src d)
              /\ exists t1,
                   mkdir_p [] (dest_root // ext_key src) (tree w) = inr t1
                   /\ safe_destination t1 (dest_root // ext_key src)
                        (path_name src) = Some d.
Proof.
  intros H. rewrite move_file_unfold in H. cbv zeta in H.
  destruct (mkdir_p [] (dest_root // ext_key src) (tree w)) as [e|t1] eqn:Em.
  { injection H as _ <-. exists []. rewrite app_nil_r. now split. }
  destruct (path_eqb _ _).
  { injection H as _ <-. exists [Skipping src]. split; [reflexivity|].
    intros l [<-|[]]. now left. }
  destruct (safe_destination t1 _ _) as [dest|] eqn:Es.
  2:{ injection H as _ <-. exists []. cbn [out]. rewrite app_nil_r. now split. }
  assert (Hline : forall l, In l [if dry then DryRun src dest
                                   else Moving src dest] ->
            l = Skipping src
            \/ exists d, l = (if dry then DryRun src d else Moving src d)
                 /\ exists t2,
                      @inr exn node t1 = inr t2
                      /\ safe_destination t2 (dest_root // ext_key src)
                           (path_name src) = Some d).
  { intros l [<-|[]]. right. exists dest. split; [reflexivity|]. eauto. }
  destruct dry.
  { injection H as _ <-. eexists. split; [reflexivity | exact Hline]. }
  destruct (shutil_move src dest _) as [[d|e] w2] eqn:Emv;
    apply shutil_move_out in Emv; injection H as _ <-; rewrite Emv;
    eexists; (split; [reflexivity | exact Hline]).
Qed.

Lemma move_all_lines (files : list path) (dest_root : path) (dry : bool) :
  forall (w w' : world) (r : result unit),
    move_all files dest_root dry w = (r, w') ->
    exists lines,
      out w' = out w ++ lines
      /\ forall l, In l lines ->
           exists src, In src files
             /\ (l = Skipping src
                 \/ exists d, l = if dry then DryRun src d else Moving src d).
Proof.
  induction files as [|p files IH]; intros w w' r H.
  - rewrite move_all_nil in H. injection H as _ <-.
    exists []. rewrite app_nil_r. now split.
  - rewrite move_all_cons in H.
    destruct (move_file p dest_root dry w) as [[d|e] w1] eqn:Ep.
    + apply move_file_lines in Ep as [l1 [E1 H1]].
      apply IH in H as [l2 [E2 H2]].
      exists (l1 ++ l2). rewrite E2, E1, app_assoc. split; [reflexivity|].
      intros l Hl. apply in_app_or in Hl as [Hl|Hl].
      * exists p. split; [now left|].
        destruct (H1 l Hl) as [->|[d' [-> _]]]; eauto.
      * destruct (H2 l Hl) as [src [Hin Hsrc]]. exists src. split; [now right|].
        assumption.
    + injection H as _ <-. apply move_file_lines in Ep as [l1 [E1 H1]].
      exists l1. split; [assumption|]. intros l Hl. exists p. split; [now left|].
      destruct (H1 l Hl) as [->|[d' [-> _]]]; eauto.
Qed.

(** ** The loop over the candidates *)

Lemma move_all_frame (files : list path) (dest_root : path) (dry : bool) :
  forall (w w' : world) (r : result unit),
    NoDup files ->
    (forall p, In p files -> path_is_file (tree w) p = true) ->
    move_all files dest_root dry w = (r, w') ->
    forall q c, kind_at (tree w) q = Some (KFile c) -> ~ In q files ->
                kind_at (tree w') q = Some (KFile c).
Proof.
  induction files as [|p files IH]; intros w w' r Hnd Hfiles H q c Hq Hnotin.
  - rewrite move_all_nil in H. now injection H as _ <-.
  - rewrite move_all_cons in H. inversion Hnd as [|? ? Hp Hnd']; subst.
    assert (Hpfile : kind_at (tree w) p <> Some KDir).
    { destruct (proj1 (path_is_file_true _ _) (Hfiles p (or_introl eq_refl)))
        as [cp Hcp]. congruence. }
    destruct (move_file p dest_root dry w) as [[d|e] w1] eqn:Ep.
    + apply (IH w1 w' r); try assumption.
      * intros p' Hp'. apply path_is_file_true.
        destruct (proj1 (path_is_file_true _ _) (Hfiles p' (or_intror Hp')))
          as [c' Hc'].
        exists c'. apply (move_file_frame _ _ _ _ _ _ Hpfile Ep); [assumption|].
        intros ->. contradiction.
      * apply (move_file_frame _ _ _ _ _ _ Hpfile Ep); [assumption|].
        intros ->. apply Hnotin. now left.
      * intros Hin. apply Hnotin. now right.
    + injection H as _ <-.
      apply (move_file_frame _ _ _ _ _ _ Hpfile Ep); [assumption|].
      intros ->. apply Hnotin. now left.
Qed.



(** ** Well-formed trees *)

Lemma node_ind' (P : node -> Prop) :
  (forall c, P (File c)) ->
  (forall es, Forall (fun e => P (snd e)) es -> P (Dir es)) ->
  forall n, P n.
Proof.
  intros HF HD. fix IH 1. intros [c|es]; [apply HF|]. apply HD.
  induction es as [|[k v] es IHes]; constructor; [apply IH | exact IHes].
Qed.

Lemma mem_In (x : string) (l : list string) :
  PyStr.mem x l = true <-> In x l.
Proof.
  unfold PyStr.mem. rewrite existsb_exists. split.
  - intros [y [Hin Hy]]. apply String.eqb_eq in Hy. now subst.
  - intros H. exists x. split; [assumption | apply String.eqb_refl].
Qed.

Lemma nodupb_NoDup (l : list string) : nodupb l = true <-> NoDup l.
Proof.
  induction l as [|x l IH]; simpl.
  - split; [constructor | reflexivity].
  - rewrite andb_true_iff, negb_true_iff, IH. split.
    + intros [Hx Hl]. constructor; [|assumption].
      rewrite <- mem_In. congruence.
    + intros H. inversion H as [|? ? Hx Hl]; subst. split; [|assumption].
      rewrite <- mem_In in Hx. now destruct (PyStr.mem x l).
Qed.

Lemma wf_Dir (es : entries) :
  wf (Dir es) = true
  <-> NoDup (map fst es)
      /\ (forall k v, In (k, v) es -> valid_name k = true /\ wf v = true).
Proof.
  simpl. rewrite !andb_true_iff, nodupb_NoDup, !forallb_forall. split.
  - intros [[Hnd Hval] Hwf]. split; [assumption|]. intros k v Hin. split.
    + apply Hval. now apply (in_map fst) in Hin.
    + now apply (Hwf (k, v)).
  - intros [Hnd H]. repeat split; [assumption | |].
    + intros k Hk. apply in_map_iff in Hk as [[k' v] [<- Hin]].
      now apply (H k' v).
    + intros [k v] Hin. now apply (H k v).
Qed.

Lemma In_assoc (k : string) (v : node) (es : entries) :
  NoDup (map fst es) -> In (k, v) es -> assoc k es = Some v.
Proof.
  induction es as [|[k0 v0] es IH]; simpl; [contradiction|].
  intros Hnd [E|Hin]; inversion Hnd as [|? ? Hk0 Hnd']; subst.
  - injection E as -> ->. now rewrite String.eqb_refl.
  - destruct (String.eqb_spec k k0) as [->|Hne]; [|now apply IH].
    exfalso. apply Hk0. now apply (in_map fst) in Hin.
Qed.

Lemma wf_lookup (p : path) :
  forall (t n : node),
    wf t = true -> lookup t p = Some n -> wf n = true /\ canonical p = true.
Proof.
  induction p as [|c p IH]; intros t n Hwf H; simpl in H.
  - injection H as <-. now split.
  - destruct t as [|es]; [discriminate|].
    destruct (assoc c es) as [child|] eqn:Ec; [|discriminate].
    apply wf_Dir in Hwf as [_ Hes].
    destruct (Hes c child (assoc_In _ _ _ Ec)) as [Hc Hchild].
    destruct (IH child n Hchild H) as [Hn Hp]. split; [assumption|].
    simpl. now rewrite Hc, Hp.
Qed.

Lemma map_fst_set_entry (k : string) (v : node) (es : entries) :
  map fst (set_entry k v es) = map fst es.
Proof.
  induction es as [|[k0 v0] es IH]; simpl; [reflexivity|].
  destruct (String.eqb k k0); simpl; [reflexivity | now rewrite IH].
Qed.

Lemma In_set_entry (k : string) (v : node) (es : entries) (k' : string)
  (v' : node) :
  In (k', v') (set_entry k v es) -> In (k', v') es \/ (k' = k /\ v' = v).
Proof.
  induction es as [|[k0 v0] es IH]; simpl; [tauto|].
  destruct (String.eqb_spec k k0) as [->|Hne]; simpl.
  - intros [E|Hin]; [injection E as <- <-; now right | left; now right].
  - intros [E|Hin]; [left; now left|].
    destruct (IH Hin) as [H|H]; [left; now right | now right].
Qed.

Lemma wf_mk_dirs (p : path) : canonical p = true -> wf (mk_dirs p) = true.
Proof.
  induction p as [|c p IH]; [reflexivity|].
  simpl. rewrite andb_true_iff. intros [Hc Hp]. now rewrite Hc, IH.
Qed.

Lemma wf_mkdir_p (p : path) :
  forall (here : path) (t t' : node),
    wf t = true -> canonical p = true ->
    mkdir_p here p t = inr t' -> wf t' = true.
Proof.
  induction p as [|c p IH]; intros here t t' Hwf Hcan H.
  - destruct t as [|es]; simpl in H; [discriminate|]. now injection H as <-.
  - destruct t as [|es]; simpl in H; [discriminate|].
    simpl in Hcan. apply andb_true_iff in Hcan as [Hc Hp].
    pose proof (proj1 (wf_Dir es) Hwf) as [Hnd Hes].
    destruct (assoc c es) as [child|] eqn:Ec.
    + destruct (mkdir_p (here // c) p child) as [e|child'] eqn:Em;
        [discriminate|].
      injection H as <-. apply wf_Dir. rewrite map_fst_set_entry.
      split; [assumption|]. intros k v Hin.
      apply In_set_entry in Hin as [Hin|[-> ->]]; [now apply Hes|].
      split; [assumption|].
      apply (IH (here // c) child); try assumption.
      now apply (Hes c child), assoc_In.
    + injection H as <-. apply wf_Dir. rewrite map_app. simpl. split.
      * apply NoDup_app; [assumption | repeat constructor; intros [] |].
        intros k Hk [<-|[]]. now apply assoc_None in Ec.
      * intros k v Hin. apply in_app_or in Hin as [Hin|[E|[]]];
          [now apply Hes|].
        injection E as <- <-. split; [assumption | now apply wf_mk_dirs].
Qed.

(** ** The walk *)

Lemma os_walk_Dir (keep : path -> string -> bool) (top : path) (es : entries) :
  os_walk keep top (Dir es)
  = (top, filter (keep top) (dirnames es), filenames es)
    :: flat_map
         (fun e =>
            if node_is_dir (snd e) && keep top (fst e)
            then os_walk keep (top // fst e) (snd e)
            else [])
         es.
Proof. reflexivity. Qed.

(** The walk reaches every directory whose ancestors were all kept. *)
Lemma os_walk_complete (keep : path -> string -> bool) (rel : path) :
  forall (top : path) (n : node) (es : entries),
    lookup n rel = Some (Dir es) ->
    all_kept keep top rel ->
    In (top ++ rel, filter (keep (top ++ rel)) (dirnames es), filenames es)
       (os_walk keep top n).
Proof.
  induction rel as [|c rel IH]; intros top n es Hl Hkept.
  - simpl in Hl. injection Hl as ->. rewrite app_nil_r, os_walk_Dir. now left.
  - simpl in Hl. destruct n as [|es0]; [discriminate|].
    destruct (assoc c es0) as [child|] eqn:Ec; [|discriminate].
    rewrite os_walk_Dir. right. apply in_flat_map.
    exists (c, child). split; [now apply assoc_In|]. cbn [fst snd].
    assert (Hdir : node_is_dir child = true).
    { destruct child as [c0|es1]; [|reflexivity]. now destruct rel. }
    assert (Hk : keep top c = true).
    { specialize (Hkept [] c rel eq_refl). now rewrite app_nil_r in Hkept. }
    rewrite Hdir, Hk. cbn [andb].
    replace (top ++ c :: rel) with ((top // c) ++ rel)
      by (unfold joinpath; now rewrite <- app_assoc).
    apply IH; [assumption|].
    intros rel1 c1 rel2 ->. unfold joinpath. rewrite <- app_assoc.
    now apply (Hkept (c :: rel1) c1 rel2).
Qed.

(** A visited directory is the top, or was kept by its parent. *)
Lemma os_walk_kept (keep : path -> string -> bool) (n : node) :
  forall (top : path) x,
    In x (os_walk keep top n) ->
    dirpath x = top
    \/ exists d c, dirpath x = d // c /\ keep d c = true.
Proof.
  induction n as [c|es IH] using node_ind'; intros top x Hin; [contradiction|].
  rewrite os_walk_Dir in Hin. destruct Hin as [<-|Hin]; [now left|].
  apply in_flat_map in Hin as [[k v] [Hkv Hin]]. cbn [fst snd] in Hin.
  destruct (node_is_dir v && keep top k) eqn:E; [|contradiction].
  apply andb_true_iff in E as [_ Hk].
  rewrite Forall_forall in IH.
  destruct (IH (k, v) Hkv (top // k) x Hin) as [->|H]; [|now right].
  right. now exists top, k.
Qed.

(** On a well-formed tree each triple describes the directory found at
    its path. *)
Lemma os_walk_sound (keep : path -> string -> bool) (n : node) :
  forall (top : path) x,
    wf n = true ->
    In x (os_walk keep top n) ->
    exists rel es,
      dirpath x = top ++ rel
      /\ lookup n rel = Some (Dir es)
      /\ snd x = filenames es.
Proof.
  induction n as [c|es IH] using node_ind'; intros top x Hwf Hin;
    [contradiction|].
  rewrite os_walk_Dir in Hin. destruct Hin as [<-|Hin].
  - exists [], es. now rewrite app_nil_r.
  - apply in_flat_map in Hin as [[k v] [Hkv Hin]]. cbn [fst snd] in Hin.
    destruct (node_is_dir v && keep top k); [|contradiction].
    apply wf_Dir in Hwf as [Hnd Hes]. rewrite Forall_forall in IH.
    destruct (IH (k, v) Hkv (top // k) x (proj2 (Hes k v Hkv)) Hin)
      as [rel [es' [Hd [Hl Hf]]]].
    exists (k :: rel), es'. split; [|split; [|assumption]].
    + rewrite Hd. unfold joinpath. now rewrite <- app_assoc.
    + simpl. now rewrite (In_assoc _ _ _ Hnd Hkv).
Qed.

Lemma NoDup_flat_map_by_key {A B K} (key : A -> K) (kb : B -> K)
  (f : A -> list B) (l : list A) :
  NoDup (map key l) ->
  (forall x, In x l -> NoDup (f x)) ->
  (forall x b, In x l -> In b (f x) -> kb b = key x) ->
  NoDup (flat_map f l).
Proof.
  induction l as [|x l IH]; intros Hnd Hf Hkey; simpl; [constructor|].
  inversion Hnd as [|? ? Hx Hnd']; subst.
  apply NoDup_app.
  - apply Hf. now left.
  - apply IH; [assumption | |]; intros; [apply Hf | apply Hkey]; auto;
      now right.
  - intros b Hb Hb'. apply in_flat_map in Hb' as [y [Hy Hby]].
    apply Hx. apply in_map_iff. exists y. split; [|assumption].
    rewrite <- (Hkey y b), <- (Hkey x b); auto; [now left | now right].
Qed.

Lemma map_flat_map {A B C} (g : B -> C) (f : A -> list B) (l : list A) :
  map g (flat_map f l) = flat_map (fun x => map g (f x)) l.
Proof.
  induction l as [|x l IH]; simpl; [reflexivity|]. now rewrite map_app, IH.
Qed.

Lemma os_walk_below (keep : path -> string -> bool) (n : node) :
  forall (top : path) x,
    In x (os_walk keep top n) -> exists rel, dirpath x = top ++ rel.
Proof.
  induction n as [c|es IH] using node_ind'; intros top x Hin; [contradiction|].
  rewrite os_walk_Dir in Hin. destruct Hin as [<-|Hin].
  - exists []. now rewrite app_nil_r.
  - apply in_flat_map in Hin as [[k v] [Hkv Hin]]. cbn [fst snd] in Hin.
    destruct (node_is_dir v && keep top k); [|contradiction].
    rewrite Forall_forall in IH.
    destruct (IH (k, v) Hkv (top // k) x Hin) as [rel Hd].
    exists (k :: rel). rewrite Hd. unfold joinpath. now rewrite <- app_assoc.
Qed.

(** No directory is visited twice. *)
Lemma os_walk_NoDup (keep : path -> string -> bool) (n : node) :
  forall (top : path),
    wf n = true -> NoDup (map dirpath (os_walk keep top n)).
Proof.
  induction n as [c|es IH] using node_ind'; intros top Hwf; [constructor|].
  rewrite os_walk_Dir. cbn [map]. apply wf_Dir in Hwf as [Hnd Hes].
  rewrite Forall_forall in IH. constructor.
  - cbn [dirpath fst]. rewrite map_flat_map, in_flat_map.
    intros [[k v] [Hkv Hin]]. cbn [fst snd] in Hin.
    destruct (node_is_dir v && keep top k); [|contradiction].
    apply in_map_iff in Hin as [x [Hx Hin]].
    apply os_walk_below in Hin as [rel Hd]. rewrite Hd in Hx.
    apply (f_equal (@List.length string)) in Hx. unfold joinpath in Hx.
    rewrite !length_app in Hx. simpl in Hx. lia.
  - rewrite map_flat_map.
    apply NoDup_flat_map_by_key
      with (key := fun e : string * node => Some (fst e))
           (kb := fun d : path => nth_error d (List.length top)).
    + rewrite <- (map_map fst Some).
      apply NoDup_map_inj; [congruence | assumption].
    + intros [k v] Hkv. cbn [fst snd].
      destruct (node_is_dir v && keep top k); [|constructor].
      apply (IH (k, v) Hkv). now apply (Hes k v).
    + intros [k v] d Hkv Hin. cbn [fst snd] in *.
      destruct (node_is_dir v && keep top k); [|contradiction].
      apply in_map_iff in Hin as [x [<- Hin]].
      apply os_walk_below in Hin as [rel ->]. unfold joinpath.
      rewrite <- app_assoc. rewrite nth_error_app2 by lia.
      now rewrite Nat.sub_diag.
Qed.

(** ** [iter_files] *)

Lemma suffix_join (d : path) (nm : string) : suffix (d // nm) = name_suffix nm.
Proof. unfold suffix. now rewrite path_name_join. Qed.

Lemma ext_key_join (d : path) (nm : string) : ext_key (d // nm) = ext_of_name nm.
Proof. unfold ext_key. now rewrite path_name_join. Qed.

(** The loop body yields a path exactly when no [continue] fires and the
    path is a regular file. *)
Lemma yields_true (t : node) (root dest_root : path) (dest_is_root : bool)
  (id ic : bool) (ce : list string) (d : path) (nm : string) :
  yields t root dest_root dest_is_root id ic ce d nm = true
  <-> (negb id && PyStr.startswith_dot nm = false
       /\ negb ic && PyStr.mem (PyStr.lower (name_suffix nm)) ce = false
       /\ path_eqb (resolve d) root && (PyStr.lower nm =? "readme.md") = false
       /\ negb dest_is_root && is_relative_to_path (resolve (d // nm)) dest_root
          = false
       /\ dest_is_root
          && path_eqb (resolve d) (resolve (dest_root // ext_of_name nm))
          = false
       /\ path_is_file t (d // nm) = true).
Proof.
  unfold yields. cbv zeta.
  rewrite path_name_join, path_parent_join, suffix_join, ext_key_join.
  destruct (negb id && PyStr.startswith_dot nm);
    [split; [discriminate | intros [H _]; discriminate]|].
  destruct (negb ic && PyStr.mem _ ce);
    [split; [discriminate | intros [_ [H _]]; discriminate]|].
  destruct (path_eqb (resolve d) root && _);
    [split; [discriminate | intros [_ [_ [H _]]]; discriminate]|].
  destruct (negb dest_is_root && _);
    [split; [discriminate | intros [_ [_ [_ [H _]]]]; discriminate]|].
  destruct (dest_is_root && _);
    [split; [discriminate | intros [_ [_ [_ [_ [H _]]]]]; discriminate]|].
  tauto.
Qed.

Lemma iter_files_In (t : node) (root dest_root : path) (id ic : bool)
  (ce : option (list string)) (p : path) :
  In p (iter_files t root dest_root id ic ce)
  <-> exists x nm,
        In x (walk_from t
                (keep_dir (path_eqb (resolve dest_root) (resolve root))
                   (resolve dest_root))
                (resolve root))
        /\ In nm (snd x)
        /\ p = dirpath x // nm
        /\ yields t (resolve root) (resolve dest_root)
             (path_eqb (resolve dest_root) (resolve root)) id ic
             (or_default ce) (dirpath x) nm = true.
Proof.
  unfold iter_files. cbv zeta. rewrite in_flat_map. split.
  - intros [[[d ds] fns] [Hx Hin]]. apply in_map_iff in Hin as [nm [<- Hnm]].
    apply filter_In in Hnm as [Hnm Hy]. exists (d, ds, fns), nm. auto.
  - intros [[[d ds] fns] [nm [Hx [Hnm [-> Hy]]]]].
    exists (d, ds, fns). split; [assumption|].
    apply in_map. apply filter_In. auto.
Qed.

Lemma iter_files_is_file (t : node) (root dest_root : path) (id ic : bool)
  (ce : option (list string)) (p : path) :
  In p (iter_files t root dest_root id ic ce) -> path_is_file t p = true.
Proof.
  rewrite iter_files_In. intros [x [nm [_ [_ [-> Hy]]]]].
  now apply yields_true in Hy.
Qed.

Lemma NoDup_filenames (es : entries) :
  NoDup (map fst es) -> NoDup (filenames es).
Proof.
  unfold filenames. induction es as [|[k v] es IH]; simpl; [constructor|].
  intros H. inversion H as [|? ? Hk Hnd]; subst.
  destruct (node_is_dir v); simpl; [now apply IH|].
  constructor; [|now apply IH].
  rewrite in_map_iff. intros [[k' v'] [E Hin]]. simpl in E. subst k'.
  apply filter_In in Hin as [Hin _]. apply Hk.
  now apply (in_map fst) in Hin.
Qed.

Lemma walk_from_NoDup (t : node) (keep : path -> string -> bool)
  (root : path) :
  wf t = true -> NoDup (map dirpath (walk_from t keep root)).
Proof.
  intros Hwf. unfold walk_from.
  destruct (lookup t root) as [top|] eqn:E; [|constructor].
  apply os_walk_NoDup. now apply (wf_lookup root t top).
Qed.

Lemma walk_from_sound (t : node) (keep : path -> string -> bool)
  (root : path) x :
  wf t = true ->
  In x (walk_from t keep root) ->
  exists es, lookup t (dirpath x) = Some (Dir es) /\ snd x = filenames es.
Proof.
  intros Hwf. unfold walk_from.
  destruct (lookup t root) as [top|] eqn:E; [|contradiction].
  intros Hin. apply os_walk_sound in Hin as [rel [es [Hd [Hl Hf]]]];
    [|now apply (wf_lookup root t top)].
  exists es. split; [|assumption]. now rewrite Hd, lookup_app, E.
Qed.

(** The candidates are pairwise different paths. *)
Lemma iter_files_NoDup (t : node) (root dest_root : path) (id ic : bool)
  (ce : option (list string)) :
  wf t = true -> NoDup (iter_files t root dest_root id ic ce).
Proof.
  intros Hwf. unfold iter_files. cbv zeta.
  apply NoDup_flat_map_by_key with (key := dirpath) (kb := path_parent).
  - now apply walk_from_NoDup.
  - intros [[d ds] fns] Hx.
    destruct (walk_from_sound _ _ _ _ Hwf Hx) as [es [Hl Hf]].
    cbn [snd dirpath fst] in *. subst fns.
    apply NoDup_map_inj; [intros a b H; now apply joinpath_inj in H|].
    apply NoDup_filter, NoDup_filenames.
    destruct (wf_lookup _ _ _ Hwf Hl) as [Hes _]. now apply wf_Dir in Hes.
  - intros [[d ds] fns] b Hx Hb. apply in_map_iff in Hb as [nm [<- _]].
    apply path_parent_join.
Qed.

Lemma In_filenames (es : entries) (nm : string) (c : content) :
  assoc nm es = Some (File c) -> In nm (filenames es).
Proof.
  intros H. apply assoc_In in H. unfold filenames.
  apply in_map_iff. exists (nm, File c). split; [reflexivity|].
  apply filter_In. now split.
Qed.

(** ** Dry runs *)

Lemma mkdir_p_deeper (here p : path) (t t' : node) (q : path) :
  mkdir_p here p t = inr t' ->
  List.length p < List.length q ->
  kind_at t' q = kind_at t q.
Proof.
  intros H Hlen. rewrite (kind_at_mkdir_p _ _ _ _ q H).
  destruct (is_relative_to_path p q) eqn:E; [|reflexivity].
  apply is_relative_to_path_length in E. lia.
Qed.

Lemma move_file_dry_tree (src dest_root : path) (w w' : world)
  (r : result path) :
  move_file src dest_root true w = (r, w') ->
  tree w' = tree w
  \/ mkdir_p [] (dest_root // ext_key src) (tree w) = inr (tree w').
Proof.
  intros H. rewrite move_file_unfold in H. cbv zeta in H.
  destruct (mkdir_p [] (dest_root // ext_key src) (tree w)) as [e|t1];
    [injection H as _ <-; now left|].
  right. destruct (path_eqb _ _); [now injection H as _ <-|].
  destruct (safe_destination t1 _ _); now injection H as _ <-.
Qed.

Lemma same_bucket_contents_mkdir (dest_root p : path) (t0 t t' : node) :
  same_bucket_contents dest_root t0 t ->
  mkdir_p [] p t = inr t' ->
  List.length p <= S (List.length dest_root) ->
  same_bucket_contents dest_root t0 t'.
Proof.
  intros Hsame Hm Hlen e nm. rewrite <- Hsame.
  apply (mkdir_p_deeper _ _ _ _ _ Hm). unfold joinpath.
  rewrite !length_app. simpl. lia.
Qed.

Lemma safe_destination_same_bucket (dest_root : path) (t t' : node)
  (e filename : string) :
  same_bucket_contents dest_root t t' ->
  safe_destination t' (dest_root // e) filename
  = safe_destination t (dest_root // e) filename.
Proof.
  intros Hsame. apply safe_destination_ext. intros nm.
  unfold path_exists. now rewrite Hsame.
Qed.

(** The targets a dry run prints are those [safe_destination] computes
    on the tree the run started from. *)
Lemma move_all_dry_targets (files : list path) (dest_root : path) (t0 : node) :
  forall (w w' : world) (r : result unit),
    same_bucket_contents dest_root t0 (tree w) ->
    move_all files dest_root true w = (r, w') ->
    forall src dst, In (DryRun src dst) (out w') ->
      In (DryRun src dst) (out w)
      \/ safe_destination t0 (dest_root // ext_key src) (path_name src)
         = Some dst.
Proof.
  induction files as [|p files IH]; intros w w' r Hsame H src dst Hin.
  - rewrite move_all_nil in H. injection H as _ <-. now left.
  - rewrite move_all_cons in H.
    destruct (move_file p dest_root true w) as [r1 w1] eqn:Ep.
    assert (Hbucket : List.length (dest_root // ext_key p)
                      <= S (List.length dest_root)).
    { unfold joinpath. rewrite length_app. simpl. lia. }
    assert (Hsame1 : same_bucket_contents dest_root t0 (tree w1)).
    { destruct (move_file_dry_tree _ _ _ _ _ Ep) as [->|Hm]; [assumption|].
      now apply same_bucket_contents_mkdir
        with (p := dest_root // ext_key p) (t := tree w). }
    assert (Hstep : In (DryRun src dst) (out w1) ->
              In (DryRun src dst) (out w)
              \/ safe_destination t0 (dest_root // ext_key src)
                   (path_name src) = Some dst).
    { destruct (move_file_lines _ _ _ _ _ _ Ep) as [lines [-> Hl]].
      intros Hin1. apply in_app_or in Hin1 as [Hin1|Hin1]; [now left|].
      right. destruct (Hl _ Hin1) as [E|[d [E [t1 [Hm Hs]]]]]; [discriminate|].
      injection E as <- <-. rewrite <- Hs.
      symmetry. apply safe_destination_same_bucket.
      now apply same_bucket_contents_mkdir
        with (p := dest_root // ext_key src) (t := tree w). }
    destruct r1 as [d|e].
    + destruct (IH w1 w' r Hsame1 H src dst Hin) as [Hin1|Hs]; auto.
    + injection H as _ <-. auto.
Qed.

Lemma mkdir_p_same_files (here p : path) (t t' : node) (q : path)
  (c : content) :
  mkdir_p here p t = inr t' ->
  kind_at t' q = Some (KFile c) <-> kind_at t q = Some (KFile c).
Proof.
  intros H. split; [|now apply (mkdir_p_keeps_file _ _ _ _ _ _ H)].
  rewrite (kind_at_mkdir_p _ _ _ _ q H).
  now destruct (is_relative_to_path p q).
Qed.

Lemma move_all_dry_same_files (files : list path) (dest_root : path) :
  forall (w w' : world) (r : result unit),
    move_all files dest_root true w = (r, w') ->
    forall q c, kind_at (tree w') q = Some (KFile c)
                <-> kind_at (tree w) q = Some (KFile c).
Proof.
  induction files as [|p files IH]; intros w w' r H q c.
  - rewrite move_all_nil in H. now injection H as _ <-.
  - rewrite move_all_cons in H.
    destruct (move_file p dest_root true w) as [r1 w1] eqn:Ep.
    assert (Hstep : kind_at (tree w1) q = Some (KFile c)
                    <-> kind_at (tree w) q = Some (KFile c)).
    { destruct (move_file_dry_tree _ _ _ _ _ Ep) as [->|Hm]; [tauto|].
      now apply (mkdir_p_same_files _ _ _ _ _ _ Hm). }
    destruct r1 as [d|e].
    + rewrite (IH w1 w' r H q c). exact Hstep.
    + now injection H as _ <-.
Qed.

(** A dry run moves no file and creates none: the regular files are the
    same before and after.  (It does create directories.) *)
Lemma dry_run_moves_no_file (config : SortConfig) (t : node)
  (r : result (list path)) (w' : world) :
  dry_run config = true ->
  sort_files config (World t []) = (r, w') ->
  forall q c, kind_at (tree w') q = Some (KFile c)
              <-> kind_at t q = Some (KFile c).
Proof.
  intros Hdry H q c. rewrite sort_files_unfold in H. cbv zeta in H.
  cbn [tree out] in H.
  destruct (negb _ || negb _); [now injection H as _ <-|].
  destruct (mkdir_p [] (destination_root config) t) as [e|t1] eqn:Em;
    [now injection H as _ <-|].
  pose proof (mkdir_p_same_files _ _ _ _ q c Em) as Hmk.
  destruct (iter_files t1 _ _ _ _ None) as [|p files];
    [now injection H as _ <-|].
  rewrite Hdry in H.
  destruct (move_all (p :: files) _ true _) as [[u|e] w3] eqn:Eall;
    injection H as _ <-; cbn [tree];
    now rewrite (move_all_dry_same_files _ _ _ _ _ Eall q c).
Qed.

(* ================================================================== *)
(** * The claims *)

(** C7.  When the source root does not exist or is not a directory,
    [sort_files] raises [SystemExit] and the world is exactly the one it
    started from: no directory was created, no file was moved, nothing was
    printed. *)
Theorem sort_files_invalid_root (config : SortConfig) (w : world) :
  path_exists (tree w) (root_path config) = false
  \/ path_is_dir (tree w) (root_path config) = false ->
  sort_files config w = (Raise (SystemExit (root_path config)), w).
Proof.
  intros H. rewrite sort_files_unfold. cbv zeta.
  destruct H as [-> | ->]; [reflexivity | now rewrite orb_true_r].
Qed.

Lemma sort_files_invalid_root_witness :
  (path_exists Ex.home (root_path Ex.cfg_missing) = false
   \/ path_is_dir Ex.home (root_path Ex.cfg_missing) = false)
  /\ sort_files Ex.cfg_missing (World Ex.home [])
     = (Raise (SystemExit ["nowhere"]), World Ex.home []).
Proof.
  split; [left; reflexivity|].
  apply (sort_files_invalid_root Ex.cfg_missing (World Ex.home [])).
  left. reflexivity.
Defined.

(** C8, as the code has it.  A candidate that is gone when its turn
    comes, and that does not count as already grouped, is not skipped in a
    live run: [move_file] raises, nothing catches the exception, so the
    loop ends there.  The exception is [FileNotFoundError] for the source
    whenever the bucket could be created and the source is still absent
    afterwards.  Every regular file is where it was, and the only line
    printed is the announcement for the missing candidate. *)
Theorem vanished_candidate_stops_live_run (src : path) (rest : list path)
  (dest_root : path) (w : world) :
  kind_at (tree w) src = None ->
  resolve (path_parent src) <> resolve (dest_root // ext_key src) ->
  exists e w',
    move_all (src :: rest) dest_root false w = (Raise e, w')
    /\ (forall t1, mkdir_p [] (dest_root // ext_key src) (tree w) = inr t1 ->
                   kind_at t1 src = None -> e = FileNotFoundError src)
    /\ (forall q c, kind_at (tree w) q = Some (KFile c) ->
                    kind_at (tree w') q = Some (KFile c))
    /\ (forall l, In l (out w') -> In l (out w) \/ exists d, l = Moving src d).
Proof.
  intros Hgone Hnotgrouped. rewrite move_all_cons, move_file_unfold.
  cbv zeta.
  destruct (mkdir_p [] (dest_root // ext_key src) (tree w)) as [e|t1] eqn:Em.
  { exists e, w. split; [reflexivity|]. split; [discriminate|].
    split; [trivial | now left]. }
  destruct (path_eqb_spec (resolve (path_parent src))
              (resolve (dest_root // ext_key src))) as [E|_];
    [contradiction|].
  destruct (safe_destination_total t1 (dest_root // ext_key src)
              (path_name src)) as [dest Es].
  rewrite Es.
  destruct (safe_destination_in_bucket _ _ _ _ Es) as [Hfree [nm Hdest]].
  rewrite shutil_move_fresh by now apply path_exists_false.
  cbn [tree out].
  assert (Hrest : forall (e : exn),
    (lookup t1 src = None -> e = FileNotFoundError src) ->
    exists e' w',
      (Raise e, World t1 (out w ++ [Moving src dest]))
      = (@Raise unit e', w')
      /\ (forall t2, @inr exn node t1 = inr t2 ->
                     kind_at t2 src = None -> e' = FileNotFoundError src)
      /\ (forall q c, kind_at (tree w) q = Some (KFile c) ->
                      kind_at (tree w') q = Some (KFile c))
      /\ (forall l, In l (out w') ->
                    In l (out w) \/ exists d, l = Moving src d)).
  { intros e He. exists e, (World t1 (out w ++ [Moving src dest])).
    split; [reflexivity|]. cbn [tree out]. split; [|split].
    - intros t2 [= <-] Hk. apply He. unfold kind_at in Hk.
      now destruct (lookup t1 src).
    - intros q c Hq. now apply (mkdir_p_keeps_file _ _ _ _ _ _ Em).
    - intros l Hin. apply in_app_or in Hin as [Hin|[<-|[]]]; [now left|].
      right. now exists dest. }
  destruct (lookup t1 src) as [n|] eqn:El.
  - assert (Hrel : is_relative_to_path (dest_root // ext_key src) src = true).
    { pose proof (kind_at_mkdir_p _ _ _ _ src Em) as Hk.
      rewrite Hgone in Hk. unfold kind_at in Hk. rewrite El in Hk.
      now destruct (is_relative_to_path (dest_root // ext_key src) src). }
    assert (Hn : node_is_dir n = true).
    { pose proof (kind_at_mkdir_p _ _ _ _ src Em) as Hk.
      rewrite Hrel in Hk. unfold kind_at in Hk. rewrite El in Hk.
      now destruct n. }
    assert (Hrel' : is_relative_to_path dest src = true).
    { subst dest. eapply is_relative_to_path_trans; [|exact Hrel].
      apply is_relative_to_path_app. }
    rewrite Hn, Hrel'. cbn [andb]. apply Hrest. discriminate.
  - apply Hrest. reflexivity.
Qed.

Lemma vanished_candidate_stops_live_run_witness :
  kind_at Ex.after_vanish ["r"; "a.txt"] = None
  /\ resolve (path_parent ["r"; "a.txt"])
     <> resolve (Ex.dest // ext_key ["r"; "a.txt"])
  /\ exists e w',
       move_all Ex.listed Ex.dest false (World Ex.after_vanish [])
       = (Raise e, w').
Proof.
  assert (Hgone : kind_at (tree (World Ex.after_vanish [])) ["r"; "a.txt"]
                  = None) by reflexivity.
  assert (Hng : resolve (path_parent ["r"; "a.txt"])
                <> resolve (Ex.dest // ext_key ["r"; "a.txt"]))
    by (vm_compute; discriminate).
  split; [exact Hgone|]. split; [exact Hng|].
  destruct (vanished_candidate_stops_live_run ["r"; "a.txt"] [["r"; "b.txt"]]
              Ex.dest (World Ex.after_vanish []) Hgone Hng)
    as [e [w' [H _]]].
  exists e, w'. exact H.
Defined.

(** C8, as the specification words it, fails: the missing [a.txt] is not
    skipped; the run ends with [FileNotFoundError] and [b.txt], the next
    candidate, is never moved. *)
Lemma vanished_candidate_is_not_skipped :
  let run := move_all Ex.listed Ex.dest false (World Ex.after_vanish []) in
  kind_at Ex.after_vanish ["r"; "a.txt"] = None
  /\ fst run = Raise (FileNotFoundError ["r"; "a.txt"])
  /\ kind_at (tree (snd run)) ["r"; "b.txt"] = Some (KFile 2)
  /\ kind_at (tree (snd run)) (Ex.dest // "txt" // "b.txt") = None
  /\ out (snd run) = [Moving ["r"; "a.txt"] (Ex.dest // "txt" // "a.txt")].
Proof. vm_compute. repeat split. Qed.

(** C2, evaluated on the sample tree.  A dry run prints the planned pairs
    and moves no file ([dry_run_moves_no_file]), but it is not free of
    side effects: [sort_files] creates the destination root and
    [move_file] creates the bucket of every candidate before either looks
    at [dry_run]. *)
Theorem dry_run_creates_directories :
  let run := sort_files Ex.cfg_dry (World Ex.home []) in
  path_exists Ex.home Ex.dest = false
  /\ kind_at (tree (snd run)) Ex.dest = Some KDir
  /\ kind_at (tree (snd run)) (Ex.dest // "txt") = Some KDir
  /\ kind_at (tree (snd run)) (Ex.dest // "no_ext") = Some KDir
  /\ In (DryRun ["r"; "a.txt"] (Ex.dest // "txt" // "a.txt")) (out (snd run))
  /\ kind_at (tree (snd run)) ["r"; "a.txt"] = Some (KFile 1)
  /\ kind_at (tree (snd run)) (Ex.dest // "txt" // "a.txt") = None.
Proof. vm_compute. intuition. Qed.

(** C5, evaluated on a failing input.  In place, two files called [a.]
    meet in [no_ext]; the second becomes [a. (1)], whose suffix is
    [. (1)].  The next pass therefore does not find it in its bucket and
    moves it to a directory called [ (1)]. *)
Theorem second_in_place_pass_moves_again :
  fst (sort_files Ex.cfg_in_place (World Ex.dots []))
  = Ok [["r"; "a."]; ["r"; "d"; "a."]]
  /\ kind_at (tree (Ex.after Ex.cfg_in_place Ex.dots)) ["r"; "no_ext"; "a. (1)"]
     = Some (KFile 2)
  /\ Ex.second_pass Ex.cfg_in_place Ex.dots
     = (Ok [["r"; "no_ext"; "a. (1)"]],
        World
          (Dir [("r", Dir [("d", Dir []);
                           ("no_ext", Dir [("a.", File 1)]);
                           (" (1)", Dir [("a. (1)", File 2)])])])
          [AboutToMove 1;
           Moving ["r"; "no_ext"; "a. (1)"] ["r"; " (1)"; "a. (1)"];
           Done false; DestinationIs ["r"]]).
Proof. vm_compute. repeat split. Qed.

(** C4.  [safe_destination] always returns: the plain name when nothing
    is there, else the first free name [stem (n)suffix], [n] counting from
    1.  The path it returns does not exist, so [move_file] leaves every
    other regular file as it is; and of two files [x.txt] bound for one
    bucket the second arrives as [x (1).txt]. *)
Theorem safe_destination_never_overwrites :
  (forall t dest_dir filename,
      canonical dest_dir = true -> valid_name filename = true ->
      exists p,
        safe_destination t dest_dir filename = Some p
        /\ path_exists t p = false
        /\ (path_exists t (dest_dir // filename) = false ->
            p = dest_dir // filename)
        /\ (path_exists t (dest_dir // filename) = true ->
            exists n,
              1 <= n
              /\ p = dest_dir // bumped_name filename n
              /\ forall m, 1 <= m < n ->
                   path_exists t (dest_dir // bumped_name filename m) = true))
  /\ (forall src dest_root dry w r w' q c,
        kind_at (tree w) src <> Some KDir ->
        move_file src dest_root dry w = (r, w') ->
        kind_at (tree w) q = Some (KFile c) -> q <> src ->
        kind_at (tree w') q = Some (KFile c))
  /\ (let w' := Ex.after Ex.cfg_default Ex.home in
      In (Moving ["r"; "x.txt"] (Ex.dest // "txt" // "x.txt")) (out w')
      /\ In (Moving ["r"; "sub"; "x.txt"] (Ex.dest // "txt" // "x (1).txt"))
            (out w')
      /\ kind_at (tree w') (Ex.dest // "txt" // "x.txt") = Some (KFile 6)
      /\ kind_at (tree w') (Ex.dest // "txt" // "x (1).txt") = Some (KFile 7)).
Proof.
  split; [|split].
  - intros t dest_dir filename _ _.
    destruct (safe_destination_total t dest_dir filename) as [p Hp].
    exists p. split; [assumption|].
    apply safe_destination_first_free in Hp as [Hfree Hcases].
    split; [assumption|].
    destruct Hcases as [[E ->]|[E Hn]]; split; intros E'; congruence.
  - intros src dest_root dry w r w' q c Hsrc H Hq Hne.
    now apply (move_file_frame src dest_root dry w w' r).
  - vm_compute. intuition.
Qed.

Lemma safe_destination_never_overwrites_witness :
  let t := tree (Ex.after Ex.cfg_default Ex.home) in
  canonical (Ex.dest // "txt") = true
  /\ valid_name "x.txt" = true
  /\ exists p,
       safe_destination t (Ex.dest // "txt") "x.txt" = Some p
       /\ path_exists t p = false.
Proof.
  intros t. split; [reflexivity|]. split; [reflexivity|].
  destruct (proj1 safe_destination_never_overwrites t (Ex.dest // "txt")
              "x.txt" eq_refl eq_refl) as [p [H1 [H2 _]]].
  exists p. split; assumption.
Defined.

(** C10.  In a dry run every printed target is what [safe_destination]
    answers on the tree the run started from (the bucket directories the
    run creates hold nothing), so two candidates with one name get one and
    the same target; on the sample tree the live run alone tells the two
    [x.txt] apart. *)
Theorem dry_run_targets_from_initial_state :
  (forall config t r w',
      dry_run config = true ->
      sort_files config (World t []) = (r, w') ->
      (forall src dst,
          In (DryRun src dst) (out w') ->
          safe_destination t (destination_root config // ext_key src)
            (path_name src) = Some dst)
      /\ (forall src1 dst1 src2 dst2,
             In (DryRun src1 dst1) (out w') ->
             In (DryRun src2 dst2) (out w') ->
             path_name src1 = path_name src2 -> dst1 = dst2))
  /\ (let dry := Ex.after Ex.cfg_dry Ex.home in
      let live := Ex.after Ex.cfg_default Ex.home in
      In (DryRun ["r"; "x.txt"] (Ex.dest // "txt" // "x.txt")) (out dry)
      /\ In (DryRun ["r"; "sub"; "x.txt"] (Ex.dest // "txt" // "x.txt"))
            (out dry)
      /\ In (Moving ["r"; "x.txt"] (Ex.dest // "txt" // "x.txt")) (out live)
      /\ In (Moving ["r"; "sub"; "x.txt"] (Ex.dest // "txt" // "x (1).txt"))
            (out live)).
Proof.
  split; [|vm_compute; intuition].
  intros config t r w' Hdry H.
  assert (Htargets : forall src dst,
             In (DryRun src dst) (out w') ->
             safe_destination t (destination_root config // ext_key src)
               (path_name src) = Some dst).
  { rewrite sort_files_unfold in H. cbv zeta in H. cbn [tree out] in H.
    destruct (negb _ || negb _); [injection H as _ <-; contradiction|].
    destruct (mkdir_p [] (destination_root config) t) as [e|t1] eqn:Em;
      [injection H as _ <-; contradiction|].
    assert (Hsame : same_bucket_contents (destination_root config) t t1).
    { apply same_bucket_contents_mkdir
        with (p := destination_root config) (t := t);
        [intros e nm; reflexivity | assumption | lia]. }
    destruct (iter_files t1 _ _ _ _ None) as [|p files].
    { injection H as _ <-. intros src dst [E|[]]. discriminate. }
    rewrite Hdry in H. cbn [negb andb] in H. rewrite app_nil_r in H.
    destruct (move_all (p :: files) _ true _) as [[u|e] w3] eqn:Eall.
    - injection H as _ <-. cbn [out]. intros src dst Hin.
      apply in_app_or in Hin as [Hin|[E|[E|[]]]]; try discriminate.
      destruct (move_all_dry_targets _ _ t (World t1 []) _ _ Hsame Eall
                  src dst Hin)
        as [[]|Hs]; assumption.
    - injection H as _ <-. intros src dst Hin.
      destruct (move_all_dry_targets _ _ t (World t1 []) _ _ Hsame Eall
                  src dst Hin)
        as [[]|Hs]; assumption. }
  split; [exact Htargets|].
  intros src1 dst1 src2 dst2 H1 H2 Hname.
  apply Htargets in H1, H2. unfold ext_key in *. rewrite Hname in H1.
  congruence.
Qed.

Lemma dry_run_targets_from_initial_state_witness :
  dry_run Ex.cfg_dry = true
  /\ safe_destination Ex.home (destination_root Ex.cfg_dry // "txt") "x.txt"
     = Some (Ex.dest // "txt" // "x.txt").
Proof.
  split; [reflexivity|].
  apply (proj1 (proj1 dry_run_targets_from_initial_state Ex.cfg_dry Ex.home
                  (fst (sort_files Ex.cfg_dry (World Ex.home [])))
                  (snd (sort_files Ex.cfg_dry (World Ex.home [])))
                  eq_refl
                  (surjective_pairing _))
           ["r"; "sub"; "x.txt"] (Ex.dest // "txt" // "x.txt")).
  vm_compute. intuition.
Defined.

(** C3.  With the destination strictly inside the source root,
    [iter_files] yields no path inside the destination tree and [os.walk]
    never enters it: a directory stays in [dirnames] exactly when the
    components of the destination do not start its resolved path, so a
    sibling whose name merely begins like the destination's is still
    walked.  The walk is a structural recursion on the finite tree and
    visits no directory twice, so the traversal ends. *)
Theorem iter_files_skips_destination :
  (forall t root dest_root id ic ce,
      is_relative_to_path (resolve dest_root) (resolve root) = true ->
      resolve dest_root <> resolve root ->
      let keep := keep_dir (path_eqb (resolve dest_root) (resolve root))
                    (resolve dest_root) in
      (forall p, In p (iter_files t root dest_root id ic ce) ->
                 is_relative_to_path (resolve p) (resolve dest_root) = false
                 /\ (wf t = true ->
                     is_relative_to_path p (resolve dest_root) = false))
      /\ (forall x, In x (walk_from t keep (resolve root)) ->
                    is_relative_to_path (resolve (dirpath x))
                      (resolve dest_root) = false)
      /\ (forall current_dir d,
             keep current_dir d
             = negb (is_relative_to_path (resolve (current_dir // d))
                       (resolve dest_root)))
      /\ (wf t = true ->
          NoDup (map dirpath (walk_from t keep (resolve root)))))
  /\ (iter_files Ex.nested ["r"] Ex.dest false false None
      = [["r"; "b.txt"]; ["r"; "sorted_by_extension_old"; "old.txt"]]
      /\ map dirpath
           (walk_from Ex.nested (keep_dir false Ex.dest) ["r"])
         = [["r"]; ["r"; "sorted_by_extension_old"]]).
Proof.
  split; [|split; reflexivity].
  intros t root dest_root id ic ce Hin Hne keep.
  assert (Hdeq : path_eqb (resolve dest_root) (resolve root) = false)
    by now apply path_eqb_neq.
  assert (Hkeep : forall current_dir d,
             keep current_dir d
             = negb (is_relative_to_path (resolve (current_dir // d))
                       (resolve dest_root))).
  { intros current_dir d. unfold keep, keep_dir. rewrite Hdeq. cbn [negb].
    destruct (is_relative_to_path (resolve (current_dir // d))
                (resolve dest_root)) eqn:E; [reflexivity|]. cbn [negb andb].
    destruct (path_eqb_spec (resolve (current_dir // d)) (resolve dest_root))
      as [E'|_]; [|reflexivity].
    rewrite E', is_relative_to_path_refl in E. discriminate. }
  split; [|split; [|split; [exact Hkeep|]]];
    [| |intros Hwf; now apply walk_from_NoDup].
  - intros p Hp.
    assert (Hres : is_relative_to_path (resolve p) (resolve dest_root) = false).
    { apply iter_files_In in Hp as [x [nm [_ [_ [-> Hy]]]]].
      apply yields_true in Hy. destruct Hy as [_ [_ [_ [Hy _]]]].
      rewrite Hdeq in Hy. exact Hy. }
    split; [exact Hres|]. intros Hwf.
    apply iter_files_is_file, path_is_file_true in Hp as [c Hc].
    apply lookup_file in Hc. apply (wf_lookup _ _ _ Hwf) in Hc as [_ Hcan].
    now rewrite (resolve_canonical _ Hcan) in Hres.
  - intros x Hx. unfold walk_from in Hx.
    destruct (lookup t (resolve root)) as [top|]; [|contradiction].
    apply os_walk_kept in Hx as [->|[d [c [-> Hk]]]].
    + rewrite resolve_idem.
      destruct (is_relative_to_path (resolve root) (resolve dest_root)) eqn:E;
        [|reflexivity].
      exfalso. apply Hne.
      apply is_relative_to_path_spec in E as [rel E].
      apply is_relative_to_path_spec in Hin as [rel' E'].
      assert (rel = []) as ->.
      { apply (f_equal (@List.length string)) in E, E'.
        rewrite length_app in E, E'. destruct rel; [reflexivity|].
        simpl in E. lia. }
      now rewrite app_nil_r in E.
    + rewrite Hkeep in Hk. now apply negb_true_iff in Hk.
Qed.

Lemma iter_files_skips_destination_witness :
  is_relative_to_path (resolve Ex.dest) (resolve ["r"]) = true
  /\ resolve Ex.dest <> resolve ["r"]
  /\ forall p, In p (iter_files Ex.nested ["r"] Ex.dest false false None) ->
               is_relative_to_path (resolve p) (resolve Ex.dest) = false.
Proof.
  assert (Hin : is_relative_to_path (resolve Ex.dest) (resolve ["r"]) = true)
    by reflexivity.
  assert (Hne : resolve Ex.dest <> resolve ["r"]) by (vm_compute; discriminate).
  split; [exact Hin|]. split; [exact Hne|].
  intros p Hp.
  apply (proj1 (proj1 iter_files_skips_destination Ex.nested ["r"] Ex.dest
                  false false None Hin Hne) p Hp).
Defined.

(** C6.  Whatever the flags, [iter_files] never yields a file called
    [readme.md] (in any case) that lies directly in the source root; so
    [sort_files] prints no move for it, and on a well-formed tree the file
    is still in its place when the run ends, however it ends. *)
Theorem root_readme_is_never_moved :
  (forall t root dest_root id ic ce p,
      In p (iter_files t root dest_root id ic ce) ->
      ~ (path_parent p = resolve root
         /\ PyStr.lower (path_name p) = "readme.md"))
  /\ (forall config t r w' p,
        path_parent p = root_path config ->
        PyStr.lower (path_name p) = "readme.md" ->
        sort_files config (World t []) = (r, w') ->
        (forall d, ~ In (Moving p d) (out w') /\ ~ In (DryRun p d) (out w'))
        /\ (wf t = true ->
            forall c, kind_at t p = Some (KFile c) ->
                      kind_at (tree w') p = Some (KFile c))).
Proof.
  assert (Hyield : forall t root dest_root id ic ce p,
             In p (iter_files t root dest_root id ic ce) ->
             ~ (path_parent p = resolve root
                /\ PyStr.lower (path_name p) = "readme.md")).
  { intros t root dest_root id ic ce p Hp [Hpar Hname].
    apply iter_files_In in Hp as [x [nm [_ [_ [-> Hy]]]]].
    apply yields_true in Hy. destruct Hy as [_ [_ [Hy _]]].
    rewrite path_parent_join in Hpar. rewrite path_name_join in Hname.
    rewrite Hpar, resolve_idem, path_eqb_refl, Hname in Hy. discriminate. }
  split; [exact Hyield|].
  intros config t r w' p Hpar Hname H.
  rewrite sort_files_unfold in H. cbv zeta in H. cbn [tree out] in H.
  destruct (negb _ || negb _).
  { injection H as _ <-. cbn [tree out]. split; [intros d; split; intros []|].
    trivial. }
  destruct (mkdir_p [] (destination_root config) t) as [e|t1] eqn:Em.
  { injection H as _ <-. cbn [tree out]. split; [intros d; split; intros []|].
    trivial. }
  remember (iter_files t1 (root_path config) (destination_root config)
              (include_dotfiles config) (include_code config) None)
    as files eqn:Ef.
  assert (Hnot : ~ In p files).
  { subst files. intros Hp. apply (Hyield _ _ _ _ _ _ _ Hp).
    split; [|assumption]. unfold root_path in *. now rewrite resolve_idem. }
  assert (Hnd : wf t = true -> NoDup files).
  { intros Hwf. subst files. apply iter_files_NoDup.
    apply (wf_mkdir_p _ _ _ _ Hwf (destination_root_canonical config) Em). }
  assert (Hfiles : forall q, In q files -> path_is_file t1 q = true).
  { subst files. intros q. apply iter_files_is_file. }
  clear Ef. destruct files as [|p0 files].
  { injection H as _ <-. cbn [tree out]. split.
    - intros d. split; intros [E|[]]; discriminate.
    - intros _ c Hc. now apply (mkdir_p_keeps_file _ _ _ _ _ _ Em). }
  set (w2 := World t1 _) in H.
  assert (Hout2 : forall l, In l (out w2) -> exists n, l = AboutToMove n).
  { unfold w2. cbn [out]. intros l Hl.
    destruct (negb _ && negb _); [|contradiction].
    destruct Hl as [<-|[]]. eauto. }
  destruct (move_all (p0 :: files) _ _ w2) as [r3 w3] eqn:Eall.
  assert (Hlines : forall d, ~ In (Moving p d) (out w3)
                             /\ ~ In (DryRun p d) (out w3)).
  { destruct (move_all_lines _ _ _ _ _ _ Eall) as [lines [-> Hl]].
    intros d. split; intros Hin; apply in_app_or in Hin as [Hin|Hin];
      try (apply Hout2 in Hin as [n E]; discriminate);
      destruct (Hl _ Hin) as [src [Hsrc [E|[d' E]]]]; try discriminate;
      destruct (dry_run config); try discriminate;
      injection E as <- _; contradiction. }
  assert (Hkeep : wf t = true ->
                  forall c, kind_at t p = Some (KFile c) ->
                            kind_at (tree w3) p = Some (KFile c)).
  { intros Hwf c Hc.
    apply (move_all_frame _ _ _ w2 _ _ (Hnd Hwf) Hfiles Eall); [|assumption].
    unfold w2. cbn [tree]. now apply (mkdir_p_keeps_file _ _ _ _ _ _ Em). }
  destruct r3 as [u|e]; injection H as _ <-; cbn [tree out].
  - split; [|exact Hkeep]. intros d. destruct (Hlines d) as [Hm Hd].
    split; intros Hin; apply in_app_or in Hin as [Hin|[E|[E|[]]]];
      try discriminate; auto.
  - split; [exact Hlines | exact Hkeep].
Qed.

Lemma root_readme_is_never_moved_witness :
  let p := ["r"; "README.md"] in
  path_parent p = root_path Ex.cfg_everything
  /\ PyStr.lower (path_name p) = "readme.md"
  /\ wf Ex.home = true
  /\ kind_at (tree (Ex.after Ex.cfg_everything Ex.home)) p = Some (KFile 5).
Proof.
  intros p. split; [reflexivity|]. split; [reflexivity|].
  split; [reflexivity|].
  apply (proj2 (proj2 root_readme_is_never_moved Ex.cfg_everything Ex.home
                  (fst (sort_files Ex.cfg_everything (World Ex.home [])))
                  (Ex.after Ex.cfg_everything Ex.home) p
                  eq_refl eq_refl (surjective_pairing _))
           eq_refl 5 eq_refl).
Defined.

Lemma iter_files_canonical (t : node) (root dest_root : path) (id ic : bool)
  (ce : option (list string)) (p : path) :
  wf t = true ->
  In p (iter_files t root dest_root id ic ce) -> canonical p = true.
Proof.
  intros Hwf Hp.
  apply iter_files_is_file, path_is_file_true in Hp as [c Hc].
  apply lookup_file in Hc. now apply (wf_lookup _ _ _ Hwf) in Hc.
Qed.

(** Every regular file under the root that no filter stops, and that is
    not already in its bucket, is a candidate. *)
Lemma iter_files_complete (t : node) (root dest_root : path) (id ic : bool)
  (d : path) (nm : string) (c : content) :
  wf t = true ->
  canonical root = true -> canonical dest_root = true ->
  is_relative_to_path d root = true ->
  kind_at t (d // nm) = Some (KFile c) ->
  negb id && PyStr.startswith_dot nm = false ->
  negb ic && PyStr.mem (PyStr.lower (name_suffix nm)) DEFAULT_CODE_EXTENSIONS
  = false ->
  ~ (d = root /\ PyStr.lower nm = "readme.md") ->
  (dest_root <> root -> is_relative_to_path (d // nm) dest_root = false) ->
  (dest_root = root -> d <> dest_root // ext_of_name nm) ->
  In (d // nm) (iter_files t root dest_root id ic None).
Proof.
  intros Hwf Hroot Hdest Hunder Hfile Hdot Hcode Hreadme Hout Hbucket.
  apply lookup_file in Hfile.
  destruct (wf_lookup _ _ _ Hwf Hfile) as [_ Hcan].
  rewrite canonical_join in Hcan. apply andb_true_iff in Hcan as [Hd Hnm].
  apply is_relative_to_path_spec in Hunder as [rel ->].
  unfold joinpath in Hfile. rewrite !lookup_app in Hfile.
  destruct (lookup t root) as [top|] eqn:Etop; [|discriminate].
  destruct (lookup top rel) as [n|] eqn:En; [|discriminate].
  destruct n as [c0|es]; [discriminate|]. simpl in Hfile.
  destruct (assoc nm es) as [child|] eqn:Enm; [|discriminate].
  injection Hfile as ->.
  apply iter_files_In.
  rewrite (resolve_canonical root Hroot), (resolve_canonical dest_root Hdest).
  set (keep := keep_dir (path_eqb dest_root root) dest_root).
  exists (root ++ rel, filter (keep (root ++ rel)) (dirnames es), filenames es),
    nm.
  cbn [dirpath fst snd].
  split; [|split; [now apply In_filenames with (c := c)|split; [reflexivity|]]].
  - unfold walk_from. rewrite Etop. apply os_walk_complete; [assumption|].
    intros rel1 k rel2 ->. unfold keep, keep_dir.
    destruct (path_eqb_spec dest_root root) as [_|Hne]; [reflexivity|].
    cbn [negb].
    assert (Hcan1 : canonical ((root ++ rel1) // k) = true).
    { clear -Hd. unfold joinpath, canonical in *.
      rewrite !forallb_app in *. simpl in *.
      apply andb_true_iff in Hd as [H1 H2].
      apply andb_true_iff in H2 as [H2 H3].
      apply andb_true_iff in H3 as [H3 _]. now rewrite H1, H2, H3. }
    rewrite (resolve_canonical _ Hcan1).
    assert (Hnot : is_relative_to_path ((root ++ rel1) // k) dest_root = false).
    { destruct (is_relative_to_path ((root ++ rel1) // k) dest_root) eqn:E;
        [|reflexivity].
      rewrite <- (Hout Hne). symmetry.
      apply is_relative_to_path_trans with (q := (root ++ rel1) // k);
        [|assumption].
      apply is_relative_to_path_spec. exists (rel2 ++ [nm]).
      unfold joinpath. now rewrite <- !app_assoc. }
    rewrite Hnot. cbn [negb andb].
    destruct (path_eqb_spec ((root ++ rel1) // k) dest_root) as [E|_];
      [|reflexivity].
    rewrite E, is_relative_to_path_refl in Hnot. discriminate.
  - apply yields_true.
    rewrite (resolve_canonical _ Hd).
    split; [assumption|]. split; [assumption|]. split.
    { destruct (path_eqb_spec (root ++ rel) root) as [E|_]; [|reflexivity].
      destruct (String.eqb_spec (PyStr.lower nm) "readme.md") as [E'|_];
        [|reflexivity].
      exfalso. now apply Hreadme. }
    split.
    { destruct (path_eqb_spec dest_root root) as [_|Hne]; [reflexivity|].
      cbn [negb andb]. rewrite resolve_canonical; [now apply Hout|].
      now rewrite canonical_join, Hd, Hnm. }
    split.
    { destruct (path_eqb_spec dest_root root) as [E|_]; [|reflexivity].
      cbn [andb]. rewrite resolve_canonical
        by now rewrite canonical_join, Hdest, valid_name_ext.
      apply path_eqb_neq. now apply Hbucket. }
    apply path_is_file_true. exists c. apply lookup_file.
    unfold joinpath. rewrite !lookup_app, Etop, En. simpl. now rewrite Enm.
Qed.


(* ================================================================== *)
(** * Further properties of [sorter.py] *)

(** ** Frames for every kind of entry *)

Lemma set_entry_same (k : string) (v : node) (es : entries) :
  assoc k es = Some v -> set_entry k v es = es.
Proof.
  induction es as [|[k0 v0] es IH]; simpl; [reflexivity|].
  destruct (String.eqb_spec k k0) as [->|Hne].
  - now intros [= ->].
  - intros H. now rewrite IH.
Qed.

(** [mkdir(parents=True, exist_ok=True)] on an existing directory changes
    nothing. *)
Lemma mkdir_p_existing (p : path) :
  forall (here : path) (t : node),
    kind_at t p = Some KDir -> mkdir_p here p t = inr t.
Proof.
  induction p as [|c p IH]; intros here t H.
  - destruct t as [c0|es]; [discriminate | reflexivity].
  - destruct t as [c0|es]; [discriminate|].
    rewrite kind_at_cons in H. simpl.
    destruct (assoc c es) as [child|] eqn:Ec; [|discriminate].
    rewrite (IH (here // c) child H). now rewrite set_entry_same.
Qed.

Lemma shutil_move_raise (src dst : path) (w w' : world) (e : exn) :
  shutil_move src dst w = (Raise e, w') -> w' = w.
Proof.
  unfold shutil_move.
  destruct (path_is_dir (tree w) dst && _); [now intros [= _ <-]|].
  destruct (lookup (tree w) src) as [n|]; [|now intros [= _ <-]].
  destruct (node_is_dir n && is_relative_to_path _ src);
    [now intros [= _ <-]|].
  destruct (node_is_dir n && path_exists _ _); [now intros [= _ <-]|].
  destruct (graft _ n _); [discriminate | now intros [= _ <-]].
Qed.

Lemma move_file_frame_kind (src dest_root : path) (dry : bool) (w w' : world)
  (r : result path) :
  kind_at (tree w) src <> Some KDir ->
  move_file src dest_root dry w = (r, w') ->
  forall q k, kind_at (tree w) q = Some k -> q <> src ->
              kind_at (tree w') q = Some k.
Proof.
  intros Hsrc H q k Hq Hne. rewrite move_file_unfold in H. cbv zeta in H.
  destruct (mkdir_p [] (dest_root // ext_key src) (tree w)) as [e|t1] eqn:Em.
  { now injection H as _ <-. }
  assert (Hq1 : kind_at t1 q = Some k).
  { rewrite (mkdir_p_keeps _ _ _ _ q Em); [assumption | congruence]. }
  destruct (path_eqb _ _); [now injection H as _ <-|].
  destruct (safe_destination t1 _ _) as [dest|] eqn:Es;
    [|now injection H as _ <-].
  destruct dry; [now injection H as _ <-|].
  apply safe_destination_in_bucket in Es as [Hfree [nm ->]].
  rewrite shutil_move_fresh in H by now apply path_exists_false.
  cbn [tree out] in H.
  destruct (lookup t1 src) as [n|] eqn:El; [|now injection H as _ <-].
  destruct n as [c0|es]; cbn [node_is_dir andb] in H.
  - destruct (graft _ _ _) as [t2|] eqn:Eg; [|now injection H as _ <-].
    injection H as _ <-. cbn [tree].
    rewrite (kind_at_rename_file t1 t2 src (dest_root // ext_key src // nm)
               c0 q); try assumption.
    + destruct (path_eqb_spec q (dest_root // ext_key src // nm)) as [->|_];
        [congruence|].
      destruct (path_eqb_spec q src); [contradiction | assumption].
    + now apply lookup_file.
  - assert (Hrel : is_relative_to_path (dest_root // ext_key src) src = true).
    { pose proof (kind_at_mkdir_p _ _ _ _ src Em) as Hk.
      destruct (is_relative_to_path (dest_root // ext_key src) src);
        [reflexivity|].
      exfalso. apply Hsrc. rewrite <- Hk. unfold kind_at. now rewrite El. }
    assert (Hrel' : is_relative_to_path (dest_root // ext_key src // nm) src
                    = true).
    { eapply is_relative_to_path_trans; [|exact Hrel].
      apply is_relative_to_path_app. }
    rewrite Hrel' in H. now injection H as _ <-.
Qed.

Lemma move_all_frame_kind (files : list path) (dest_root : path) (dry : bool) :
  forall (w w' : world) (r : result unit),
    NoDup files ->
    (forall p, In p files -> path_is_file (tree w) p = true) ->
    move_all files dest_root dry w = (r, w') ->
    forall q k, kind_at (tree w) q = Some k -> ~ In q files ->
                kind_at (tree w') q = Some k.
Proof.
  induction files as [|p files IH]; intros w w' r Hnd Hfiles H q k Hq Hnotin.
  - rewrite move_all_nil in H. now injection H as _ <-.
  - rewrite move_all_cons in H. inversion Hnd as [|? ? Hp Hnd']; subst.
    assert (Hpfile : kind_at (tree w) p <> Some KDir).
    { destruct (proj1 (path_is_file_true _ _) (Hfiles p (or_introl eq_refl)))
        as [cp Hcp]. congruence. }
    assert (Hqp : q <> p) by (intros ->; apply Hnotin; now left).
    destruct (move_file p dest_root dry w) as [[d|e] w1] eqn:Ep.
    + apply (IH w1 w' r); try assumption.
      * intros p' Hp'. apply path_is_file_true.
        destruct (proj1 (path_is_file_true _ _) (Hfiles p' (or_intror Hp')))
          as [c' Hc'].
        exists c'. apply (move_file_frame _ _ _ _ _ _ Hpfile Ep); [assumption|].
        intros ->. contradiction.
      * now apply (move_file_frame_kind _ _ _ _ _ _ Hpfile Ep).
      * intros Hin. apply Hnotin. now right.
    + injection H as _ <-.
      now apply (move_file_frame_kind _ _ _ _ _ _ Hpfile Ep).
Qed.

(** ** A failed move *)

(** In this world every failure of [move_file] comes before a change to a
    regular file (see [shutil_move]); the lemma serves the case analysis of
    a live call below. *)
Lemma move_file_raise_same_files (src dest_root : path) (dry : bool)
  (w w' : world) (e : exn) :
  move_file src dest_root dry w = (Raise e, w') ->
  forall q c, kind_at (tree w') q = Some (KFile c)
              <-> kind_at (tree w) q = Some (KFile c).
Proof.
  intros H q c. rewrite move_file_unfold in H. cbv zeta in H.
  destruct (mkdir_p [] (dest_root // ext_key src) (tree w)) as [e'|t1] eqn:Em.
  { now injection H as _ <-. }
  pose proof (mkdir_p_same_files _ _ _ _ q c Em) as Hmk.
  destruct (path_eqb _ _); [discriminate|].
  destruct (safe_destination t1 _ _) as [dest|] eqn:Es;
    [|now injection H as _ <-].
  destruct dry; [discriminate|].
  destruct (shutil_move src dest _) as [[d|e'] w2] eqn:Emv; [discriminate|].
  injection H as _ <-. apply shutil_move_raise in Emv. now subst w2.
Qed.

(** ** The report of a run *)

Lemma resolve_join (d : path) (nm : string) :
  resolve (d // nm) = resolve_step (resolve d) nm.
Proof. unfold joinpath. now rewrite resolve_app. Qed.

(** A candidate never lies in its own bucket, as [move_file] tests it. *)
Lemma candidate_not_grouped (t : node) (root dest_root : path) (id ic : bool)
  (ce : option (list string)) (p : path) :
  canonical dest_root = true ->
  In p (iter_files t root dest_root id ic ce) ->
  path_eqb (resolve (path_parent p)) (resolve (dest_root // ext_key p)) = false.
Proof.
  intros Hdest Hp. apply iter_files_In in Hp as [x [nm [_ [_ [-> Hy]]]]].
  apply yields_true in Hy. destruct Hy as [_ [_ [_ [Hsep [Hin _]]]]].
  rewrite path_parent_join, ext_key_join.
  rewrite (resolve_canonical _ Hdest) in *.
  destruct (path_eqb dest_root (resolve root)); [exact Hin|].
  cbn [negb andb] in Hsep.
  apply path_eqb_neq. intros E.
  assert (Hb : canonical (dest_root // ext_of_name nm) = true)
    by now rewrite canonical_join, Hdest, valid_name_ext.
  rewrite (resolve_canonical _ Hb) in E.
  rewrite resolve_join, E in Hsep. unfold resolve_step in Hsep.
  destruct ((nm =? "") || (nm =? ".")).
  - unfold joinpath in Hsep. now rewrite is_relative_to_path_app in Hsep.
  - destruct (nm =? "..").
    + unfold joinpath in Hsep.
      now rewrite removelast_last, is_relative_to_path_refl in Hsep.
    + unfold joinpath in Hsep.
      now rewrite <- app_assoc, is_relative_to_path_app in Hsep.
Qed.

Lemma move_file_report (src dest_root : path) (dry : bool) (w w1 : world)
  (r : result path) :
  path_eqb (resolve (path_parent src)) (resolve (dest_root // ext_key src))
  = false ->
  move_file src dest_root dry w = (r, w1) ->
  (exists d, r = Ok d
             /\ exists l, out w1 = out w ++ [l] /\ reports dest_root dry src l)
  \/ (exists e, r = Raise e
                /\ (out w1 = out w
                    \/ exists l, out w1 = out w ++ [l]
                                 /\ reports dest_root dry src l)).
Proof.
  intros Hng H. rewrite move_file_unfold in H. cbv zeta in H.
  destruct (mkdir_p [] (dest_root // ext_key src) (tree w)) as [e|t1] eqn:Em.
  { injection H as <- <-. right. exists e. split; [reflexivity | now left]. }
  rewrite Hng in H.
  destruct (safe_destination_total t1 (dest_root // ext_key src)
              (path_name src)) as [dest Es].
  rewrite Es in H.
  apply safe_destination_in_bucket in Es as [_ [nm ->]].
  assert (Hrep : reports dest_root dry src
                   (if dry then DryRun src (dest_root // ext_key src // nm)
                    else Moving src (dest_root // ext_key src // nm))).
  { eexists. split; [reflexivity | apply path_parent_join]. }
  destruct dry.
  - injection H as <- <-. left. eexists. split; [reflexivity|].
    eexists. split; [reflexivity | exact Hrep].
  - destruct (shutil_move src _ _) as [[d|e] w2] eqn:Emv;
      apply shutil_move_out in Emv; cbn [out] in Emv; injection H as <- <-.
    + left. eexists. split; [reflexivity|].
      eexists. split; [exact Emv | exact Hrep].
    + right. exists e. split; [reflexivity|]. right.
      eexists. split; [exact Emv | exact Hrep].
Qed.

(** One line per candidate, in order; an exception cuts the list short. *)
Lemma move_all_report (files : list path) (dest_root : path) (dry : bool) :
  forall (w w' : world) (r : result unit),
    (forall p, In p files ->
       path_eqb (resolve (path_parent p)) (resolve (dest_root // ext_key p))
       = false) ->
    move_all files dest_root dry w = (r, w') ->
    exists lines,
      out w' = out w ++ lines
      /\ (r = Ok tt -> Forall2 (reports dest_root dry) files lines)
      /\ (forall l, In l lines ->
            exists p, In p files /\ reports dest_root dry p l).
Proof.
  induction files as [|p files IH]; intros w w' r Hng H.
  - rewrite move_all_nil in H. injection H as <- <-. exists [].
    rewrite app_nil_r. split; [reflexivity|]. split; [constructor|].
    intros l [].
  - rewrite move_all_cons in H.
    destruct (move_file p dest_root dry w) as [r1 w1] eqn:Ep.
    destruct (move_file_report _ _ _ _ _ _ (Hng p (or_introl eq_refl)) Ep)
      as [[d [-> [l [Hout Hrep]]]]|[e [-> Hout]]].
    + apply IH in H as [lines [Hout' [Hok Hall]]];
        [|intros p' Hp'; apply Hng; now right].
      exists (l :: lines). rewrite Hout', Hout, <- app_assoc.
      split; [reflexivity|]. split.
      * intros Hr. constructor; [assumption | now apply Hok].
      * intros l' [<-|Hl'].
        -- exists p. split; [now left | assumption].
        -- destruct (Hall l' Hl') as [p' [Hp' Hr']]. exists p'.
           split; [now right | assumption].
    + injection H as <- <-.
      destruct Hout as [Hout|[l [Hout Hrep]]].
      * exists []. rewrite app_nil_r. split; [assumption|].
        split; [discriminate | intros l []].
      * exists [l]. split; [assumption|]. split; [discriminate|].
        intros l' [<-|[]]. exists p. split; [now left | assumption].
Qed.

(** X1.  [sort_files] never prints "Skipping (already grouped)": the
    filters of [iter_files] leave no candidate for which [move_file] takes
    that branch. *)
Theorem sort_files_never_skips (config : SortConfig) (t : node) (p : path) :
  ~ In (Skipping p) (out (snd (sort_files config (World t [])))).
Proof.
  rewrite sort_files_unfold. cbv zeta. cbn [tree out].
  destruct (negb _ || negb _); [intros []|].
  destruct (mkdir_p [] (destination_root config) t) as [e|t1]; [intros []|].
  remember (iter_files t1 (root_path config) (destination_root config)
              (include_dotfiles config) (include_code config) None)
    as files eqn:Ef.
  assert (Hng : forall q, In q files ->
            path_eqb (resolve (path_parent q))
              (resolve (destination_root config // ext_key q)) = false).
  { subst files. intros q.
    apply candidate_not_grouped, destination_root_canonical. }
  clear Ef. destruct files as [|p0 files].
  { cbn [snd out]. intros [E|[]]. discriminate. }
  set (w2 := World t1 _).
  destruct (move_all (p0 :: files) _ _ w2) as [r3 w3] eqn:Eall.
  destruct (move_all_report _ _ _ _ _ _ Hng Eall) as [lines [Hout [_ Hall]]].
  assert (Hw3 : ~ In (Skipping p) (out w3)).
  { rewrite Hout. unfold w2. cbn [out]. intros Hin.
    apply in_app_or in Hin as [Hin|Hin].
    - destruct (negb _ && negb _); [|contradiction].
      destruct Hin as [E|[]]. discriminate.
    - destruct (Hall _ Hin) as [q [_ [d [E _]]]].
      destruct (dry_run config); discriminate. }
  destruct r3 as [u|e]; cbn [snd out]; [|exact Hw3].
  intros Hin. apply in_app_or in Hin as [Hin|[E|[E|[]]]];
    try discriminate. now apply Hw3.
Qed.

(** X2.  A run that ends normally returns the candidates [iter_files]
    found after the destination root was created.  Without candidates it
    prints one line; otherwise it prints the announcement (live and not
    interactive only), then exactly one line per returned file, in the
    order of the list, each naming a target directly in the bucket of that
    file's extension, then the two closing lines. *)
Theorem sort_files_report (config : SortConfig) (t : node)
  (files : list path) (w' : world) :
  sort_files config (World t []) = (Ok files, w') ->
  (exists t1,
      mkdir_p [] (destination_root config) t = inr t1
      /\ files = iter_files t1 (root_path config) (destination_root config)
                   (include_dotfiles config) (include_code config) None)
  /\ (files = [] -> out w' = [NoFiles])
  /\ (files <> [] ->
      exists lines,
        out w'
        = (if negb (dry_run config) && negb (interactive config)
           then [AboutToMove (List.length files)] else [])
          ++ lines
          ++ [Done (dry_run config); DestinationIs (destination_root config)]
        /\ Forall2 (reports (destination_root config) (dry_run config))
             files lines).
Proof.
  intros H. rewrite sort_files_unfold in H. cbv zeta in H.
  cbn [tree out] in H.
  destruct (negb _ || negb _); [discriminate|].
  destruct (mkdir_p [] (destination_root config) t) as [e|t1] eqn:Em;
    [discriminate|].
  remember (iter_files t1 (root_path config) (destination_root config)
              (include_dotfiles config) (include_code config) None)
    as cands eqn:Ef.
  assert (Hng : forall q, In q cands ->
            path_eqb (resolve (path_parent q))
              (resolve (destination_root config // ext_key q)) = false).
  { subst cands. intros q.
    apply candidate_not_grouped, destination_root_canonical. }
  destruct cands as [|p0 cands].
  { injection H as <- <-. split; [exists t1; now split|].
    split; [reflexivity | congruence]. }
  set (w2 := World t1 _) in H.
  destruct (move_all (p0 :: cands) _ _ w2) as [[u|e] w3] eqn:Eall;
    [|discriminate].
  injection H as <- <-. split; [exists t1; now split|].
  split; [discriminate|]. intros _.
  destruct (move_all_report _ _ _ _ _ _ Hng Eall) as [lines [Hout [Hok _]]].
  exists lines. cbn [out]. rewrite Hout. unfold w2. cbn [out].
  rewrite <- app_assoc. split; [reflexivity|].
  apply Hok. now destruct u.
Qed.

Lemma sort_files_report_witness :
  let w' := Ex.after Ex.cfg_default Ex.home in
  exists lines,
    out w' = [AboutToMove 6] ++ lines
             ++ [Done false; DestinationIs Ex.dest]
    /\ List.length lines = 6.
Proof.
  intros w'.
  assert (Hrun : sort_files Ex.cfg_default (World Ex.home [])
                 = (Ok [["r"; "a.txt"]; ["r"; "b.TXT"]; ["r"; "x.txt"];
                        ["r"; "sub"; "x.txt"]; ["r"; "sub"; "todo"];
                        ["r"; "sorted_by_extension_old"; "old.txt"]], w'))
    by (vm_compute; reflexivity).
  destruct (proj2 (proj2 (sort_files_report _ _ _ _ Hrun)))
    as [lines [Hout Hshape]]; [discriminate|].
  exists lines. split; [exact Hout|].
  apply Forall2_length in Hshape. now rewrite <- Hshape.
Defined.

(** ** A live step on a regular file, case by case *)

Lemma move_file_live_cases (src dest_root : path) (w w1 : world)
  (r : result path) (c0 : content) :
  kind_at (tree w) src = Some (KFile c0) ->
  move_file src dest_root false w = (r, w1) ->
  (* it failed: the files are as before *)
  (exists e, r = Raise e
     /\ forall q c, kind_at (tree w1) q = Some (KFile c)
                    <-> kind_at (tree w) q = Some (KFile c))
  (* it was already grouped: the files are as before *)
  \/ (r = Ok src
      /\ path_eqb (resolve (path_parent src))
           (resolve (dest_root // ext_key src)) = true
      /\ forall q c, kind_at (tree w1) q = Some (KFile c)
                     <-> kind_at (tree w) q = Some (KFile c))
  (* it was moved to a fresh path of its bucket *)
  \/ (exists d,
        r = Ok d
        /\ out w1 = out w ++ [Moving src d]
        /\ path_parent d = dest_root // ext_key src
        /\ kind_at (tree w) d = None
        /\ forall q c,
             kind_at (tree w1) q = Some (KFile c)
             <-> (q = d /\ c = c0)
                 \/ (q <> src /\ kind_at (tree w) q = Some (KFile c))).
Proof.
  intros Hsrc H.
  destruct r as [d|e].
  2:{ left. exists e. split; [reflexivity|].
      now apply (move_file_raise_same_files _ _ _ _ _ _ H). }
  rewrite move_file_unfold in H. cbv zeta in H.
  destruct (mkdir_p [] (dest_root // ext_key src) (tree w)) as [e|t1] eqn:Em;
    [discriminate|].
  assert (Hmk : forall q c, kind_at t1 q = Some (KFile c)
                            <-> kind_at (tree w) q = Some (KFile c))
    by (intros q c; apply (mkdir_p_same_files _ _ _ _ q c Em)).
  destruct (path_eqb (resolve (path_parent src))
              (resolve (dest_root // ext_key src))) eqn:Eg.
  { injection H as <- <-. right. left. cbn [tree]. auto. }
  right. right.
  destruct (safe_destination t1 _ _) as [dest|] eqn:Es; [|discriminate].
  apply safe_destination_in_bucket in Es as [Hfree [nm ->]].
  rewrite shutil_move_fresh in H by now apply path_exists_false.
  cbn [tree out] in H.
  assert (Hsrc1 : kind_at t1 src = Some (KFile c0)) by now apply Hmk.
  rewrite (proj1 (lookup_file _ _ _) Hsrc1) in H.
  cbn [node_is_dir andb] in H.
  destruct (graft _ _ _) as [t2|] eqn:Egr; [|discriminate].
  injection H as <- <-. cbn [tree out].
  exists (dest_root // ext_key src // nm).
  split; [reflexivity|]. split; [reflexivity|].
  split; [apply path_parent_join|].
  split; [now apply (mkdir_p_absent _ _ _ _ _ Em)|].
  intros q c.
  rewrite (kind_at_rename_file t1 t2 src (dest_root // ext_key src // nm)
             c0 q) by assumption.
  destruct (path_eqb_spec q (dest_root // ext_key src // nm)) as [->|Hqd].
  - split.
    + intros [= <-]. now left.
    + intros [[_ ->]|[_ Hq]]; [reflexivity|].
      apply Hmk in Hq. congruence.
  - destruct (path_eqb_spec q src) as [->|Hqs].
    + split; [discriminate|]. intros [[E _]|[E _]]; contradiction.
    + rewrite Hmk. split; [intros Hq; right; now split|].
      intros [[E _]|[_ Hq]]; [contradiction | assumption].
Qed.

Lemma move_all_out_incl (files : list path) (dest_root : path) (dry : bool)
  (w w' : world) (r : result unit) (l : line) :
  move_all files dest_root dry w = (r, w') -> In l (out w) -> In l (out w').
Proof.
  intros H Hl. apply move_all_lines in H as [lines [-> _]].
  apply in_or_app. now left.
Qed.

(** Whatever the outcome of the loop, no content is lost: a regular file
    is where it was, or where the printed move put it. *)
Lemma move_all_live_no_loss (files : list path) (dest_root : path) :
  forall (w w' : world) (r : result unit),
    NoDup files ->
    (forall p, In p files -> path_is_file (tree w) p = true) ->
    move_all files dest_root false w = (r, w') ->
    forall q c, kind_at (tree w) q = Some (KFile c) ->
      kind_at (tree w') q = Some (KFile c)
      \/ exists d, In (Moving q d) (out w')
                   /\ kind_at (tree w') d = Some (KFile c).
Proof.
  induction files as [|p0 files IH]; intros w w' r Hnd Hfiles H q c Hq.
  - rewrite move_all_nil in H. injection H as _ <-. now left.
  - rewrite move_all_cons in H. inversion Hnd as [|? ? Hp0 Hnd']; subst.
    destruct (proj1 (path_is_file_true _ _) (Hfiles p0 (or_introl eq_refl)))
      as [c0 Hc0].
    destruct (move_file p0 dest_root false w) as [r1 w1] eqn:Ep.
    destruct (move_file_live_cases _ _ _ _ _ _ Hc0 Ep)
      as [[e [-> Hsame]]|[[-> [_ Hsame]]|[d [-> [Hout [_ [Hfree Hnew]]]]]]].
    + injection H as _ <-. left. now apply Hsame.
    + apply (IH w1 w' r); try assumption; [|now apply Hsame].
      intros p' Hp'. apply path_is_file_true.
      destruct (proj1 (path_is_file_true _ _) (Hfiles p' (or_intror Hp')))
        as [c' Hc']. exists c'. now apply Hsame.
    + assert (Hfiles1 : forall p', In p' files ->
                                   path_is_file (tree w1) p' = true).
      { intros p' Hp'. apply path_is_file_true.
        destruct (proj1 (path_is_file_true _ _) (Hfiles p' (or_intror Hp')))
          as [c' Hc']. exists c'. apply Hnew. right. split; [|assumption].
        intros ->. contradiction. }
      destruct (path_eqb_spec q p0) as [->|Hne].
      * assert (c = c0) as -> by congruence. right. exists d. split.
        -- apply (move_all_out_incl _ _ _ _ _ _ _ H). rewrite Hout.
           apply in_or_app. right. now left.
        -- apply (move_all_frame _ _ _ _ _ _ Hnd' Hfiles1 H).
           ++ apply Hnew. now left.
           ++ intros Hd.
              destruct (proj1 (path_is_file_true _ _)
                          (Hfiles d (or_intror Hd))) as [cd Hcd].
              congruence.
      * apply (IH w1 w' r); try assumption. apply Hnew. right. now split.
Qed.

(** After a loop that ran to its end, a regular file is the target of a
    printed move, or it was there before and is no candidate that had to
    be moved. *)
Lemma move_all_live_origin (files : list path) (dest_root : path) :
  forall (w w' : world),
    NoDup files ->
    (forall p, In p files -> path_is_file (tree w) p = true) ->
    move_all files dest_root false w = (Ok tt, w') ->
    forall q c, kind_at (tree w') q = Some (KFile c) ->
      (exists p, In p files
                 /\ path_parent q = dest_root // ext_key p
                 /\ In (Moving p q) (out w'))
      \/ (kind_at (tree w) q = Some (KFile c)
          /\ (~ In q files
              \/ path_eqb (resolve (path_parent q))
                   (resolve (dest_root // ext_key q)) = true)).
Proof.
  induction files as [|p0 files IH]; intros w w' Hnd Hfiles H q c Hq.
  - rewrite move_all_nil in H. injection H as <-. right. split; [assumption|].
    left. intros [].
  - rewrite move_all_cons in H. inversion Hnd as [|? ? Hp0 Hnd']; subst.
    destruct (proj1 (path_is_file_true _ _) (Hfiles p0 (or_introl eq_refl)))
      as [c0 Hc0].
    destruct (move_file p0 dest_root false w) as [r1 w1] eqn:Ep.
    destruct (move_file_live_cases _ _ _ _ _ _ Hc0 Ep)
      as [[e [-> Hsame]]|[[-> [Hg Hsame]]|[d [-> [Hout [Hpar [Hfree Hnew]]]]]]];
      [discriminate| |].
    + assert (Hfiles1 : forall p', In p' files ->
                                   path_is_file (tree w1) p' = true).
      { intros p' Hp'. apply path_is_file_true.
        destruct (proj1 (path_is_file_true _ _) (Hfiles p' (or_intror Hp')))
          as [c' Hc']. exists c'. now apply Hsame. }
      destruct (IH w1 w' Hnd' Hfiles1 H q c Hq)
        as [[p [Hp Hrest]]|[Hq1 Hwhy]].
      * left. exists p. split; [now right | assumption].
      * right. split; [now apply Hsame|].
        destruct Hwhy as [Hnot|Hgq]; [|now right].
        destruct (path_eqb_spec q p0) as [->|Hne]; [now right|].
        left. intros [E|Hin]; [congruence | contradiction].
    + assert (Hfiles1 : forall p', In p' files ->
                                   path_is_file (tree w1) p' = true).
      { intros p' Hp'. apply path_is_file_true.
        destruct (proj1 (path_is_file_true _ _) (Hfiles p' (or_intror Hp')))
          as [c' Hc']. exists c'. apply Hnew. right. split; [|assumption].
        intros ->. contradiction. }
      destruct (IH w1 w' Hnd' Hfiles1 H q c Hq)
        as [[p [Hp Hrest]]|[Hq1 Hwhy]].
      * left. exists p. split; [now right | assumption].
      * apply Hnew in Hq1 as [[-> ->]|[Hne Hqw]].
        -- left. exists p0. split; [now left|]. split; [assumption|].
           apply (move_all_out_incl _ _ _ _ _ _ _ H). rewrite Hout.
           apply in_or_app. right. now left.
        -- right. split; [assumption|].
           destruct Hwhy as [Hnot|Hgq]; [|now right].
           left. intros [E|Hin]; [congruence | contradiction].
Qed.

Lemma move_all_dry_keeps_kinds (files : list path) (dest_root : path) :
  forall (w w' : world) (r : result unit),
    move_all files dest_root true w = (r, w') ->
    forall q k, kind_at (tree w) q = Some k -> kind_at (tree w') q = Some k.
Proof.
  induction files as [|p files IH]; intros w w' r H q k Hq.
  - rewrite move_all_nil in H. now injection H as _ <-.
  - rewrite move_all_cons in H.
    destruct (move_file p dest_root true w) as [r1 w1] eqn:Ep.
    assert (Hstep : kind_at (tree w1) q = Some k).
    { destruct (move_file_dry_tree _ _ _ _ _ Ep) as [->|Hm]; [assumption|].
      rewrite (mkdir_p_keeps _ _ _ _ q Hm); [assumption | congruence]. }
    destruct r1 as [d|e]; [now apply (IH w1 w' r) | now injection H as _ <-].
Qed.

(** X4.  A dry run, however it ends, removes nothing and touches no
    regular file: every entry that existed keeps its kind, and the regular
    files with their contents are the same before and after.  What it
    adds are directories. *)
Theorem dry_run_keeps_every_file (config : SortConfig) (t : node) :
  dry_run config = true ->
  let w' := snd (sort_files config (World t [])) in
  (forall q k, kind_at t q = Some k -> kind_at (tree w') q = Some k)
  /\ (forall q c, kind_at (tree w') q = Some (KFile c)
                  <-> kind_at t q = Some (KFile c)).
Proof.
  intros Hdry w'. split.
  - intros q k Hq. unfold w'. rewrite sort_files_unfold. cbv zeta.
    cbn [tree out].
    destruct (negb _ || negb _); [assumption|].
    destruct (mkdir_p [] (destination_root config) t) as [e|t1] eqn:Em;
      [assumption|].
    assert (Hq1 : kind_at t1 q = Some k).
    { rewrite (mkdir_p_keeps _ _ _ _ q Em); [assumption | congruence]. }
    destruct (iter_files t1 _ _ _ _ None) as [|p files]; [assumption|].
    rewrite Hdry.
    destruct (move_all (p :: files) _ true _) as [[u|e] w3] eqn:Eall;
      cbn [snd tree];
      now apply (move_all_dry_keeps_kinds _ _ _ _ _ Eall).
  - intros q c.
    apply (dry_run_moves_no_file config t
             (fst (sort_files config (World t []))) w' Hdry).
    apply surjective_pairing.
Qed.

Lemma dry_run_keeps_every_file_witness :
  dry_run Ex.cfg_dry = true
  /\ kind_at (tree (Ex.after Ex.cfg_dry Ex.home)) ["r"; "sub"; "x.txt"]
     = Some (KFile 7).
Proof.
  split; [reflexivity|].
  apply (proj1 (dry_run_keeps_every_file Ex.cfg_dry Ex.home eq_refl)
           ["r"; "sub"; "x.txt"] (KFile 7) eq_refl).
Defined.

(** X5.  No file is lost.  On a well-formed tree, however the run ends
    (normally or with an exception, live or dry), every regular file is
    still at its path with its content, or the run printed its move and
    the content is at the printed target, which lies in the bucket of the
    file's extension. *)
Theorem sort_files_loses_no_file (config : SortConfig) (t : node) :
  wf t = true ->
  let w' := snd (sort_files config (World t [])) in
  forall q c, kind_at t q = Some (KFile c) ->
    kind_at (tree w') q = Some (KFile c)
    \/ exists d, In (Moving q d) (out w')
                 /\ kind_at (tree w') d = Some (KFile c)
                 /\ path_parent d = destination_root config // ext_key q.
Proof.
  intros Hwf w' q c Hq.
  destruct (dry_run config) eqn:Hdry.
  { left.
    apply (dry_run_moves_no_file config t
             (fst (sort_files config (World t []))) w' Hdry);
      [apply surjective_pairing | assumption]. }
  unfold w'. rewrite sort_files_unfold. cbv zeta. cbn [tree out].
  destruct (negb _ || negb _); [now left|].
  destruct (mkdir_p [] (destination_root config) t) as [e|t1] eqn:Em;
    [now left|].
  assert (Hq1 : kind_at t1 q = Some (KFile c))
    by now apply (mkdir_p_keeps_file _ _ _ _ _ _ Em).
  remember (iter_files t1 (root_path config) (destination_root config)
              (include_dotfiles config) (include_code config) None)
    as files eqn:Ef.
  assert (Hnd : NoDup files).
  { subst files. apply iter_files_NoDup.
    apply (wf_mkdir_p _ _ _ _ Hwf (destination_root_canonical config) Em). }
  assert (Hfiles : forall p, In p files -> path_is_file t1 p = true)
    by (subst files; intros p; apply iter_files_is_file).
  assert (Hng : forall p, In p files ->
            path_eqb (resolve (path_parent p))
              (resolve (destination_root config // ext_key p)) = false).
  { subst files. intros p.
    apply candidate_not_grouped, destination_root_canonical. }
  clear Ef. destruct files as [|p0 files]; [now left|].
  rewrite Hdry. set (w2 := World t1 _).
  destruct (move_all (p0 :: files) _ false w2) as [r3 w3] eqn:Eall.
  assert (Hres : kind_at (tree w3) q = Some (KFile c)
                 \/ exists d, In (Moving q d) (out w3)
                      /\ kind_at (tree w3) d = Some (KFile c)
                      /\ path_parent d = destination_root config // ext_key q).
  { destruct (move_all_live_no_loss _ _ w2 _ _ Hnd Hfiles Eall q c Hq1)
      as [Hk|[d [Hin Hk]]]; [now left|].
    right. exists d. split; [assumption|]. split; [assumption|].
    destruct (move_all_report _ _ _ _ _ _ Hng Eall) as [lines [Hout [_ Hall]]].
    rewrite Hout in Hin. unfold w2 in Hin. cbn [out] in Hin.
    apply in_app_or in Hin as [Hin|Hin].
    - destruct (negb false && negb _); [|contradiction].
      destruct Hin as [E|[]]. discriminate.
    - destruct (Hall _ Hin) as [p [_ [d' [E Hpar]]]].
      injection E as <- <-. exact Hpar. }
  destruct r3 as [u|e]; cbn [snd tree out]; [|exact Hres].
  destruct Hres as [Hk|[d [Hin Hrest]]]; [now left|].
  right. exists d. split; [|assumption]. apply in_or_app. now left.
Qed.

Lemma sort_files_loses_no_file_witness :
  wf Ex.home = true
  /\ exists d,
       In (Moving ["r"; "sub"; "x.txt"] d)
          (out (Ex.after Ex.cfg_default Ex.home))
       /\ kind_at (tree (Ex.after Ex.cfg_default Ex.home)) d = Some (KFile 7).
Proof.
  split; [reflexivity|].
  destruct (sort_files_loses_no_file Ex.cfg_default Ex.home eq_refl
              ["r"; "sub"; "x.txt"] 7 eq_refl) as [Hk|[d [Hin [Hk _]]]].
  - vm_compute in Hk. discriminate.
  - exists d. split; assumption.
Defined.

(** ** The candidates, exactly *)

Lemma iter_files_resolve (t : node) (root dest_root : path) (id ic : bool)
  (ce : option (list string)) :
  iter_files t root dest_root id ic ce
  = iter_files t (resolve root) (resolve dest_root) id ic ce.
Proof. unfold iter_files. cbv zeta. now rewrite !resolve_idem. Qed.

Lemma walk_from_below (t : node) (keep : path -> string -> bool)
  (root : path) x :
  In x (walk_from t keep root) -> is_relative_to_path (dirpath x) root = true.
Proof.
  unfold walk_from. destruct (lookup t root) as [top|]; [|contradiction].
  intros Hx. apply os_walk_below in Hx as [rel ->].
  apply is_relative_to_path_app.
Qed.

(** X6.  On a well-formed tree [iter_files] yields exactly the regular
    files [d/name] with [d] at or below the resolved root that pass every
    filter: not a dotfile unless dotfiles are included, no code extension
    unless code is included, not the [readme.md] of the root itself, and,
    with a separate destination, not inside it, or, sorting in place, not
    already in the bucket of their own extension. *)
Theorem iter_files_characterisation (t : node) (root dest_root : path)
  (id ic : bool) (p : path) :
  wf t = true ->
  In p (iter_files t root dest_root id ic None)
  <-> exists d nm c,
        p = d // nm
        /\ is_relative_to_path d (resolve root) = true
        /\ kind_at t p = Some (KFile c)
        /\ negb id && PyStr.startswith_dot nm = false
        /\ negb ic
           && PyStr.mem (PyStr.lower (name_suffix nm)) DEFAULT_CODE_EXTENSIONS
           = false
        /\ ~ (d = resolve root /\ PyStr.lower nm = "readme.md")
        /\ (resolve dest_root <> resolve root ->
            is_relative_to_path p (resolve dest_root) = false)
        /\ (resolve dest_root = resolve root ->
            d <> resolve dest_root // ext_of_name nm).
Proof.
  intros Hwf. split.
  - intros Hp.
    pose proof (iter_files_canonical _ _ _ _ _ _ _ Hwf Hp) as Hcan.
    apply iter_files_In in Hp as [x [nm [Hx [_ [-> Hy]]]]].
    rewrite canonical_join in Hcan. apply andb_true_iff in Hcan as [Hd Hnm].
    apply yields_true in Hy.
    destruct Hy as [Hdot [Hcode [Hreadme [Hsep [Hin Hfile]]]]].
    rewrite (resolve_canonical _ Hd) in *.
    rewrite (resolve_canonical (dirpath x // nm)) in Hsep
      by now rewrite canonical_join, Hd, Hnm.
    rewrite (resolve_canonical (resolve dest_root // ext_of_name nm)) in Hin
      by now rewrite canonical_join, canonical_resolve, valid_name_ext.
    apply path_is_file_true in Hfile as [c Hc].
    exists (dirpath x), nm, c. split; [reflexivity|].
    split; [now apply walk_from_below in Hx|].
    split; [assumption|]. split; [assumption|]. split; [assumption|].
    split; [|split].
    + intros [E1 E2]. rewrite E1, path_eqb_refl, E2 in Hreadme. discriminate.
    + intros Hne. apply path_eqb_neq in Hne. now rewrite Hne in Hsep.
    + intros E. rewrite E, path_eqb_refl in Hin. cbn [andb] in Hin.
      apply path_eqb_neq in Hin. now rewrite E.
  - intros [d [nm [c [-> [Hd [Hc [Hdot [Hcode [Hreadme [Hsep Hin]]]]]]]]]].
    rewrite iter_files_resolve.
    apply iter_files_complete with (c := c); try assumption;
      apply canonical_resolve.
Qed.

Lemma iter_files_characterisation_witness :
  wf Ex.home = true
  /\ In ["r"; "sub"; "todo"]
        (iter_files Ex.home ["r"] Ex.dest false false None).
Proof.
  split; [reflexivity|].
  apply (proj2 (iter_files_characterisation Ex.home ["r"] Ex.dest false false
                  ["r"; "sub"; "todo"] eq_refl)).
  exists ["r"; "sub"], "todo", 8.
  repeat split; try reflexivity.
  - intros [E _]. discriminate.
  - intros E. vm_compute in E. discriminate.
Defined.

(** X7.  On a well-formed tree [iter_files] yields no path twice, so
    [sort_files] attempts each file at most once. *)
Theorem candidates_are_distinct (t : node) (root dest_root : path)
  (id ic : bool) (ce : option (list string)) :
  wf t = true -> NoDup (iter_files t root dest_root id ic ce).
Proof. apply iter_files_NoDup. Qed.

Lemma candidates_are_distinct_witness :
  wf Ex.home = true
  /\ NoDup (iter_files Ex.home ["r"] Ex.dest false false None).
Proof.
  split; [reflexivity|].
  apply (candidates_are_distinct Ex.home ["r"] Ex.dest false false None).
  reflexivity.
Defined.

(** ** Suffixes of numbered names *)

Lemma append_assoc (a b c : string) :
  ((a ++ b) ++ c)%string = (a ++ (b ++ c))%string.
Proof. induction a as [|x a IH]; simpl; [reflexivity | now rewrite IH]. Qed.

Lemma append_empty_r (a : string) : (a ++ "")%string = a.
Proof. induction a as [|x a IH]; simpl; [reflexivity | now rewrite IH]. Qed.

Lemma has_dot_append (a b : string) :
  PyStr.has_dot (a ++ b) = PyStr.has_dot a || PyStr.has_dot b.
Proof.
  induction a as [|x a IH]; simpl; [reflexivity|].
  now rewrite IH, orb_assoc.
Qed.

Lemma rfind_none_has_dot (s : string) :
  PyStr.rfind_dot s = None -> PyStr.has_dot s = false.
Proof.
  induction s as [|c s IH]; simpl; [reflexivity|].
  destruct (PyStr.rfind_dot s); [discriminate|].
  destruct (Ascii.eqb c "."); [discriminate|]. intros _. now apply IH.
Qed.

Lemma rfind_dot_append (a b : string) :
  PyStr.rfind_dot (a ++ b)
  = match PyStr.rfind_dot b with
    | Some i => Some (String.length a + i)
    | None => PyStr.rfind_dot a
    end.
Proof.
  induction a as [|x a IH]; simpl.
  - now destruct (PyStr.rfind_dot b).
  - rewrite IH. now destruct (PyStr.rfind_dot b).
Qed.

Lemma rfind_dot_split (s : string) (i : nat) :
  PyStr.rfind_dot s = Some i ->
  exists a b, s = (a ++ String "." b)%string
              /\ String.length a = i /\ PyStr.has_dot b = false.
Proof.
  revert i; induction s as [|c s IH]; intros i; simpl; [discriminate|].
  destruct (PyStr.rfind_dot s) as [j|] eqn:Ej.
  - intros [= <-]. destruct (IH j eq_refl) as [a [b [-> [Hlen Hb]]]].
    exists (String c a), b. simpl. now rewrite Hlen.
  - destruct (Ascii.eqb_spec c "."); [|discriminate].
    intros [= <-]. subst c. exists "", s. simpl.
    split; [reflexivity|]. split; [reflexivity|].
    now apply rfind_none_has_dot.
Qed.

Lemma rfind_dot_last (a b : string) :
  PyStr.has_dot b = false ->
  PyStr.rfind_dot (a ++ String "." b) = Some (String.length a).
Proof.
  intros Hb. rewrite rfind_dot_append. simpl.
  rewrite (has_dot_rfind _ Hb). simpl. now rewrite Nat.add_0_r.
Qed.

Lemma substring_all (s : string) : substring 0 (String.length s) s = s.
Proof. induction s as [|c s IH]; simpl; [reflexivity | now rewrite IH]. Qed.

Lemma substring_tail (a s : string) :
  substring (String.length a) (String.length s) (a ++ s) = s.
Proof.
  induction a as [|c a IH]; simpl; [apply substring_all | exact IH].
Qed.

Lemma substring_head (a s : string) :
  substring 0 (String.length a) (a ++ s) = a.
Proof.
  induction a as [|c a IH]; simpl; [now destruct s | now rewrite IH].
Qed.

Lemma ltb_add_r (n m : nat) : (n <? n + m)%nat = (0 <? m)%nat.
Proof.
  destruct (Nat.ltb_spec n (n + m)), (Nat.ltb_spec 0 m); try reflexivity; lia.
Qed.

(** A name whose last dot is followed by [b]: the dot opens a suffix
    exactly when something stands before it and something after it. *)
Lemma name_suffix_split (a b : string) :
  PyStr.has_dot b = false ->
  name_suffix (a ++ String "." b)
  = if ((0 <? String.length a) && (0 <? String.length b))%nat
    then String "." b else "".
Proof.
  intros Hb. unfold name_suffix. rewrite (rfind_dot_last a b Hb).
  rewrite append_length. simpl String.length.
  replace (String.length a + S (String.length b) - 1)
    with (String.length a + String.length b) by lia.
  replace (String.length a + S (String.length b) - String.length a)
    with (String.length (String "." b)) by (simpl; lia).
  rewrite substring_tail. now rewrite ltb_add_r.
Qed.

Lemma name_stem_split (a b : string) :
  PyStr.has_dot b = false ->
  name_stem (a ++ String "." b)
  = if ((0 <? String.length a) && (0 <? String.length b))%nat
    then a else (a ++ String "." b)%string.
Proof.
  intros Hb. unfold name_stem. rewrite (rfind_dot_last a b Hb).
  rewrite append_length. simpl String.length.
  replace (String.length a + S (String.length b) - 1)
    with (String.length a + String.length b) by lia.
  rewrite substring_head. now rewrite ltb_add_r.
Qed.

Lemma name_suffix_no_dot (s : string) :
  PyStr.has_dot s = false -> name_suffix s = "".
Proof. intros H. unfold name_suffix. now rewrite (has_dot_rfind _ H). Qed.

Lemma name_stem_no_dot (s : string) :
  PyStr.has_dot s = false -> name_stem s = s.
Proof. intros H. unfold name_stem. now rewrite (has_dot_rfind _ H). Qed.

Lemma has_dot_digits (d : Decimal.uint) :
  PyStr.has_dot (NilEmpty.string_of_uint d) = false.
Proof. induction d; simpl; auto. Qed.

Lemma has_dot_counter (n : nat) :
  PyStr.has_dot (" (" ++ PyStr.str_of_nat n ++ ")") = false.
Proof.
  unfold PyStr.str_of_nat. simpl. rewrite has_dot_append, has_dot_digits.
  reflexivity.
Qed.

Lemma endswith_dot_append (a : string) (c : ascii) (b : string) :
  endswith_dot (a ++ String c b) = endswith_dot (String c b).
Proof.
  induction a as [|x a IH]; [reflexivity|].
  simpl append. simpl endswith_dot at 1.
  destruct (a ++ String c b)%string eqn:E; [now destruct a|].
  exact IH.
Qed.

Lemma endswith_dot_no_dot (s : string) :
  PyStr.has_dot s = false -> endswith_dot s = false.
Proof.
  induction s as [|c s IH]; [reflexivity|].
  simpl PyStr.has_dot. rewrite orb_false_iff. intros [Hc Hs].
  simpl. destruct s; [assumption | now apply IH].
Qed.

Lemma bumped_name_counter (nm : string) (n : nat) :
  bumped_name nm n
  = (name_stem nm ++ (" (" ++ PyStr.str_of_nat n ++ ")") ++ name_suffix nm)%string.
Proof.
  unfold bumped_name. simpl. now rewrite append_assoc.
Qed.

Lemma name_suffix_bumped (nm : string) (n : nat) :
  name_suffix (bumped_name nm n)
  = if endswith_dot nm && negb (nm =? ".")
    then ("." ++ " (" ++ PyStr.str_of_nat n ++ ")")%string
    else name_suffix nm.
Proof.
  rewrite bumped_name_counter.
  pose proof (has_dot_counter n) as Hk.
  set (k := (" (" ++ PyStr.str_of_nat n ++ ")")%string) in *.
  assert (Hklen : (0 <? String.length k)%nat = true) by reflexivity.
  destruct (PyStr.rfind_dot nm) as [i|] eqn:Ei.
  - destruct (rfind_dot_split _ _ Ei) as [a [b [-> [_ Hb]]]].
    rewrite (name_stem_split a b Hb), (name_suffix_split a b Hb).
    rewrite endswith_dot_append.
    destruct b as [|c b].
    + (* the name ends in a dot *)
      rewrite andb_false_r. rewrite append_empty_r.
      rewrite append_assoc. simpl append at 2.
      rewrite (name_suffix_split a k Hk), Hklen.
      destruct a as [|x a]; [reflexivity|]. simpl.
      destruct (Ascii.eqb x "."); destruct a; reflexivity.
    + (* a dot inside the name *)
      assert (Hends : endswith_dot (String "." (String c b)) = false).
      { change (endswith_dot (String c b) = false).
        now apply endswith_dot_no_dot. }
      rewrite Hends. cbn [andb].
      destruct a as [|x a].
      * simpl String.length. cbn [Nat.ltb Nat.leb andb].
        rewrite append_empty_r. simpl append at 1.
        change (name_suffix ("" ++ String "." (String c b ++ k)) = "").
        rewrite name_suffix_split; [reflexivity|].
        now rewrite has_dot_append, Hb, Hk.
      * simpl String.length. cbn [Nat.ltb Nat.leb andb].
        rewrite <- append_assoc.
        rewrite (name_suffix_split _ (String c b) Hb).
        rewrite append_length. reflexivity.
  - pose proof (rfind_none_has_dot _ Ei) as Hnm.
    rewrite (endswith_dot_no_dot _ Hnm). cbn [andb].
    rewrite (name_stem_no_dot _ Hnm), (name_suffix_no_dot _ Hnm).
    rewrite append_empty_r. apply name_suffix_no_dot.
    now rewrite has_dot_append, Hnm, Hk.
Qed.

(** X8.  The numbered name [safe_destination] makes up keeps the suffix
    of the original name, with one exception: a name that ends in a dot
    (and is not just a dot) has no suffix, and its numbered variant gets
    the suffix [. (n)]. *)
Theorem bumped_name_suffix (nm : string) (n : nat) :
  name_suffix (bumped_name nm n)
  = if endswith_dot nm && negb (nm =? ".")
    then ("." ++ " (" ++ PyStr.str_of_nat n ++ ")")%string
    else name_suffix nm.
Proof. apply name_suffix_bumped. Qed.

(** ** A second pass in place *)

Lemma move_all_targets (files : list path) (dest_root : path) (dry : bool) :
  forall (w w' : world) (r : result unit),
    move_all files dest_root dry w = (r, w') ->
    exists lines,
      out w' = out w ++ lines
      /\ forall src d, In (Moving src d) lines ->
           exists t1, safe_destination t1 (dest_root // ext_key src)
                        (path_name src) = Some d.
Proof.
  induction files as [|p files IH]; intros w w' r H.
  - rewrite move_all_nil in H. injection H as _ <-. exists [].
    rewrite app_nil_r. split; [reflexivity | intros src d []].
  - rewrite move_all_cons in H.
    destruct (move_file p dest_root dry w) as [r1 w1] eqn:Ep.
    destruct (move_file_lines _ _ _ _ _ _ Ep) as [l1 [E1 H1]].
    assert (Hl1 : forall src d, In (Moving src d) l1 ->
              exists t1, safe_destination t1 (dest_root // ext_key src)
                           (path_name src) = Some d).
    { intros src d Hin. destruct (H1 _ Hin) as [E|[d' [E [t1 [_ Hs]]]]];
        [discriminate|].
      destruct dry; [discriminate|]. injection E as -> ->. now exists t1. }
    destruct r1 as [d1|e].
    + apply IH in H as [l2 [E2 H2]]. exists (l1 ++ l2).
      rewrite E2, E1, app_assoc. split; [reflexivity|].
      intros src d Hin. apply in_app_or in Hin as [Hin|Hin]; auto.
    + injection H as _ <-. exists l1. split; assumption.
Qed.

(** A target keeps the extension key of its source, unless the source's
    name ends in a dot. *)
Lemma target_keeps_ext_key (t1 : node) (dest_dir : path) (src d : path) :
  endswith_dot (path_name src) = false ->
  safe_destination t1 dest_dir (path_name src) = Some d ->
  ext_key d = ext_key src.
Proof.
  intros Hend Hs. apply safe_destination_first_free in Hs as [_ Hcases].
  destruct Hcases as [[_ ->]|[_ [n [_ [-> _]]]]]; rewrite ext_key_join.
  - reflexivity.
  - unfold ext_key, ext_of_name. now rewrite name_suffix_bumped, Hend.
Qed.

Lemma no_member_nil {A} (l : list A) : (forall x, ~ In x l) -> l = [].
Proof.
  destruct l as [|x l]; [reflexivity|]. intros H. exfalso. apply (H x).
  now left.
Qed.

(** After a live pass in place that ran to its end, [iter_files] finds
    nothing more, provided no candidate's name ended in a dot. *)
Lemma second_walk_is_empty (t1 : node) (R : path) (id ic : bool)
  (w2 w3 : world) :
  wf t1 = true -> canonical R = true ->
  tree w2 = t1 ->
  (forall src d, ~ In (Moving src d) (out w2)) ->
  (forall p, In p (iter_files t1 R R id ic None) ->
             endswith_dot (path_name p) = false) ->
  move_all (iter_files t1 R R id ic None) R false w2 = (Ok tt, w3) ->
  iter_files (tree w3) R R id ic None = [].
Proof.
  intros Hwf HR Hw2 Hquiet Hnames Hall.
  apply no_member_nil. intros p Hp.
  pose proof (iter_files_NoDup t1 R R id ic None Hwf) as Hnd.
  assert (Hfiles : forall q, In q (iter_files t1 R R id ic None) ->
                             path_is_file (tree w2) q = true).
  { rewrite Hw2. intros q. apply iter_files_is_file. }
  apply iter_files_In in Hp as [x [nm [Hx [_ [-> Hy]]]]].
  apply walk_from_below in Hx. rewrite (resolve_canonical R HR) in *.
  set (d := dirpath x) in *.
  apply yields_true in Hy.
  destruct Hy as [Hdot [Hcode [Hreadme [_ [Hin Hfile]]]]].
  rewrite path_eqb_refl in Hin. cbn [andb] in Hin.
  apply path_is_file_true in Hfile as [c Hc].
  destruct (move_all_live_origin _ _ _ _ Hnd Hfiles Hall _ _ Hc)
    as [[p0 [Hp0 [Hpar Hline]]]|[Hold Hwhy]].
  - (* a file the first pass put there *)
    destruct (move_all_targets _ _ _ _ _ _ Hall) as [lines [Hout Htargets]].
    rewrite Hout in Hline. apply in_app_or in Hline as [Hline|Hline];
      [now apply Hquiet in Hline|].
    destruct (Htargets _ _ Hline) as [tk Hs].
    apply (target_keeps_ext_key _ _ _ _ (Hnames p0 Hp0)) in Hs.
    rewrite ext_key_join in Hs. rewrite path_parent_join, <- Hs in Hpar.
    rewrite Hpar, path_eqb_refl in Hin. discriminate.
  - (* a file the first pass left alone *)
    rewrite Hw2 in Hold.
    destruct Hwhy as [Hnot|Hgrouped].
    + apply Hnot.
      assert (Hcan : canonical (d // nm) = true).
      { apply lookup_file in Hold. now apply (wf_lookup _ _ _ Hwf) in Hold. }
      rewrite canonical_join in Hcan. apply andb_true_iff in Hcan as [Hd Hnm].
      rewrite (resolve_canonical _ Hd) in *.
      rewrite (resolve_canonical (R // ext_of_name nm)) in Hin
        by now rewrite canonical_join, HR, valid_name_ext.
      apply iter_files_complete with (c := c); try assumption.
      * intros [E1 E2]. rewrite E1, path_eqb_refl, E2 in Hreadme.
        discriminate.
      * intros E. now contradiction E.
      * intros _. now apply path_eqb_neq.
    + rewrite path_parent_join, ext_key_join in Hgrouped. congruence.
Qed.

(** X9.  Sorting in place is idempotent as long as no moved file's name
    ends in a dot: after a live pass that ran to its end on a well-formed
    tree, a second pass finds no candidate, prints that there is nothing
    to process and leaves the tree as it is. *)
Theorem second_in_place_pass_finds_nothing (config : SortConfig) (t : node)
  (files : list path) (w' : world) :
  wf t = true ->
  dry_run config = false ->
  destination_root config = root_path config ->
  sort_files config (World t []) = (Ok files, w') ->
  (forall p, In p files -> endswith_dot (path_name p) = false) ->
  sort_files config (World (tree w') []) = (Ok [], World (tree w') [NoFiles]).
Proof.
  intros Hwf Hlive Hplace H Hnames.
  pose proof (root_path_canonical config) as HR.
  rewrite sort_files_unfold in H. cbv zeta in H. cbn [tree out] in H.
  rewrite Hplace in H.
  destruct (path_is_dir t (root_path config)) eqn:Erootdir;
    [|rewrite orb_true_r in H; discriminate].
  destruct (negb _ || negb _); [discriminate|].
  destruct (mkdir_p [] (root_path config) t) as [e|t1] eqn:Em; [discriminate|].
  assert (Hwf1 : wf t1 = true) by apply (wf_mkdir_p _ _ _ _ Hwf HR Em).
  assert (Hroot1 : kind_at t1 (root_path config) = Some KDir)
    by apply (mkdir_p_makes_dir _ _ _ _ Em).
  (* what a second pass does on a tree with the root in place and no
     candidate *)
  assert (Hsecond : forall tw,
            kind_at tw (root_path config) = Some KDir ->
            iter_files tw (root_path config) (root_path config)
              (include_dotfiles config) (include_code config) None = [] ->
            sort_files config (World tw [])
            = (Ok [], World tw [NoFiles])).
  { intros tw Hdir Hnone. rewrite sort_files_unfold. cbv zeta.
    cbn [tree out]. rewrite Hplace.
    unfold path_exists, path_is_dir. rewrite Hdir. cbn [negb orb].
    rewrite (mkdir_p_existing _ [] tw Hdir). now rewrite Hnone. }
  remember (iter_files t1 (root_path config) (root_path config)
              (include_dotfiles config) (include_code config) None)
    as cands eqn:Ec.
  destruct cands as [|p0 cands].
  { injection H as _ <-. cbn [tree]. apply Hsecond; [assumption | now symmetry]. }
  set (w2 := World t1 _) in H.
  destruct (move_all (p0 :: cands) _ _ w2) as [[u|e] w3] eqn:Eall;
    [|discriminate].
  injection H as <- <-. cbn [tree]. destruct u. rewrite Hlive in Eall.
  assert (Hcandfile : forall q, In q (p0 :: cands) ->
                                path_is_file (tree w2) q = true).
  { rewrite Ec. intros q. apply iter_files_is_file. }
  assert (Hnd : NoDup (p0 :: cands))
    by (rewrite Ec; now apply iter_files_NoDup).
  apply Hsecond.
  - apply (move_all_frame_kind _ _ _ w2 _ _ Hnd Hcandfile Eall);
      [exact Hroot1|].
    intros Hin. apply Hcandfile, path_is_file_true in Hin as [c Hc].
    cbn [tree] in Hc. unfold w2 in Hc. cbn [tree] in Hc. congruence.
  - rewrite Ec in Eall, Hnames.
    apply (second_walk_is_empty t1 (root_path config) _ _ w2 w3);
      try assumption; [reflexivity|].
    intros src d Hin. unfold w2 in Hin. cbn [out] in Hin.
    destruct (negb _ && negb _); [|contradiction].
    destruct Hin as [E|[]]. discriminate.
Qed.

Lemma second_in_place_pass_finds_nothing_witness :
  let first := sort_files Ex.cfg_in_place (World Ex.home []) in
  wf Ex.home = true
  /\ destination_root Ex.cfg_in_place = root_path Ex.cfg_in_place
  /\ Ex.second_pass Ex.cfg_in_place Ex.home
     = (Ok [], World (tree (snd first)) [NoFiles]).
Proof.
  intros first. split; [reflexivity|]. split; [reflexivity|].
  assert (Hrun : first
                 = (Ok [["r"; "a.txt"]; ["r"; "b.TXT"]; ["r"; "x.txt"];
                        ["r"; "sub"; "x.txt"]; ["r"; "sub"; "todo"];
                        ["r"; "sorted_by_extension_old"; "old.txt"]],
                    snd first))
    by (vm_compute; reflexivity).
  apply (second_in_place_pass_finds_nothing Ex.cfg_in_place Ex.home _
           (snd first) eq_refl eq_refl eq_refl Hrun).
  intros p Hp. repeat (destruct Hp as [<-|Hp]; [reflexivity|]).
  destruct Hp.
Defined.

(* ================================================================== *)
(** * Properties of [interactive.py] *)

(** ** The summary of extensions *)

Lemma dict_total_incr (k k' : string) (counts : counts_dict) :
  dict_total k' (dict_incr k counts)
  = (if String.eqb k' k then 1 else 0) + dict_total k' counts.
Proof.
  unfold dict_total. induction counts as [|[k0 v0] counts IH]; simpl.
  - now destruct (String.eqb k' k).
  - destruct (String.eqb_spec k k0) as [->|Hk]; simpl.
    + destruct (String.eqb_spec k' k0); [lia | reflexivity].
    + destruct (String.eqb_spec k' k0) as [->|Hk'].
      * destruct (String.eqb_spec k0 k); [congruence | reflexivity].
      * exact IH.
Qed.

Lemma map_fst_dict_incr (k : string) (counts : counts_dict) :
  map fst (dict_incr k counts)
  = if PyStr.mem k (map fst counts) then map fst counts
    else map fst counts ++ [k].
Proof.
  induction counts as [|[k0 v0] counts IH]; simpl; [reflexivity|].
  destruct (String.eqb k k0); simpl; [reflexivity|].
  rewrite IH. unfold PyStr.mem. now destruct (existsb _ _).
Qed.

Lemma dict_incr_NoDup (k : string) (counts : counts_dict) :
  NoDup (map fst counts) -> NoDup (map fst (dict_incr k counts)).
Proof.
  intros H. rewrite map_fst_dict_incr.
  destruct (PyStr.mem k (map fst counts)) eqn:E; [assumption|].
  apply NoDup_app; [assumption | repeat constructor; intros [] |].
  intros a Ha [<-|[]]. apply mem_In in Ha. congruence.
Qed.

Lemma dict_incr_positive (k : string) (counts : counts_dict) :
  Forall (fun kv => 0 < snd kv) counts ->
  Forall (fun kv => 0 < snd kv) (dict_incr k counts).
Proof.
  induction 1 as [|[k0 v0] counts Hv Hall IH]; simpl.
  - repeat constructor.
  - destruct (String.eqb k k0); constructor; simpl in *; auto; lia.
Qed.

Lemma dict_incr_sum (k : string) (counts : counts_dict) :
  list_sum (map snd (dict_incr k counts)) = S (list_sum (map snd counts)).
Proof.
  induction counts as [|[k0 v0] counts IH]; simpl; [reflexivity|].
  destruct (String.eqb k k0); simpl; [lia | rewrite IH; lia].
Qed.

Lemma dict_get_In (k : string) (v : nat) (counts : counts_dict) :
  NoDup (map fst counts) ->
  In (k, v) counts <-> dict_get k counts = Some v.
Proof.
  induction counts as [|[k0 v0] counts IH]; simpl; intros Hnd.
  - split; [contradiction | discriminate].
  - inversion Hnd as [|? ? Hk0 Hnd']; subst.
    destruct (String.eqb_spec k k0) as [->|Hne].
    + split.
      * intros [E|Hin]; [congruence|].
        exfalso. apply Hk0. now apply (in_map fst) in Hin.
      * intros [= ->]. now left.
    + rewrite <- (IH Hnd'). split; [intros [E|Hin]; congruence | now right].
Qed.

Lemma files_with_key_cons (k : string) (p : path) (files : list path) :
  files_with_key k (p :: files)
  = (if String.eqb k (ext_key p) then 1 else 0) + files_with_key k files.
Proof.
  unfold files_with_key. simpl. rewrite (String.eqb_sym (ext_key p) k).
  now destruct (String.eqb k (ext_key p)).
Qed.

(** The counting loop. *)
Lemma counting_loop (files : list path) :
  forall counts : counts_dict,
    NoDup (map fst counts) ->
    Forall (fun kv => 0 < snd kv) counts ->
    let counts' :=
      fold_left (fun counts path => dict_incr (ext_key path) counts)
        files counts in
    NoDup (map fst counts')
    /\ Forall (fun kv => 0 < snd kv) counts'
    /\ list_sum (map snd counts')
       = list_sum (map snd counts) + List.length files
    /\ forall k, dict_total k counts'
                 = dict_total k counts + files_with_key k files.
Proof.
  induction files as [|p files IH]; intros counts Hnd Hpos; simpl.
  - split; [assumption|]. split; [assumption|]. split; [lia|].
    intros k. unfold files_with_key. simpl. lia.
  - destruct (IH (dict_incr (ext_key p) counts)
                (dict_incr_NoDup _ _ Hnd) (dict_incr_positive _ _ Hpos))
      as [Hnd' [Hpos' [Hsum Htot]]].
    split; [assumption|]. split; [assumption|]. split.
    + rewrite Hsum, dict_incr_sum. lia.
    + intros k. rewrite Htot, dict_total_incr, files_with_key_cons. lia.
Qed.

Lemma insert_item_perm (x : string * nat) (l : counts_dict) :
  Permutation (insert_item x l) (x :: l).
Proof.
  induction l as [|y l IH]; simpl; [reflexivity|].
  destruct (item_le x y); [reflexivity|].
  rewrite IH. apply perm_swap.
Qed.

Lemma sorted_items_perm (l : counts_dict) : Permutation (sorted_items l) l.
Proof.
  induction l as [|x l IH]; simpl; [reflexivity|].
  rewrite insert_item_perm. now constructor.
Qed.

Lemma item_le_total (a b : string * nat) :
  item_le a b = false -> item_le b a = true.
Proof.
  unfold item_le. destruct a as [ka va], b as [kb vb]. simpl.
  destruct (Nat.ltb_spec vb va) as [|Hba]; [discriminate|].
  destruct (Nat.ltb_spec va vb) as [|Hab]; [reflexivity|]. simpl.
  assert (va = vb) as -> by lia. rewrite Nat.eqb_refl. simpl.
  intros Hle. destruct (String.leb_total ka kb); congruence.
Qed.

Lemma insert_item_sorted (x : string * nat) (l : counts_dict) :
  Sorted (fun a b => item_le a b = true) l ->
  Sorted (fun a b => item_le a b = true) (insert_item x l).
Proof.
  induction 1 as [|y l Hl IH Hhd]; simpl; [repeat constructor|].
  destruct (item_le x y) eqn:E.
  - constructor; [now constructor | now constructor].
  - constructor; [assumption|].
    destruct l as [|z l]; simpl.
    + constructor. now apply item_le_total.
    + destruct (item_le x z); constructor;
        [now apply item_le_total | now inversion Hhd].
Qed.

Lemma sorted_items_sorted (l : counts_dict) :
  Sorted (fun a b => item_le a b = true) (sorted_items l).
Proof.
  induction l as [|x l IH]; simpl; [constructor|].
  now apply insert_item_sorted.
Qed.

Lemma list_sum_perm (l l' : list nat) :
  Permutation l l' -> list_sum l = list_sum l'.
Proof. induction 1; simpl; lia. Qed.

Lemma counted (files : list path) :
  let counts := count_extensions files in
  NoDup (map fst counts)
  /\ Forall (fun kv => 0 < snd kv) counts
  /\ list_sum (map snd counts) = List.length files
  /\ forall k, dict_total k counts = files_with_key k files.
Proof.
  destruct (counting_loop files [] (NoDup_nil _) (Forall_nil _))
    as [Hnd [Hpos [Hsum Htot]]].
  split; [assumption|]. split; [assumption|]. split; [exact Hsum|].
  intros k. now rewrite Htot.
Qed.

(** X10.  The summary lists exactly the extension keys that occur among
    the files, each with the number of files that have it. *)
Theorem summarize_extensions_counts (files : list path) (k : string)
  (n : nat) :
  In (k, n) (summarize_extensions files)
  <-> 0 < n /\ n = files_with_key k files.
Proof.
  unfold summarize_extensions. cbv zeta.
  destruct (counted files) as [Hnd [Hpos [_ Htot]]].
  set (counts := count_extensions files) in *.
  assert (Hperm : In (k, n) (sorted_items counts) <-> In (k, n) counts).
  { split; apply Permutation_in;
      [apply sorted_items_perm | symmetry; apply sorted_items_perm]. }
  rewrite Hperm, (dict_get_In k n counts Hnd). split.
  - intros Hget. split.
    + rewrite Forall_forall in Hpos.
      apply (Hpos (k, n)). now apply (dict_get_In k n counts Hnd).
    + rewrite <- Htot. unfold dict_total. now rewrite Hget.
  - intros [Hn ->]. rewrite <- Htot in *. unfold dict_total in *.
    destruct (dict_get k counts); [reflexivity | lia].
Qed.

(** X11.  The summary has no key twice, its counts add up to the number
    of files, and it is ordered: each entry has a larger count than the
    next, or the same count and a key that is not greater. *)
Theorem summarize_extensions_order (files : list path) :
  NoDup (map fst (summarize_extensions files))
  /\ list_sum (map snd (summarize_extensions files)) = List.length files
  /\ Sorted (fun a b => item_le a b = true) (summarize_extensions files).
Proof.
  unfold summarize_extensions. cbv zeta.
  destruct (counted files) as [Hnd [_ [Hsum _]]].
  set (counts := count_extensions files) in *.
  pose proof (sorted_items_perm counts) as Hperm.
  split; [|split].
  - apply (Permutation_NoDup (l := map fst counts)); [|assumption].
    symmetry. now apply Permutation_map.
  - rewrite <- Hsum. apply list_sum_perm. now apply Permutation_map.
  - apply sorted_items_sorted.
Qed.

(** X12.  A relative destination without [..] lies at or below the
    resolved root: the destination root is the root followed by the
    components given, so an empty one ([.]) sorts in place and any other
    is strictly inside the root. *)
Theorem relative_destination_is_inside_root (config : SortConfig) :
  is_absolute (dest_dir config) = false ->
  canonical (parts (dest_dir config)) = true ->
  destination_root config = root_path config ++ parts (dest_dir config)
  /\ is_relative_to_path (destination_root config) (root_path config) = true
  /\ (destination_root config = root_path config
      <-> parts (dest_dir config) = []).
Proof.
  intros Hrel Hcan. unfold destination_root. rewrite Hrel.
  assert (E : resolve (root_path config ++ parts (dest_dir config))
              = root_path config ++ parts (dest_dir config)).
  { apply resolve_canonical. now rewrite canonical_app, root_path_canonical. }
  rewrite E. split; [reflexivity|].
  split; [apply is_relative_to_path_app|]. split.
  - intros H. apply (f_equal (@List.length string)) in H.
    rewrite length_app in H. destruct (parts (dest_dir config));
      [reflexivity | simpl in H; lia].
  - intros ->. apply app_nil_r.
Qed.

Lemma relative_destination_is_inside_root_witness :
  is_absolute (dest_dir Ex.cfg_default) = false
  /\ canonical (parts (dest_dir Ex.cfg_default)) = true
  /\ destination_root Ex.cfg_default = ["r"; "sorted_by_extension"].
Proof.
  split; [reflexivity|]. split; [reflexivity|].
  apply (proj1 (relative_destination_is_inside_root Ex.cfg_default
                  eq_refl eq_refl)).
Defined.

(** ** The yes/no prompt *)

Lemma prompt_yes_no_loop_step (prompt : string) (default : option bool)
  (l : string) (rest : list string) (sh : list shown_line) :
  prompt_yes_no_loop prompt default (l :: rest) sh
  = match answer_of default l with
    | Some a =>
        (Got a, Console rest (sh ++ [AskedYesNo prompt (yes_no_suffix default)]))
    | None =>
        prompt_yes_no_loop prompt default rest
          ((sh ++ [AskedYesNo prompt (yes_no_suffix default)])
           ++ [PleaseAnswer])
    end.
Proof.
  cbn [prompt_yes_no_loop]. unfold answer_of. cbv zeta.
  destruct (String.eqb_spec (PyStr.lower (strip l)) "") as [->|Hne].
  - destruct default as [d|]; reflexivity.
  - destruct (PyStr.mem (PyStr.lower (strip l)) ["y"; "yes"]); [reflexivity|].
    now destruct (PyStr.mem (PyStr.lower (strip l)) ["n"; "no"]).
Qed.

(** X13.  [prompt_yes_no] asks again after every line that is no answer
    and returns the first answer it gets: [y] or [yes] and [n] or [no] in
    any letter case with blanks around them ignored, or an empty line when
    there is a default.  It reads exactly the lines up to that answer; if
    the input ends first, [input] raises [EOFError]. *)
Theorem prompt_yes_no_first_answer (prompt : string) (default : option bool)
  (refused : list string) (sh : list shown_line) :
  Forall (fun l => answer_of default l = None) refused ->
  (forall l rest a,
      answer_of default l = Some a ->
      prompt_yes_no prompt default (Console (refused ++ l :: rest) sh)
      = (Got a,
         Console rest
           (sh ++ refusals prompt default refused
               ++ [AskedYesNo prompt (yes_no_suffix default)])))
  /\ prompt_yes_no prompt default (Console refused sh)
     = (EOFError,
        Console []
          (sh ++ refusals prompt default refused
              ++ [AskedYesNo prompt (yes_no_suffix default)])).
Proof.
  unfold prompt_yes_no. cbn [stdin shown].
  intros Href. revert sh.
  induction Href as [|j refused Hj Href IH]; intros sh.
  - split.
    + intros l rest a Ha. cbn [app]. rewrite prompt_yes_no_loop_step, Ha.
      reflexivity.
    + reflexivity.
  - destruct (IH ((sh ++ [AskedYesNo prompt (yes_no_suffix default)])
                  ++ [PleaseAnswer])) as [IH1 IH2].
    assert (Happ : forall tail,
              ((sh ++ [AskedYesNo prompt (yes_no_suffix default)])
               ++ [PleaseAnswer])
              ++ refusals prompt default refused ++ tail
              = sh ++ refusals prompt default (j :: refused) ++ tail).
    { intros tail. unfold refusals. cbn [flat_map].
      now rewrite <- !app_assoc. }
    split.
    + intros l rest a Ha. cbn [app].
      rewrite prompt_yes_no_loop_step, Hj, (IH1 l rest a Ha).
      now rewrite Happ.
    + rewrite prompt_yes_no_loop_step, Hj, IH2. now rewrite Happ.
Qed.

Lemma prompt_yes_no_first_answer_witness :
  Forall (fun l => answer_of None l = None) [""; "maybe"]
  /\ prompt_yes_no "Proceed?" None (Console [""; "maybe"; "  YES "; "n"] [])
     = (Got true,
        Console ["n"]
          [AskedYesNo "Proceed?" " [y/n]"; PleaseAnswer;
           AskedYesNo "Proceed?" " [y/n]"; PleaseAnswer;
           AskedYesNo "Proceed?" " [y/n]"]).
Proof.
  assert (H : Forall (fun l => answer_of None l = None) [""; "maybe"])
    by (repeat constructor).
  split; [exact H|].
  apply (proj1 (prompt_yes_no_first_answer "Proceed?" None [""; "maybe"] [] H)
           "  YES " ["n"] true).
  reflexivity.
Defined.

(** ** The guided session *)

Lemma io_bind_got {A B} (m : IO A) (k : A -> IO B) (c c2 : console) (b : B) :
  io_bind m k c = (Got b, c2) ->
  exists a c1, m c = (Got a, c1) /\ k a c1 = (Got b, c2).
Proof.
  unfold io_bind. destruct (m c) as [[a| |] c1]; try discriminate. eauto.
Qed.

Lemma show_got (l : shown_line) (c c' : console) (u : unit) :
  show l c = (Got u, c') -> stdin c' = stdin c.
Proof. unfold show. now intros [= _ <-]. Qed.

Lemma input_got (asked : shown_line) (c c' : console) (l : string) :
  input asked c = (Got l, c') -> stdin c = l :: stdin c'.
Proof.
  unfold input. destruct (stdin c) as [|l0 rest]; [discriminate|].
  now intros [= <- <-].
Qed.

Lemma all_blank_tail (l : string) (lines : list string) :
  forallb blank (l :: lines) = true ->
  blank l = true /\ forallb blank lines = true.
Proof. simpl. now rewrite andb_true_iff. Qed.

Lemma prompt_path_got (env : process_env) (prompt : string)
  (default p : PurePath) (c c' : console) :
  prompt_path env prompt default c = (Got p, c') ->
  forallb blank (stdin c) = true ->
  p = default /\ forallb blank (stdin c') = true.
Proof.
  unfold prompt_path. intros H Hb.
  apply io_bind_got in H as [l [c1 [Hin H]]].
  apply input_got in Hin. rewrite Hin in Hb.
  apply all_blank_tail in Hb as [Hl Hrest]. unfold blank in Hl.
  unfold io_ret in H. rewrite Hl in H. now injection H as <- <-.
Qed.

Lemma prompt_text_got (prompt default s : string) (c c' : console) :
  prompt_text prompt default c = (Got s, c') ->
  forallb blank (stdin c) = true ->
  s = default /\ forallb blank (stdin c') = true.
Proof.
  unfold prompt_text. intros H Hb.
  apply io_bind_got in H as [l [c1 [Hin H]]].
  apply input_got in Hin. rewrite Hin in Hb.
  apply all_blank_tail in Hb as [Hl Hrest]. unfold blank in Hl.
  unfold io_ret in H. rewrite Hl in H. now injection H as <- <-.
Qed.

Lemma answer_of_blank (default : option bool) (l : string) :
  blank l = true -> answer_of default l = default.
Proof.
  unfold blank, answer_of. intros H. apply String.eqb_eq in H.
  now rewrite H.
Qed.

Lemma prompt_yes_no_got (prompt : string) (d a : bool) (c c' : console) :
  prompt_yes_no prompt (Some d) c = (Got a, c') ->
  forallb blank (stdin c) = true ->
  a = d /\ forallb blank (stdin c') = true.
Proof.
  unfold prompt_yes_no. destruct (stdin c) as [|l rest]; [discriminate|].
  intros H Hb. apply all_blank_tail in Hb as [Hl Hrest].
  rewrite prompt_yes_no_loop_step, (answer_of_blank _ _ Hl) in H.
  now injection H as <- <-.
Qed.

(** With Enter at every prompt the session asks for a dry run. *)
Lemma run_interactive_defaults (env : process_env) (t : node)
  (default_root : PurePath) (c c' : console) (args : Namespace) :
  forallb blank (stdin c) = true ->
  run_interactive env t default_root c = (Got args, c') ->
  ns_dry_run args = true
  /\ ns_root args = resolved env default_root
  /\ ns_dest_dir args = "."
  /\ ns_include_dotfiles args = false
  /\ ns_include_code args = false.
Proof.
  intros Hb H. unfold run_interactive, print_banner, print_section in H.
  apply io_bind_got in H as [u1 [c1 [H1 H]]]. apply show_got in H1.
  apply io_bind_got in H as [u2 [c2 [H2 H]]]. apply show_got in H2.
  rewrite <- H1, <- H2 in Hb.
  apply io_bind_got in H as [root [c3 [H3 H]]].
  destruct (prompt_path_got _ _ _ _ _ _ H3 Hb) as [-> Hb3].
  apply io_bind_got in H as [dest [c4 [H4 H]]].
  destruct (prompt_text_got _ _ _ _ _ H4 Hb3) as [-> Hb4].
  apply io_bind_got in H as [u5 [c5 [H5 H]]]. apply show_got in H5.
  rewrite <- H5 in Hb4.
  apply io_bind_got in H as [dots [c6 [H6 H]]].
  destruct (prompt_yes_no_got _ _ _ _ _ H6 Hb4) as [-> Hb6].
  apply io_bind_got in H as [code [c7 [H7 H]]].
  destruct (prompt_yes_no_got _ _ _ _ _ H7 Hb6) as [-> Hb7].
  apply io_bind_got in H as [u8 [c8 [H8 H]]]. apply show_got in H8.
  cbv zeta in H.
  apply io_bind_got in H as [u9 [c9 [H9 H]]]. apply show_got in H9.
  apply io_bind_got in H as [u10 [c10 [H10 H]]].
  assert (E10 : stdin c10 = stdin c9).
  { destruct (0 <? _)%nat.
    - apply io_bind_got in H10 as [u [cx [Hx H10]]]. apply show_got in Hx.
      destruct (20 <? _)%nat.
      + apply show_got in H10. congruence.
      + unfold io_ret in H10. injection H10 as _ <-. assumption.
    - now apply show_got in H10. }
  apply io_bind_got in H as [u11 [c11 [H11 H]]]. apply show_got in H11.
  rewrite <- H8, <- H9, <- E10, <- H11 in Hb7.
  apply io_bind_got in H as [dry [c12 [H12 H]]].
  destruct (prompt_yes_no_got _ _ _ _ _ H12 Hb7) as [-> Hb12].
  apply io_bind_got in H as [proceed [c13 [H13 H]]].
  destruct (negb proceed); [discriminate|].
  unfold io_ret in H. injection H as <- _. cbn. auto.
Qed.

Lemma dry_run_prints_no_move (config : SortConfig) (t : node)
  (src d : path) :
  dry_run config = true ->
  ~ In (Moving src d) (out (snd (sort_files config (World t [])))).
Proof.
  intros Hdry. rewrite sort_files_unfold. cbv zeta. cbn [tree out].
  destruct (negb _ || negb _); [intros []|].
  destruct (mkdir_p [] (destination_root config) t) as [e|t1]; [intros []|].
  destruct (iter_files t1 _ _ _ _ None) as [|p0 files].
  { cbn [snd out]. intros [E|[]]. discriminate. }
  rewrite Hdry. cbn [negb andb]. rewrite app_nil_r.
  destruct (move_all (p0 :: files) _ true _) as [r3 w3] eqn:Eall.
  assert (Hw3 : ~ In (Moving src d) (out w3)).
  { destruct (move_all_lines _ _ _ _ _ _ Eall) as [lines [-> Hl]].
    cbn [out app]. intros Hin.
    destruct (Hl _ Hin) as [p [_ [E|[d' E]]]]; discriminate. }
  destruct r3 as [u|e]; cbn [snd out]; [|exact Hw3].
  intros Hin. apply in_app_or in Hin as [Hin|[E|[E|[]]]];
    try discriminate. now apply Hw3.
Qed.

(** X14.  Pressing Enter at every prompt of an interactive session never
    moves a file: the session asks for a dry run (or is cancelled, or
    runs out of input), so however [main] ends the regular files are the
    same as before and no "Moving" line was printed. *)
Theorem all_defaults_session_moves_nothing (env : process_env)
  (args : Namespace) (c : console) (t : node) :
  ns_interactive args = true ->
  forallb blank (stdin c) = true ->
  let w' := snd (main env args c t) in
  (forall q k, kind_at (tree w') q = Some (KFile k)
               <-> kind_at t q = Some (KFile k))
  /\ forall src d, ~ In (Moving src d) (out w').
Proof.
  intros Hi Hb w'. unfold w', main. rewrite Hi.
  destruct (run_interactive env t (ns_root args) c) as [[args'| |] c'] eqn:Er;
    cbn [snd tree out]; try (split; [tauto | intros src d []]).
  destruct (run_interactive_defaults _ _ _ _ _ _ Hb Er) as [Hdry _].
  assert (Hcfg : dry_run (build_config env args') = true) by exact Hdry.
  destruct (sort_files (build_config env args') (World t []))
    as [[files|e] w1] eqn:Es; cbn [snd]; split;
    try (apply (dry_run_moves_no_file _ _ _ _ Hcfg Es));
    intros src d;
    pose proof (dry_run_prints_no_move (build_config env args') t src d Hcfg)
      as Hno; rewrite Es in Hno; exact Hno.
Qed.

Lemma all_defaults_session_moves_nothing_witness :
  ns_interactive Ex2.args_interactive = true
  /\ forallb blank (stdin Ex2.enter_only) = true
  /\ kind_at (tree (snd (main Ex2.env Ex2.args_interactive Ex2.enter_only
                           Ex.home)))
       ["r"; "a.txt"] = Some (KFile 1).
Proof.
  split; [reflexivity|]. split; [reflexivity|].
  apply (proj1 (all_defaults_session_moves_nothing Ex2.env
                  Ex2.args_interactive Ex2.enter_only Ex.home
                  eq_refl eq_refl) ["r"; "a.txt"] 1).
  reflexivity.
Defined.

Lemma prompt_yes_no_decisive (prompt : string) (default : option bool)
  (l : string) (rest : list string) (sh : list shown_line) (a : bool) :
  answer_of default l = Some a ->
  prompt_yes_no prompt default (Console (l :: rest) sh)
  = (Got a, Console rest (sh ++ [AskedYesNo prompt (yes_no_suffix default)])).
Proof.
  intros Ha. unfold prompt_yes_no. cbn [stdin shown].
  now rewrite prompt_yes_no_loop_step, Ha.
Qed.

Lemma says_no_answer (default : option bool) (l : string) :
  says_no l = true -> answer_of default l = Some false.
Proof.
  unfold says_no, answer_of. cbv zeta.
  set (r := PyStr.lower (strip l)). intros H.
  destruct (String.eqb_spec r "") as [E|_]; [rewrite E in H; discriminate|].
  destruct (PyStr.mem r ["y"; "yes"]) eqn:Ey; [|now rewrite H].
  exfalso. apply mem_In in Ey, H.
  destruct Ey as [<-|[<-|[]]]; destruct H as [E|[E|[]]]; discriminate.
Qed.

Lemma io_bind_eval {A B} (m : IO A) (k : A -> IO B) (c c1 : console) (a : A) :
  m c = (Got a, c1) -> io_bind m k c = k a c1.
Proof. unfold io_bind. now intros ->. Qed.

(** X15.  Saying no at "Proceed with the operation?" cancels the
    session: once the three yes/no questions before it were answered,
    [main] ends with the [SystemExit] of [run_interactive], [sort_files]
    is never called, so nothing was changed or printed by it, and exactly
    the six lines of the session were read. *)
Theorem declined_session_changes_nothing (env : process_env)
  (args : Namespace) (t : node) (l1 l2 l3 l4 l5 l6 : string)
  (rest : list string) (sh : list shown_line) (b3 b4 b5 : bool) :
  ns_interactive args = true ->
  answer_of (Some false) l3 = Some b3 ->
  answer_of (Some false) l4 = Some b4 ->
  answer_of (Some true) l5 = Some b5 ->
  says_no l6 = true ->
  exists c',
    main env args (Console (l1 :: l2 :: l3 :: l4 :: l5 :: l6 :: rest) sh) t
    = (UserCancelled, c', World t [])
    /\ stdin c' = rest.
Proof.
  intros Hi H3 H4 H5 H6. unfold main. rewrite Hi.
  unfold run_interactive.
  erewrite io_bind_eval by reflexivity.
  erewrite io_bind_eval by reflexivity.
  erewrite io_bind_eval by reflexivity.
  erewrite io_bind_eval by reflexivity.
  erewrite io_bind_eval by reflexivity.
  erewrite io_bind_eval by (apply prompt_yes_no_decisive; exact H3).
  erewrite io_bind_eval by (apply prompt_yes_no_decisive; exact H4).
  erewrite io_bind_eval by reflexivity.
  cbv zeta.
  erewrite io_bind_eval by reflexivity.
  match goal with
  | |- context [io_bind (if ?b then ?x else ?y) ?k ?c] =>
      assert (Hblock : exists c1, (if b then x else y) c = (Got tt, c1)
                                  /\ stdin c1 = l5 :: l6 :: rest)
  end.
  { destruct (0 <? _)%nat; [|eexists; split; reflexivity].
    erewrite io_bind_eval by reflexivity.
    destruct (20 <? _)%nat; eexists; split; reflexivity. }
  destruct Hblock as [[in1 sh1] [Hblock Hin1]]. cbn [stdin] in Hin1.
  subst in1.
  erewrite io_bind_eval by exact Hblock.
  erewrite io_bind_eval by reflexivity.
  erewrite io_bind_eval by (apply prompt_yes_no_decisive; exact H5).
  erewrite io_bind_eval
    by (apply prompt_yes_no_decisive; apply says_no_answer; exact H6).
  cbn [negb]. eexists. split; reflexivity.
Qed.

Lemma declined_session_changes_nothing_witness :
  exists c',
    main Ex2.env Ex2.args_interactive Ex2.declined Ex.home
    = (UserCancelled, c', World Ex.home [])
    /\ stdin c' = ["x"].
Proof.
  apply (declined_session_changes_nothing Ex2.env Ex2.args_interactive
           Ex.home "" "" "" "" "n" " No " ["x"] [] false false false);
    reflexivity.
Defined.

(* ================================================================== *)
(** * Contracts of single steps *)



Lemma mkdir_p_blocked (p : path) :
  forall (here : path) (t : node) (c : content),
    kind_at t p = Some (KFile c) ->
    mkdir_p here p t = inl (FileExistsError (here ++ p)).
Proof.
  induction p as [|k p IH]; intros here t c H.
  - destruct t as [c0|es]; [|discriminate]. simpl. now rewrite app_nil_r.
  - destruct t as [c0|es]; [discriminate|].
    rewrite kind_at_cons in H. simpl.
    destruct (assoc k es) as [child|]; [|discriminate].
    rewrite (IH (here // k) child c H). unfold joinpath.
    now rewrite <- app_assoc.
Qed.

(** X17.  A regular file in the way of a directory stops the work before
    anything is touched: if the destination root is a regular file,
    [sort_files] raises [FileExistsError] for it with nothing changed or
    printed; if the bucket of a file's extension is a regular file,
    [move_file] does the same, in a dry run too. *)
Theorem regular_file_in_the_way :
  (forall config t c,
      path_is_dir t (root_path config) = true ->
      kind_at t (destination_root config) = Some (KFile c) ->
      sort_files config (World t [])
      = (Raise (FileExistsError (destination_root config)), World t []))
  /\ (forall src dest_root dry w c,
        kind_at (tree w) (dest_root // ext_key src) = Some (KFile c) ->
        move_file src dest_root dry w
        = (Raise (FileExistsError (dest_root // ext_key src)), w)).
Proof.
  split.
  - intros config t c Hroot Hdest. rewrite sort_files_unfold. cbv zeta.
    cbn [tree out]. unfold path_exists, path_is_dir in *.
    destruct (kind_at t (root_path config)) as [[c0|]|]; try discriminate.
    cbn [negb orb].
    now rewrite (mkdir_p_blocked _ [] t c Hdest).
  - intros src dest_root dry w c Hb. rewrite move_file_unfold. cbv zeta.
    now rewrite (mkdir_p_blocked _ [] (tree w) c Hb).
Qed.

Lemma regular_file_in_the_way_witness :
  let t := Dir [("r", Dir [("txt", File 1); ("a.txt", File 2)])] in
  kind_at t (["r"] // ext_key ["r"; "a.txt"]) = Some (KFile 1)
  /\ move_file ["r"; "a.txt"] ["r"] false (World t [])
     = (Raise (FileExistsError ["r"; "txt"]), World t []).
Proof.
  intros t. split; [reflexivity|].
  apply (proj2 regular_file_in_the_way ["r"; "a.txt"] ["r"] false
           (World t []) 1).
  reflexivity.
Defined.

(* ================================================================== *)
(** * The bucket of a file, in the specification's words *)

Lemma lower_char_letter (c : ascii) : PyStr.lower_char c = lower_letter c.
Proof. destruct c as [[] [] [] [] [] [] [] []]; reflexivity. Qed.

Lemma lower_lowercased (s : string) : PyStr.lower s = lowercased s.
Proof.
  induction s as [|c s IH]; simpl; [reflexivity|].
  now rewrite lower_char_letter, IH.
Qed.

Lemma lower_char_dot (c : ascii) :
  Ascii.eqb (PyStr.lower_char c) "." = Ascii.eqb c ".".
Proof. destruct c as [[] [] [] [] [] [] [] []]; reflexivity. Qed.

Lemma dotless_has_dot (s : string) : dotless s <-> PyStr.has_dot s = false.
Proof.
  induction s as [|c s IH]; simpl; [tauto|].
  rewrite orb_false_iff, <- IH.
  destruct (Ascii.eqb_spec c "."); split; intros [H1 H2]; split;
    try assumption; try reflexivity; try discriminate; try contradiction.
Qed.

Lemma append_same_length (a a' x y : string) :
  String.length a = String.length a' ->
  (a ++ x)%string = (a' ++ y)%string -> a = a' /\ x = y.
Proof.
  revert a'. induction a as [|c a IH]; intros [|c' a'] Hl H;
    try discriminate; simpl in *.
  - now split.
  - injection H as -> H. injection Hl as Hl.
    destruct (IH a' Hl H) as [-> ->]. now split.
Qed.

(** A name has at most one reading [stem.e] with no dot in [e]. *)
Lemma split_unique (a b a' b' : string) :
  PyStr.has_dot b = false -> PyStr.has_dot b' = false ->
  (a ++ String "." b)%string = (a' ++ String "." b')%string ->
  a = a' /\ b = b'.
Proof.
  intros Hb Hb' H.
  pose proof (rfind_dot_last a b Hb) as R.
  rewrite H, (rfind_dot_last a' b' Hb') in R. injection R as R.
  destruct (append_same_length a a' _ _ (eq_sym R) H) as [-> E].
  injection E as ->. now split.
Qed.

Lemma ext_of_name_extension (a b : string) :
  PyStr.has_dot b = false -> a <> "" -> b <> "" ->
  ext_of_name (a ++ String "." b) = PyStr.lower b.
Proof.
  intros Hb Ha Hb'. unfold ext_of_name. rewrite (name_suffix_split _ _ Hb).
  destruct a as [|ca a]; [contradiction|].
  destruct b as [|cb b]; [contradiction|].
  cbn [String.length Nat.ltb Nat.leb andb PyStr.lower PyStr.lstrip_dot].
  change (Ascii.eqb (PyStr.lower_char ".") ".") with true. cbv iota.
  simpl in Hb. apply orb_false_iff in Hb as [Hcb _].
  cbn [PyStr.lstrip_dot]. rewrite lower_char_dot, Hcb. reflexivity.
Qed.

Lemma ext_of_name_no_extension (a b : string) :
  PyStr.has_dot b = false -> a = "" \/ b = "" ->
  ext_of_name (a ++ String "." b) = "no_ext".
Proof.
  intros Hb H. unfold ext_of_name. rewrite (name_suffix_split _ _ Hb).
  destruct H as [-> | ->]; [reflexivity|].
  cbn [String.length Nat.ltb Nat.leb]. now rewrite andb_false_r.
Qed.

(** The key the code computes is the bucket the specification names, and
    the specification names no other. *)
Lemma ext_of_name_bucket_name (nm : string) : bucket_name nm (ext_of_name nm).
Proof.
  destruct (PyStr.rfind_dot nm) as [i|] eqn:E.
  - destruct (rfind_dot_split nm i E) as [a [b [-> [_ Hb]]]].
    destruct (string_dec a "") as [Ha|Ha];
      [|destruct (string_dec b "") as [Hb'|Hb']].
    + rewrite (ext_of_name_no_extension a b Hb (or_introl Ha)).
      apply bucket_no_ext. intros stem e H He.
      apply dotless_has_dot in He.
      destruct (split_unique _ _ _ _ Hb He H) as [<- _]. now left.
    + rewrite (ext_of_name_no_extension a b Hb (or_intror Hb')).
      apply bucket_no_ext. intros stem e H He.
      apply dotless_has_dot in He.
      destruct (split_unique _ _ _ _ Hb He H) as [_ <-]. now right.
    + rewrite (ext_of_name_extension a b Hb Ha Hb'), lower_lowercased.
      apply (bucket_of_extension _ a b); try assumption; try reflexivity.
      now apply dotless_has_dot.
  - apply rfind_none_has_dot in E. unfold ext_of_name.
    rewrite (name_suffix_no_dot nm E). apply bucket_no_ext.
    intros stem e -> _. rewrite has_dot_append in E. simpl in E.
    rewrite orb_true_r in E. discriminate.
Qed.




(** C9.  A name that starts with a dot and has no other dot has the
    extension key ["no_ext"].  A live [move_file] that returns puts the
    content of such a file at the returned path: a path directly in
    [dest_root/no_ext] that was free before, with the move printed, or
    the file's own path when its directory already is that bucket.  A
    dry run names a target in the same bucket, and the in-place rule of
    [iter_files] compares the file's directory with that same bucket. *)
Theorem dotfile_goes_to_no_ext (rest : string) (d : path) :
  PyStr.has_dot rest = false ->
  let src := d // String "." rest in
  ext_key src = "no_ext"
  /\ (forall dest_root w dst w' c,
        kind_at (tree w) src = Some (KFile c) ->
        move_file src dest_root false w = (Ok dst, w') ->
        kind_at (tree w') dst = Some (KFile c)
        /\ ((path_parent dst = dest_root // "no_ext"
             /\ kind_at (tree w) dst = None
             /\ In (Moving src dst) (out w'))
            \/ (dst = src
                /\ resolve d = resolve (dest_root // "no_ext"))))
  /\ (forall dest_root w dst w',
        move_file src dest_root true w = (Ok dst, w') ->
        (path_parent dst = dest_root // "no_ext"
         /\ In (DryRun src dst) (out w'))
        \/ (dst = src
            /\ resolve d = resolve (dest_root // "no_ext")))
  /\ (forall t root dest_root ic ce,
        yields t root dest_root true true ic ce d (String "." rest) = true ->
        resolve d <> resolve (dest_root // "no_ext")).
Proof.
  intros Hrest src.
  assert (Hext : ext_key src = "no_ext").
  { unfold src. rewrite ext_key_join. now apply dotfile_ext. }
  assert (Hpar : path_parent src = d) by apply path_parent_join.
  split; [exact Hext|]. split; [|split].
  - intros dest_root w dst w' c Hsrc H.
    destruct (move_file_live_cases _ _ _ _ _ _ Hsrc H)
      as [[e [E _]]|[[E [Eq Hsame]]|[d' [E [Hout [Hp [Hfree Hnew]]]]]]].
    + discriminate.
    + injection E as ->. split; [now apply Hsame|]. right.
      split; [reflexivity|]. rewrite Hpar, Hext in Eq.
      now apply path_eqb_eq.
    + injection E as ->. split; [apply Hnew; left; now split|]. left.
      rewrite Hext in Hp. split; [exact Hp|]. split; [exact Hfree|].
      rewrite Hout. apply in_or_app. right. now left.
  - intros dest_root w dst w' H. rewrite move_file_unfold in H.
    cbv zeta in H. rewrite Hext, Hpar in H.
    destruct (mkdir_p [] (dest_root // "no_ext") (tree w)) as [e|t1];
      [discriminate|].
    destruct (path_eqb_spec (resolve d) (resolve (dest_root // "no_ext")))
      as [E|E].
    { injection H as <- _. now right. }
    destruct (safe_destination t1 _ _) as [dest|] eqn:Es; [|discriminate].
    apply safe_destination_in_bucket in Es as [_ [nm ->]].
    injection H as <- <-. left. split; [apply path_parent_join|]. cbn [out].
    apply in_or_app. right. now left.
  - intros t root dest_root ic ce Hy. apply yields_true in Hy.
    destruct Hy as [_ [_ [_ [_ [Hy _]]]]]. cbn [andb] in Hy.
    rewrite (dotfile_ext _ Hrest) in Hy. now apply path_eqb_neq.
Qed.

Lemma dotfile_goes_to_no_ext_witness :
  let src := ["r"; ".secret"] in
  let dst := ["r"; "sorted_by_extension"; "no_ext"; ".secret"] in
  let run := move_file src Ex.dest false (World Ex.home []) in
  PyStr.has_dot "secret" = false
  /\ kind_at Ex.home src = Some (KFile 3)
  /\ fst run = Ok dst
  /\ kind_at (tree (snd run)) dst = Some (KFile 3).
Proof.
  intros src dst run. split; [reflexivity|]. split; [reflexivity|].
  split; [reflexivity|].
  apply (proj1 (proj2 (dotfile_goes_to_no_ext "secret" ["r"] eq_refl))
           Ex.dest (World Ex.home []) dst (snd run) 3 eq_refl).
  vm_compute. reflexivity.
Defined.
